(** * dialog-closedby-polyfill: dismissal coordination, verified

    A shallow embedding of the bundled build [index.js], lines 1-177: its
    three parts [src/listeners.ts] (policy resolver, Escape delegation, click
    and cancel handlers, [attachDialog] and [detachDialog]), [src/observer.ts]
    (tree observers) and [src/index.ts] ([isSupported], [isPolyfilled],
    [apply] with the patched [showModal], [close] and the [closedBy]
    property), followed by the properties of the dismissal policy, the Escape
    stack, backdrop clicks, the attach/detach lifecycle and initialization.

    How the program is modelled:
    - a dialog is a reference ([positive]); what the host knows of it (open
      flag, [closedby] attribute, bounding box, registered listeners and
      observers) is an [Element];
    - the module state ([dialogStates], [activeDialogs], [polyfilled]) and
      the host page make up a [World], threaded through a state-and-exception
      monad [JS]; a thrown error is the outcome [Throw];
    - the WeakMap [dialogStates] is a [gmap], the Set [activeDialogs] the list
      of its members in insertion order;
    - the host is a collaborator: its native [showModal] is any function the
      world carries, its native [close] follows the HTML Standard, and the
      global [HTMLDialogElement] may be missing;
    - coordinates are rationals, which contain the finite doubles and order
      them as JavaScript does.

    The repository carries two more forms of the same code, each embedded in
    a module of its own with its own page state: the single-file build
    [closedby.js] ([index.js], lines 199-429) in [Closedby], and the latest
    [listeners.ts] with its document-level light-dismiss handlers
    (part_000, lines 1153-1349) in [LightDismiss]. *)

From Stdlib Require Import QArith.
From stdpp Require Import gmap strings list fin_maps.

Local Open Scope string_scope.
Set Warnings "-clear-no-such-hyp".

(** ** The host page *)

(** A [<dialog>] element; identity is reference identity. *)
Definition Dialog := positive.

(** Identity of a function object or observer created at run time. *)
Definition ObjectId := nat.

(** [getBoundingClientRect()]: finite doubles, embedded in the rationals. *)
Record DOMRect := mkRect {
  rect_top : Q;
  rect_bottom : Q;
  rect_left : Q;
  rect_right : Q
}.

Record Element := mkElement {
  open : bool;                       (* [dialog.open] *)
  closedby : option string;          (* [getAttribute("closedby")], [None] is null *)
  boundingRect : DOMRect;            (* [getBoundingClientRect()] *)
  clickListeners : list ObjectId;    (* listeners registered for "click" *)
  cancelListeners : list ObjectId;   (* listeners registered for "cancel" *)
  attrObservers : list ObjectId      (* MutationObservers watching the attributes *)
}.

(** The record [attachDialog] stores per dialog ([DialogListeners] of
    [types.ts]); [handleEscape] is the one shared [documentEscapeHandler]. *)
Record DialogListeners := mkListeners {
  handleClick : ObjectId;
  handleCancel : ObjectId;
  attrObserver : ObjectId
}.

(** What [typeof HTMLDialogElement.prototype] can say. *)
Inductive PrototypeKind := ProtoObject | ProtoFunction | ProtoPrimitive.

(** The global [HTMLDialogElement], when the host defines it. *)
Record DialogInterface := mkInterface {
  prototypeKind : PrototypeKind;
  hasShowModal : bool;      (* "showModal" in HTMLDialogElement.prototype *)
  hasClosedBy : bool;       (* "closedBy" in HTMLDialogElement.prototype *)
  patched : bool            (* showModal and close replaced by the polyfill *)
}.

Inductive JSError :=
| ReferenceError (msg : string)
| TypeError (msg : string)
| DOMException (msg : string).

Global Instance JSError_eq_dec : EqDecision JSError.
Proof. solve_decision. Defined.

(** A node of a document or shadow tree. *)
#[warnings="-register-all"]
Inductive Node :=
| DialogNode (d : Dialog) (children : list Node)
| ElementNode (shadowRoot : option nat) (children : list Node)
| TextNode.

(** What [observeRoot] is given: the document or a shadow root. *)
Inductive Root := DocumentRoot | ShadowRoot (s : nat).

(** The host's native [showModal]: given the dialog and the elements it
    returns normally ([None]) or throws, and leaves the elements as it likes.
    The polyfill only relies on it through [originalShowModal.call(this)]. *)
Definition NativeShowModal : Type :=
  Dialog -> (Dialog -> Element) -> option JSError * (Dialog -> Element).

Record World := mkWorld {
  (* the host page *)
  elements : Dialog -> Element;
  HTMLDialogElement : option DialogInterface;
  originalShowModal : NativeShowModal;
  documentBody : option Node;                  (* [document.body], [None] is null *)
  (* the rest of the document: the nodes that are not under [document.body],
     those that come before it in tree order (the head among them) and those
     that come after it *)
  precedingBody : list Node;
  followingBody : list Node;
  shadowTrees : nat -> list Node;              (* children of each shadow root *)
  console : list string;                       (* [console.warn] output, oldest first *)
  nextObject : ObjectId;                       (* allocator of object identities *)
  (* module state of listeners.ts, observer.ts and index.ts *)
  dialogStates : gmap Dialog DialogListeners;  (* the WeakMap of records *)
  activeDialogs : list Dialog;                 (* the Set, in insertion order *)
  rootObservers : list Root;                   (* roots under a structural watch *)
  attachShadowIsPatched : bool;
  polyfilled : bool
}.

(** ** The monad of JavaScript computations *)

Inductive Outcome (A : Type) :=
| Return (a : A) (w : World)
| Throw (e : JSError) (w : World).
Arguments Return {A} a w.
Arguments Throw {A} e w.

Definition JS (A : Type) := World -> Outcome A.

Definition ret {A} (a : A) : JS A := fun w => Return a w.

Definition bind {A B} (m : JS A) (k : A -> JS B) : JS B :=
  fun w => match m w with
           | Return a w' => k a w'
           | Throw e w' => Throw e w'
           end.

Definition throw {A} (e : JSError) : JS A := fun w => Throw e w.
Definition gets {A} (f : World -> A) : JS A := fun w => Return (f w) w.
Definition modify (f : World -> World) : JS unit := fun w => Return tt (f w).

Declare Scope js_scope.
Delimit Scope js_scope with js.
Notation "'let*' x := m 'in' k" := (bind m (fun x => k))
  (at level 10, x name, m at level 100, k at level 200,
   format "'[v' 'let*'  x  :=  m  'in' '/' k ']'") : js_scope.
Notation "m ;; k" := (bind m (fun _ => k))
  (at level 100, k at level 200, right associativity,
   format "'[v' m  ;; '/' k ']'") : js_scope.
Local Open Scope js_scope.

Fixpoint forEach {A} (l : list A) (f : A -> JS unit) : JS unit :=
  match l with
  | [] => ret tt
  | x :: l' => f x ;; forEach l' f
  end.

(** ** Field updates *)

Definition set_elements (f : Dialog -> Element) (w : World) : World :=
  mkWorld f (HTMLDialogElement w) (originalShowModal w) (documentBody w)
          (precedingBody w) (followingBody w) (shadowTrees w) (console w) (nextObject w) (dialogStates w)
          (activeDialogs w) (rootObservers w) (attachShadowIsPatched w) (polyfilled w).
Definition set_HTMLDialogElement (i : option DialogInterface) (w : World) : World :=
  mkWorld (elements w) i (originalShowModal w) (documentBody w)
          (precedingBody w) (followingBody w) (shadowTrees w) (console w) (nextObject w) (dialogStates w)
          (activeDialogs w) (rootObservers w) (attachShadowIsPatched w) (polyfilled w).
Definition set_console (c : list string) (w : World) : World :=
  mkWorld (elements w) (HTMLDialogElement w) (originalShowModal w) (documentBody w)
          (precedingBody w) (followingBody w) (shadowTrees w) c (nextObject w) (dialogStates w)
          (activeDialogs w) (rootObservers w) (attachShadowIsPatched w) (polyfilled w).
Definition set_nextObject (n : ObjectId) (w : World) : World :=
  mkWorld (elements w) (HTMLDialogElement w) (originalShowModal w) (documentBody w)
          (precedingBody w) (followingBody w) (shadowTrees w) (console w) n (dialogStates w)
          (activeDialogs w) (rootObservers w) (attachShadowIsPatched w) (polyfilled w).
Definition set_dialogStates (m : gmap Dialog DialogListeners) (w : World) : World :=
  mkWorld (elements w) (HTMLDialogElement w) (originalShowModal w) (documentBody w)
          (precedingBody w) (followingBody w) (shadowTrees w) (console w) (nextObject w) m
          (activeDialogs w) (rootObservers w) (attachShadowIsPatched w) (polyfilled w).
Definition set_activeDialogs (l : list Dialog) (w : World) : World :=
  mkWorld (elements w) (HTMLDialogElement w) (originalShowModal w) (documentBody w)
          (precedingBody w) (followingBody w) (shadowTrees w) (console w) (nextObject w) (dialogStates w)
          l (rootObservers w) (attachShadowIsPatched w) (polyfilled w).
Definition set_rootObservers (l : list Root) (w : World) : World :=
  mkWorld (elements w) (HTMLDialogElement w) (originalShowModal w) (documentBody w)
          (precedingBody w) (followingBody w) (shadowTrees w) (console w) (nextObject w) (dialogStates w)
          (activeDialogs w) l (attachShadowIsPatched w) (polyfilled w).
Definition set_attachShadowIsPatched (b : bool) (w : World) : World :=
  mkWorld (elements w) (HTMLDialogElement w) (originalShowModal w) (documentBody w)
          (precedingBody w) (followingBody w) (shadowTrees w) (console w) (nextObject w) (dialogStates w)
          (activeDialogs w) (rootObservers w) b (polyfilled w).
Definition set_polyfilled (b : bool) (w : World) : World :=
  mkWorld (elements w) (HTMLDialogElement w) (originalShowModal w) (documentBody w)
          (precedingBody w) (followingBody w) (shadowTrees w) (console w) (nextObject w) (dialogStates w)
          (activeDialogs w) (rootObservers w) (attachShadowIsPatched w) b.

Definition set_open (b : bool) (e : Element) : Element :=
  mkElement b (closedby e) (boundingRect e)
            (clickListeners e) (cancelListeners e) (attrObservers e).
Definition set_closedby (a : option string) (e : Element) : Element :=
  mkElement (open e) a (boundingRect e)
            (clickListeners e) (cancelListeners e) (attrObservers e).
Definition set_clickListeners (l : list ObjectId) (e : Element) : Element :=
  mkElement (open e) (closedby e) (boundingRect e)
            l (cancelListeners e) (attrObservers e).
Definition set_cancelListeners (l : list ObjectId) (e : Element) : Element :=
  mkElement (open e) (closedby e) (boundingRect e)
            (clickListeners e) l (attrObservers e).
Definition set_attrObservers (l : list ObjectId) (e : Element) : Element :=
  mkElement (open e) (closedby e) (boundingRect e)
            (clickListeners e) (cancelListeners e) l.

(** Replace the element of one dialog. *)
Definition update_element (d : Dialog) (f : Element -> Element) (w : World) : World :=
  set_elements (fun d' => if decide (d' = d) then f (elements w d') else elements w d') w.

(** ** src/listeners.ts *)

(** [dialog.getAttribute("closedby")] *)
Definition getAttribute_closedby (dialog : Dialog) : JS (option string) :=
  gets (fun w => closedby (elements w dialog)).

(** [getClosedByValue], index.js lines 3-6. *)
Definition getClosedByValue (dialog : Dialog) : JS string :=
  let* raw := getAttribute_closedby dialog in
  ret (match raw with
       | Some s => if String.eqb s "closerequest" || String.eqb s "none"
                   then s else "any"
       | None => "any"
       end).

(** The JavaScript [Set] of dialogs, as the list of its members in insertion
    order: [add] appends a dialog that is not yet a member, [delete] removes
    it wherever it sits. *)
Definition Set_add (d : Dialog) (s : list Dialog) : list Dialog :=
  if bool_decide (d ∈ s) then s else s ++ [d].
Definition Set_delete (d : Dialog) (s : list Dialog) : list Dialog :=
  filter (λ d', d' ≠ d) s.

(** [addEventListener] keeps one entry per callback, [removeEventListener]
    drops it. *)
Definition add_listener (h : ObjectId) (l : list ObjectId) : list ObjectId :=
  if bool_decide (h ∈ l) then l else l ++ [h].
Definition remove_listener (h : ObjectId) (l : list ObjectId) : list ObjectId :=
  filter (λ h', h' ≠ h) l.

Definition addEventListener_click (dialog : Dialog) (h : ObjectId) : JS unit :=
  modify (update_element dialog
            (fun e => set_clickListeners (add_listener h (clickListeners e)) e)).
Definition addEventListener_cancel (dialog : Dialog) (h : ObjectId) : JS unit :=
  modify (update_element dialog
            (fun e => set_cancelListeners (add_listener h (cancelListeners e)) e)).
Definition removeEventListener_click (dialog : Dialog) (h : ObjectId) : JS unit :=
  modify (update_element dialog
            (fun e => set_clickListeners (remove_listener h (clickListeners e)) e)).
Definition removeEventListener_cancel (dialog : Dialog) (h : ObjectId) : JS unit :=
  modify (update_element dialog
            (fun e => set_cancelListeners (remove_listener h (cancelListeners e)) e)).

(** [observer.observe(dialog, {attributes: true, attributeFilter: ["closedby"]})];
    each attribute observer only ever watches the dialog it was made for, so
    [disconnect] is given that dialog. *)
Definition observe_attributes (o : ObjectId) (dialog : Dialog) : JS unit :=
  modify (update_element dialog
            (fun e => set_attrObservers (add_listener o (attrObservers e)) e)).
Definition disconnect (o : ObjectId) (dialog : Dialog) : JS unit :=
  modify (update_element dialog
            (fun e => set_attrObservers (remove_listener o (attrObservers e)) e)).

(** A fresh function object or observer. *)
Definition newObject : JS ObjectId :=
  fun w => Return (nextObject w) (set_nextObject (S (nextObject w)) w).

Definition console_warn (msg : string) : JS unit :=
  modify (fun w => set_console (console w ++ [msg]) w).

(** [detachDialog], index.js lines 61-69. *)
Definition detachDialog (dialog : Dialog) : JS unit :=
  let* state := gets (fun w => dialogStates w !! dialog) in
  match state with
  | None => ret tt
  | Some state =>
      removeEventListener_click dialog (handleClick state) ;;
      removeEventListener_cancel dialog (handleCancel state) ;;
      disconnect (attrObserver state) dialog ;;
      modify (fun w => set_activeDialogs (Set_delete dialog (activeDialogs w)) w) ;;
      modify (fun w => set_dialogStates (delete dialog (dialogStates w)) w)
  end.

(** The host's native [close()]: the HTML Standard's close steps return at
    once on a dialog that is not open and otherwise remove [open]; they do
    not throw. *)
Definition originalClose (this : Dialog) : JS unit :=
  let* isOpen := gets (fun w => open (elements w this)) in
  if negb isOpen then ret tt
  else modify (update_element this (set_open false)).

(** [closePatched], index.js lines 140-143. *)
Definition closePatched (this : Dialog) : JS unit :=
  detachDialog this ;;
  originalClose this.

(** The method call [dialog.close()], resolved on the prototype as it is at
    the time of the call. A host with [showModal] has the native [close]. *)
Definition call_close (dialog : Dialog) : JS unit :=
  let* proto := gets HTMLDialogElement in
  match proto with
  | Some i =>
      if patched i then closePatched dialog
      else if hasShowModal i then originalClose dialog
      else throw (TypeError "dialog.close is not a function")
  | None => throw (TypeError "dialog.close is not a function")
  end.

Record KeyboardEvent := mkKeyboardEvent {
  key : string;
  keyDefaultPrevented : bool
}.

(** [event.preventDefault()] on a cancelable event in a listener that is not
    passive, as [document.addEventListener("keydown", documentEscapeHandler)]
    registers it (index.js line 28). *)
Definition key_preventDefault (event : KeyboardEvent) : KeyboardEvent :=
  mkKeyboardEvent (key event) true.

(** The [for ... of] loop of [documentEscapeHandler] over the reversed
    snapshot; the result is [(shouldPreventDefault, hasClosableDialog)]. *)
Fixpoint escapeLoop (dialogsArray : list Dialog) : JS (bool * bool) :=
  match dialogsArray with
  | [] => ret (false, false)
  | dialog :: rest =>
      let* closedBy := getClosedByValue dialog in
      if String.eqb closedBy "none" then ret (true, false)
      else if String.eqb closedBy "any" || String.eqb closedBy "closerequest" then
        call_close dialog ;;
        ret (false, true)
      else escapeLoop rest
  end.

(** [documentEscapeHandler], index.js lines 8-27. *)
Definition documentEscapeHandler (event : KeyboardEvent) : JS KeyboardEvent :=
  let* size := gets (fun w => length (activeDialogs w)) in
  if negb (String.eqb (key event) "Escape") || Nat.eqb size 0 then ret event
  else
    let* dialogsArray := gets (fun w => rev (activeDialogs w)) in
    let* flags := escapeLoop dialogsArray in
    if fst flags || snd flags then ret (key_preventDefault event)
    else ret event.

Inductive EventTarget :=
| TargetDialog (d : Dialog)
| TargetNode (n : nat).   (* any other node, such as a descendant element *)

Global Instance EventTarget_eq_dec : EqDecision EventTarget.
Proof. solve_decision. Defined.

Record MouseEvent := mkMouseEvent {
  target : EventTarget;
  clientX : Q;
  clientY : Q
}.

(** JavaScript's [<] on finite numbers. *)
Definition Qltb (x y : Q) : bool := negb (Qle_bool y x).

(** [createClickHandler(dialog)] and the [handleClick] it returns, index.js
    lines 29-37. *)
Definition createClickHandler (dialog : Dialog) (event : MouseEvent) : JS unit :=
  if negb (bool_decide (target event = TargetDialog dialog)) then ret tt
  else
    let* closedBy := getClosedByValue dialog in
    if negb (String.eqb closedBy "any") then ret tt
    else
      let* rect := gets (fun w => boundingRect (elements w dialog)) in
      let inside :=
        Qltb (rect_top rect) (clientY event) && Qltb (clientY event) (rect_bottom rect)
        && Qltb (rect_left rect) (clientX event) && Qltb (clientX event) (rect_right rect) in
      if negb inside then call_close dialog else ret tt.

Record CancelEvent := mkCancelEvent { cancelDefaultPrevented : bool }.

(** [createCancelHandler(dialog)] and its [handleCancel], index.js lines 38-42. *)
Definition createCancelHandler (dialog : Dialog) (event : CancelEvent) : JS CancelEvent :=
  let* closedBy := getClosedByValue dialog in
  if String.eqb closedBy "none" then ret (mkCancelEvent true) else ret event.

(** [attachDialog], index.js lines 43-60. *)
Definition attachDialog (dialog : Dialog) : JS unit :=
  let* has := gets (fun w => bool_decide (is_Some (dialogStates w !! dialog))) in
  if has then ret tt
  else
    let* click := newObject in
    let* cancel := newObject in
    let* observer := newObject in
    let state := mkListeners click cancel observer in
    addEventListener_click dialog (handleClick state) ;;
    addEventListener_cancel dialog (handleCancel state) ;;
    observe_attributes (attrObserver state) dialog ;;
    modify (fun w => set_activeDialogs (Set_add dialog (activeDialogs w)) w) ;;
    modify (fun w => set_dialogStates (<[dialog := state]> (dialogStates w)) w).

(** ** src/observer.ts *)

(** The dialogs of a subtree in document order, the node itself included. *)
Fixpoint dialogsIn (n : Node) : list Dialog :=
  match n with
  | DialogNode d children => d :: flat_map dialogsIn children
  | ElementNode _ children => flat_map dialogsIn children
  | TextNode => []
  end.

Definition childNodes (n : Node) : list Node :=
  match n with
  | DialogNode _ children | ElementNode _ children => children
  | TextNode => []
  end.

(** [node.querySelectorAll("dialog")]: the proper descendants. *)
Definition node_querySelectorAll_dialog (n : Node) : list Dialog :=
  flat_map dialogsIn (childNodes n).

(** The dialogs of the whole document in tree order: those before the body,
    those under it, those after it. *)
Definition documentDialogs (w : World) : list Dialog :=
  (flat_map dialogsIn (precedingBody w)
   ++ match documentBody w with
      | Some body => dialogsIn body
      | None => []
      end
   ++ flat_map dialogsIn (followingBody w))%list.

(** [root.querySelectorAll("dialog")]: on the document every dialog of the
    document, under the body or not; on a shadow root the dialogs of its
    tree. *)
Definition root_querySelectorAll_dialog (root : Root) : JS (list Dialog) :=
  gets (fun w => match root with
                 | DocumentRoot => documentDialogs w
                 | ShadowRoot s => flat_map dialogsIn (shadowTrees w s)
                 end).

(** The selector [dialog[closedby]] keeps the dialogs that carry the attribute. *)
Definition with_closedby (ds : list Dialog) : JS (list Dialog) :=
  gets (fun w => filter (λ d, is_Some (closedby (elements w d))) ds).

Definition hasAttribute_closedby (dialog : Dialog) : JS bool :=
  gets (fun w => bool_decide (is_Some (closedby (elements w dialog)))).

Definition get_open (dialog : Dialog) : JS bool :=
  gets (fun w => open (elements w dialog)).

(** [if (d instanceof HTMLDialogElement && d.open) attachDialog(d)] *)
Definition attachIfOpen (d : Dialog) : JS unit :=
  let* isOpen := get_open d in
  if isOpen then attachDialog d else ret tt.

Record MutationRecord := mkMutation {
  addedNodes : list Node;
  removedNodes : list Node
}.

(** The callback of [rootObserver], index.js lines 76-94. *)
Definition rootObserverCallback (mutations : list MutationRecord) : JS unit :=
  forEach mutations (fun m =>
    forEach (addedNodes m) (fun node =>
      match node with
      | DialogNode d _ =>
          let* isOpen := get_open d in
          let* has := hasAttribute_closedby d in
          if isOpen && has then attachDialog d else ret tt
      | _ => ret tt
      end ;;
      match node with
      | TextNode => ret tt
      | _ =>
          let* ds := with_closedby (node_querySelectorAll_dialog node) in
          forEach ds attachIfOpen
      end) ;;
    forEach (removedNodes m) (fun node =>
      match node with
      | DialogNode d _ => detachDialog d
      | _ => ret tt
      end ;;
      match node with
      | TextNode => ret tt
      | _ => forEach (node_querySelectorAll_dialog node) detachDialog
      end)).

(** [observeRoot], index.js lines 72-97. [rootObserver.observe(null, ...)]
    throws a TypeError. *)
Definition observeRoot (root : Root) : JS unit :=
  let* all := root_querySelectorAll_dialog root in
  let* ds := with_closedby all in
  forEach ds attachIfOpen ;;
  let* body := gets documentBody in
  match root, body with
  | DocumentRoot, None =>
      throw (TypeError "MutationObserver.observe: parameter 1 is not of type 'Node'")
  | _, _ => modify (fun w => set_rootObservers (rootObservers w ++ [root]) w)
  end.

(** [findShadowRoots], index.js lines 98-104; [el.children] holds elements only. *)
Fixpoint findShadowRoots (el : Node) : list nat :=
  match el with
  | DialogNode _ children => flat_map findShadowRoots children
  | ElementNode shadowRoot children =>
      match shadowRoot with Some s => [s] | None => [] end
      ++ flat_map findShadowRoots children
  | TextNode => []
  end.

(** [attachShadowPatched], index.js lines 109-113, once the native
    [attachShadow] has returned the shadow root [shadowRoot]. *)
Definition attachShadowPatched (shadowRoot : nat) : JS nat :=
  observeRoot (ShadowRoot shadowRoot) ;;
  ret shadowRoot.

(** [setupObservers], index.js lines 105-114. *)
Definition setupObservers : JS unit :=
  observeRoot DocumentRoot ;;
  let* body := gets documentBody in
  match body with
  | Some b => forEach (findShadowRoots b) (fun s => observeRoot (ShadowRoot s))
  | None => ret tt
  end ;;
  modify (set_attachShadowIsPatched true).

(** ** src/index.ts *)

(** [isSupported], index.js lines 118-120. *)
Definition isSupported : JS bool :=
  gets (fun w => match HTMLDialogElement w with
                 | None => false            (* typeof HTMLDialogElement === "undefined" *)
                 | Some i =>
                     match prototypeKind i with
                     | ProtoObject => hasClosedBy i
                     | _ => false
                     end
                 end).

(** [isPolyfilled], index.js lines 121-123. *)
Definition isPolyfilled : JS bool := gets polyfilled.

(** The expression ["showModal" in HTMLDialogElement.prototype]: reading a
    global that is not defined throws a ReferenceError, [in] on a value that
    is not an object throws a TypeError. *)
Definition showModal_in_prototype : JS bool :=
  let* global := gets HTMLDialogElement in
  match global with
  | None => throw (ReferenceError "HTMLDialogElement is not defined")
  | Some i =>
      match prototypeKind i with
      | ProtoPrimitive => throw (TypeError "cannot use 'in' operator")
      | _ => ret (hasShowModal i)
      end
  end.

(** [originalShowModal.call(this)] *)
Definition call_originalShowModal (this : Dialog) : JS unit :=
  fun w =>
    let r := originalShowModal w this (elements w) in
    match fst r with
    | None => Return tt (set_elements (snd r) w)
    | Some e => Throw e (set_elements (snd r) w)
    end.

(** [showModalPatched], index.js lines 135-139. *)
Definition showModalPatched (this : Dialog) : JS unit :=
  call_originalShowModal this ;;
  let* isOpen := get_open this in
  if negb isOpen then ret tt
  else
    let* has := hasAttribute_closedby this in
    if has then attachDialog this else ret tt.

(** The getter of [closedBy], index.js lines 145-148. *)
Definition closedBy_get (this : Dialog) : JS string :=
  let* v := getAttribute_closedby this in
  ret (match v with
       | Some s => if String.eqb s "closerequest" || String.eqb s "none"
                   then s else "any"
       | None => "any"
       end).

(** A value written to the property: a string; any other value that can be
    converted to a string, given by the text the conversion yields; or a
    value whose conversion to a string throws (a symbol, an object whose
    [toString] throws), given by the error thrown. *)
Inductive JSValue :=
| JSString (s : string)
| JSOther (text : string)
| JSUnprintable (error : JSError).

(** The conversion of a value to a string, as a template literal and
    [setAttribute] apply it to what they are given. *)
Definition toString (value : JSValue) : JS string :=
  match value with
  | JSString s | JSOther s => ret s
  | JSUnprintable e => throw e
  end.

Global Instance JSValue_eq_dec : EqDecision JSValue.
Proof. solve_decision. Defined.

(** [value === "any" || value === "closerequest" || value === "none"] *)
Definition isRecognized (value : JSValue) : bool :=
  match value with
  | JSString s => String.eqb s "any" || String.eqb s "closerequest" || String.eqb s "none"
  | _ => false
  end.

(** [this.setAttribute("closedby", value)] *)
Definition setAttribute_closedby (this : Dialog) (value : JSValue) : JS unit :=
  let* s := toString value in
  modify (update_element this (set_closedby (Some s))).

(** The setter of [closedBy], index.js lines 149-165. The template literal
    of the warning converts the value before [console.warn] is called. *)
Definition closedBy_set (this : Dialog) (value : JSValue) : JS unit :=
  (if isRecognized value then setAttribute_closedby this value
   else
     let* text := toString value in
     console_warn ("[closedBy polyfill] Invalid value '" +:+ text
                   +:+ "'. Falling back to 'any'.") ;;
     setAttribute_closedby this (JSString "any")) ;;
  let* isOpen := get_open this in
  if isOpen then
    let* has := hasAttribute_closedby this in
    if has then attachDialog this else detachDialog this
  else ret tt.

(** The prototype after the three assignments of [apply]. *)
Definition patchPrototype (i : DialogInterface) : DialogInterface :=
  mkInterface (prototypeKind i) true true true.

(** [apply], index.js lines 124-171. *)
Definition apply : JS unit :=
  let* done := gets polyfilled in
  let* gate := (if done then ret true else isSupported) in
  if gate then ret tt
  else
    let* has := showModal_in_prototype in
    if negb has then
      console_warn "[closedBy polyfill] <dialog> API not found – polyfill skipped."
    else
      modify (fun w => set_HTMLDialogElement
                         (patchPrototype <$> HTMLDialogElement w) w) ;;
      setupObservers ;;
      modify (set_polyfilled true).

(** The module body of index.ts, index.js line 172. *)
Definition moduleInit : JS unit :=
  let* supported := isSupported in
  if negb supported then apply else ret tt.

(** The method call [dialog.showModal()], resolved on the prototype as it is
    at the time of the call. *)
Definition call_showModal (dialog : Dialog) : JS unit :=
  let* proto := gets HTMLDialogElement in
  match proto with
  | Some i =>
      if patched i then showModalPatched dialog
      else if hasShowModal i then call_originalShowModal dialog
      else throw (TypeError "dialog.showModal is not a function")
  | None => throw (TypeError "dialog.showModal is not a function")
  end.

(** ** Runs of the page *)

(** What can happen on a page that loaded the module: calls of the
    functions above, events delivered to their handlers, and changes the
    page itself makes to its elements and trees. *)
Inductive Op :=
| OpAttach (d : Dialog)
| OpDetach (d : Dialog)
| OpShowModal (d : Dialog)
| OpClose (d : Dialog)
| OpSetClosedBy (d : Dialog) (value : JSValue)
| OpKeydown (event : KeyboardEvent)
| OpClick (d : Dialog) (event : MouseEvent)
| OpCancel (d : Dialog) (event : CancelEvent)
| OpMutations (mutations : list MutationRecord)
| OpAttachShadow (shadowRoot : nat)
| OpApply
| OpPage (els : Dialog -> Element) (body : option Node) (preceding following : list Node)
         (shadows : nat -> list Node).

Definition page_change (els : Dialog -> Element) (body : option Node)
    (preceding following : list Node) (shadows : nat -> list Node) (w : World) : World :=
  mkWorld els (HTMLDialogElement w) (originalShowModal w) body
          preceding following shadows (console w) (nextObject w) (dialogStates w)
          (activeDialogs w) (rootObservers w) (attachShadowIsPatched w) (polyfilled w).

Definition runOp (op : Op) : JS unit :=
  match op with
  | OpAttach d => attachDialog d
  | OpDetach d => detachDialog d
  | OpShowModal d => call_showModal d
  | OpClose d => call_close d
  | OpSetClosedBy d value => closedBy_set d value
  | OpKeydown event => documentEscapeHandler event ;; ret tt
  | OpClick d event => createClickHandler d event
  | OpCancel d event => createCancelHandler d event ;; ret tt
  | OpMutations mutations => rootObserverCallback mutations
  | OpAttachShadow s => attachShadowPatched s ;; ret tt
  | OpApply => apply
  | OpPage els body preceding following shadows =>
      modify (page_change els body preceding following shadows)
  end.

(** The world a computation leaves, whether it returned or threw. *)
Definition world_after {A} (o : Outcome A) : World :=
  match o with Return _ w | Throw _ w => w end.

Definition step (w : World) (op : Op) : World := world_after (runOp op w).

Definition run (ops : list Op) (w : World) : World := fold_left step ops w.

(** [n] calls of [attachDialog] in a row. *)
Fixpoint attachTimes (n : nat) (dialog : Dialog) : JS unit :=
  match n with
  | O => ret tt
  | S n' => attachDialog dialog ;; attachTimes n' dialog
  end.

(** ** Vocabulary of the specification *)

(** The three dismissal policies. *)
Inductive DismissalPolicy := PolicyAny | PolicyRequestOnly | PolicyNone.

(** The literal that stands for a policy. *)
Definition literal (p : DismissalPolicy) : string :=
  match p with
  | PolicyAny => "any"
  | PolicyRequestOnly => "closerequest"
  | PolicyNone => "none"
  end.

(** The specification's policy resolver, in its words: "closerequest" is
    [RequestOnly], "none" is [None], anything else (absent, empty,
    unrecognized) is [Any]. *)
Definition resolvePolicy (configuration : option string) : DismissalPolicy :=
  if decide (configuration = Some "closerequest") then PolicyRequestOnly
  else if decide (configuration = Some "none") then PolicyNone
  else PolicyAny.

(** The policy of a dialog in a world. *)
Definition policyOf (w : World) (d : Dialog) : DismissalPolicy :=
  resolvePolicy (closedby (elements w d)).

(** A point lies strictly outside a box: beyond one of its four edges. *)
Definition strictlyOutside (r : DOMRect) (x y : Q) : Prop :=
  (y < rect_top r \/ rect_bottom r < y \/ x < rect_left r \/ rect_right r < x)%Q.

(** A point lies strictly inside a box: within all four edges, on none. *)
Definition strictlyInside (r : DOMRect) (x y : Q) : Prop :=
  (rect_top r < y /\ y < rect_bottom r /\ rect_left r < x /\ x < rect_right r)%Q.

(** A computation closes a dialog: it was open before and is not after. *)
Definition closes {A} (m : JS A) (w : World) (d : Dialog) : Prop :=
  open (elements w d) = true /\ open (elements (world_after (m w)) d) = false.

(** The polyfill has replaced the prototype's [showModal] and [close]. *)
Definition installed (w : World) : Prop :=
  exists i, HTMLDialogElement w = Some i /\ patched i = true.

(** A dialog is tracked: it has a record. *)
Definition tracked (w : World) (d : Dialog) : Prop :=
  is_Some (dialogStates w !! d).

(** The invariant of the Escape stack: no dialog twice, and exactly the
    dialogs that have a record. *)
Definition stackInvariant (w : World) : Prop :=
  NoDup (activeDialogs w) /\
  forall d, d ∈ activeDialogs w <-> tracked w d.

(** The value can be converted to a string. *)
Definition convertible (value : JSValue) : Prop :=
  forall e, value <> JSUnprintable e.

(** The value is one of the three recognized literals. *)
Definition recognizedLiteral (value : JSValue) : Prop :=
  value = JSString "any" \/ value = JSString "closerequest" \/ value = JSString "none".

(** What a write is to leave in the attribute: the literals "closerequest"
    and "none" as they are, "any" for "any" and for every other value. *)
Definition stored (value : JSValue) : string :=
  if decide (value = JSString "closerequest") then "closerequest"
  else if decide (value = JSString "none") then "none"
  else "any".

(** What a write is to leave in the attribute where an unrecognized value
    clears it: one of the three literals as it is, nothing otherwise. *)
Definition kept (value : JSValue) : option string :=
  if decide (value = JSString "any") then Some "any"
  else if decide (value = JSString "closerequest") then Some "closerequest"
  else if decide (value = JSString "none") then Some "none"
  else None.

(** The policy a write is to leave the dialog with. *)
Definition policyWritten (value : JSValue) : DismissalPolicy :=
  if decide (value = JSString "closerequest") then PolicyRequestOnly
  else if decide (value = JSString "none") then PolicyNone
  else PolicyAny.

(** Two worlds agree on what every dialog shows: whether it is open, its
    configuration and its box. *)
Definition sameAttributes (w w' : World) : Prop :=
  forall d, open (elements w' d) = open (elements w d) /\
            closedby (elements w' d) = closedby (elements w d) /\
            boundingRect (elements w' d) = boundingRect (elements w d).

(** Two worlds agree on every element but the one of [d]. *)
Definition sameElementsBut (d : Dialog) (w w' : World) : Prop :=
  forall d', d' <> d -> elements w' d' = elements w d'.

(** Two worlds agree on the host's globals and trees. *)
Definition sameGlobals (w w' : World) : Prop :=
  HTMLDialogElement w' = HTMLDialogElement w /\
  originalShowModal w' = originalShowModal w /\
  documentBody w' = documentBody w /\
  precedingBody w' = precedingBody w /\
  followingBody w' = followingBody w /\
  shadowTrees w' = shadowTrees w /\
  polyfilled w' = polyfilled w.

(** A computation keeps a property of the world, whether it returns or
    throws. *)
Definition preserves {A} (P : World -> Prop) (m : JS A) : Prop :=
  forall w, P w -> P (world_after (m w)).

(** A computation that always returns and keeps the host's globals. *)
Definition steady {A} (m : JS A) : Prop :=
  forall w, exists a w', m w = Return a w' /\ sameGlobals w w'.

(** What can happen in a world: the page cannot call [attachDialog] and
    [detachDialog], which the package does not export; the [closedBy] setter,
    the callback of a root observer and the patched [attachShadow] exist only
    once [apply] has put them in place. *)
Definition enabled (w : World) (op : Op) : Prop :=
  match op with
  | OpAttach _ | OpDetach _ => False
  | OpSetClosedBy _ _ => installed w
  | OpMutations _ => rootObservers w <> []
  | OpAttachShadow _ => attachShadowIsPatched w = true
  | _ => True
  end.

(** The worlds a page can reach from [w0]. *)
Inductive reachable (w0 : World) : World -> Prop :=
| reachable_start : reachable w0 w0
| reachable_step w op :
    reachable w0 w -> enabled w op -> reachable w0 (step w op).

(** Nothing is tracked or observed yet. *)
Definition quiet (w : World) : Prop :=
  dialogStates w = ∅ /\ activeDialogs w = [] /\
  rootObservers w = [] /\ attachShadowIsPatched w = false.

Definition installedb (w : World) : bool :=
  match HTMLDialogElement w with
  | Some i => patched i
  | None => false
  end.

(** ** Sample pages *)

Definition unitBox : DOMRect := mkRect 0 10 0 10.

Definition plainDialog (isOpen : bool) (configuration : option string) : Element :=
  mkElement isOpen configuration unitBox [] [] [].

(** A native [showModal] that opens the dialog. *)
Definition nativeOpens : NativeShowModal :=
  fun d els => (None, fun d' => if decide (d' = d) then set_open true (els d') else els d').

(** A native [showModal] that returns without opening (the page cancelled
    the opening). *)
Definition nativeDeclines : NativeShowModal := fun d els => (None, els).

(** A native [showModal] that throws (the dialog is not connected). *)
Definition nativeThrows : NativeShowModal :=
  fun d els => (Some (DOMException "InvalidStateError"), els).

Definition nativeInterface : DialogInterface := mkInterface ProtoObject true false false.

(** A page before the module is loaded. *)
Definition page (els : Dialog -> Element) (global : option DialogInterface)
    (native : NativeShowModal) (body : option Node) : World :=
  mkWorld els global native body [] [] (fun _ => []) [] 0 ∅ [] [] false false.

(** Every dialog open with [closedby="any"], nothing in the tree. *)
Definition openPage : World :=
  page (fun _ => plainDialog true (Some "any")) (Some nativeInterface)
       nativeOpens (Some (ElementNode None [])).

(** [openPage] once [apply] has run. *)
Definition appliedPage : World := world_after (apply openPage).

(** A host without any [<dialog>] support: the global is not defined. *)
Definition legacyPage : World :=
  page (fun _ => plainDialog false None) None nativeThrows (Some (ElementNode None [])).

(** A page whose dialogs are closed and whose native [showModal] declines,
    once [apply] has run. *)
Definition decliningPage : World :=
  world_after
    (apply (page (fun _ => plainDialog false (Some "any")) (Some nativeInterface)
              nativeDeclines (Some (ElementNode None [])))).

Definition escapeKey : KeyboardEvent := mkKeyboardEvent "Escape" false.

(** [appliedPage] after [dialog.showModal()] on dialog 1. *)
Definition modalPage : World := run [OpShowModal 1%positive] appliedPage.



(** The error of converting a symbol to a string. *)
Definition symbolError : JSError :=
  TypeError "Cannot convert a Symbol value to a string".

(** [Symbol()] *)
Definition symbolValue : JSValue := JSUnprintable symbolError.

(** Every dialog open and without the attribute, once [apply] has run. *)
Definition barePage : World :=
  world_after
    (apply (page (fun _ => plainDialog true None) (Some nativeInterface)
              nativeOpens (Some (ElementNode None [])))).

(** A click on the dialog itself, on the top edge of its box. *)
Definition edgeClick : MouseEvent := mkMouseEvent (TargetDialog 1%positive) 5 0.

(** A click on the dialog itself, outside its box. *)
Definition backdropClick : MouseEvent := mkMouseEvent (TargetDialog 1%positive) 5 20.

(** A page with dialog 1 under the body, dialog 2 in the shadow tree of an
    element under the body and dialog 3 in the document after the body, all
    open with [closedby="any"], before the module is loaded. *)
Definition treePage : World :=
  mkWorld (fun _ => plainDialog true (Some "any")) (Some nativeInterface) nativeOpens
          (Some (ElementNode None [DialogNode 1%positive []; ElementNode (Some 0) []]))
          [] [DialogNode 3%positive []]
          (fun s => match s with 0 => [DialogNode 2%positive []] | _ => [] end)
          [] 0 ∅ [] [] false false.

(** A page whose script runs before the document has a body; dialog 1 was
    appended to the document element. *)
Definition bodylessPage : World :=
  mkWorld (fun _ => plainDialog true (Some "any")) (Some nativeInterface) nativeOpens
          None [DialogNode 1%positive []] [] (fun _ => []) [] 0 ∅ [] [] false false.

(** Dialog 1 was taken out of the tree. *)
Definition removalRecord : MutationRecord := mkMutation [] [DialogNode 1%positive []].

(** ** Vocabulary for the tree observers and the lifecycle *)

(** A dialog is open and carries the [closedby] attribute. *)
Definition openConfigured (w : World) (d : Dialog) : Prop :=
  open (elements w d) = true /\ is_Some (closedby (elements w d)).

(** Two worlds agree on the standing watches and on the console. *)
Definition sameObservers (w w' : World) : Prop :=
  rootObservers w' = rootObservers w /\
  attachShadowIsPatched w' = attachShadowIsPatched w /\
  console w' = console w.

(** What attaching and detaching leave alone. *)
Definition frame (w w' : World) : Prop :=
  sameAttributes w w' /\ sameGlobals w w' /\ sameObservers w w'.

(** From [w] to [w'] exactly the open and configured dialogs of [S] became
    tracked. *)
Definition adds (S : list Dialog) (w w' : World) : Prop :=
  (forall d, tracked w' d <-> tracked w d \/ (d ∈ S /\ openConfigured w d)) /\
  frame w w'.

(** From [w] to [w'] exactly the dialogs of [S] lost their record. *)
Definition drops (S : list Dialog) (w w' : World) : Prop :=
  (forall d, tracked w' d <-> (d ∉ S) /\ tracked w d) /\
  frame w w'.

(** The dialogs [root.querySelectorAll("dialog")] finds in a world. *)
Definition rootDialogs (w : World) (root : Root) : list Dialog :=
  match root with
  | DocumentRoot => documentDialogs w
  | ShadowRoot s => flat_map dialogsIn (shadowTrees w s)
  end.

(** The dialogs in the subtrees a mutation record added and removed. *)
Definition addedDialogs (m : MutationRecord) : list Dialog :=
  flat_map dialogsIn (addedNodes m).
Definition removedDialogs (m : MutationRecord) : list Dialog :=
  flat_map dialogsIn (removedNodes m).

(** Which dialogs have a record after a mutation record was processed, from
    which had one before ([T]): within one record the removed subtrees are
    handled last. *)
Definition afterRecord (w : World) (m : MutationRecord) (T : Dialog -> Prop)
    (d : Dialog) : Prop :=
  (d ∉ removedDialogs m) /\
  (T d \/ (d ∈ addedDialogs m /\ openConfigured w d)).

(** The same after a batch of records, first to last. *)
Definition afterBatch (w : World) (ms : list MutationRecord) (T : Dialog -> Prop)
    : Dialog -> Prop :=
  fold_left (fun T m => afterRecord w m T) ms T.

(** The dialogs [setupObservers] looks at: those of the document and those
    of every shadow root that [findShadowRoots] finds below the body. *)
Definition observedDialogs (w : World) (body : Node) : list Dialog :=
  (rootDialogs w DocumentRoot
   ++ flat_map (fun s => rootDialogs w (ShadowRoot s)) (findShadowRoots body))%list.

(** The world right after the setter of [closedBy] has written the
    attribute, for a value that converts to [text]: the warning, unless the
    value is one of the three literals, and the write. *)
Definition afterWrite (d : Dialog) (value : JSValue) (text : string) (w : World)
    : World :=
  update_element d (set_closedby (Some (stored value)))
    (if decide (recognizedLiteral value) then w
     else set_console
            (console w ++ ["[closedBy polyfill] Invalid value '" +:+ text
                           +:+ "'. Falling back to 'any'."])%list w).

(** Every listener and observer registered on an element was allocated
    before: its identity is below the allocator's next one. *)
Definition idsBelow (w : World) : Prop :=
  forall d h,
    h ∈ clickListeners (elements w d) \/ h ∈ cancelListeners (elements w d) \/
    h ∈ attrObservers (elements w d) ->
    h < nextObject w.

(** ** The single-file build: closedby.js *)

(** The second build that [index.js] carries (lines 199-429, the compiled
    form of the single-file [closedby.ts]): every tracked dialog has its own
    Escape handler on the document, [setupEventListeners] replaces what
    [removeEventListeners] takes away, and the setter of [closedBy] removes
    the attribute when the value is not recognized. Its state is separate
    from the one of the bundle, so it is threaded explicitly as a [Page]. *)
Module Closedby.

(** The record [dialogStates] keeps per dialog. *)
Record DialogListeners := mkListeners {
  handleEscape : ObjectId;
  handleClick : ObjectId;
  handleCancel : ObjectId
}.

Record Page := mkPage {
  pageElements : Dialog -> Element;
  (* the keydown listeners this build registered on the document, oldest
     first, each with the dialog its closure holds *)
  keydownListeners : list (ObjectId * Dialog);
  records : gmap Dialog DialogListeners;     (* the WeakMap [dialogStates] *)
  nextId : ObjectId;
  nativeShowModal : NativeShowModal
}.

Definition set_pageElements (f : Dialog -> Element) (p : Page) : Page :=
  mkPage f (keydownListeners p) (records p) (nextId p) (nativeShowModal p).
Definition set_keydownListeners (l : list (ObjectId * Dialog)) (p : Page) : Page :=
  mkPage (pageElements p) l (records p) (nextId p) (nativeShowModal p).
Definition set_records (m : gmap Dialog DialogListeners) (p : Page) : Page :=
  mkPage (pageElements p) (keydownListeners p) m (nextId p) (nativeShowModal p).
Definition set_nextId (n : ObjectId) (p : Page) : Page :=
  mkPage (pageElements p) (keydownListeners p) (records p) n (nativeShowModal p).

Definition update_pageElement (d : Dialog) (f : Element -> Element) (p : Page) : Page :=
  set_pageElements
    (fun d' => if decide (d' = d) then f (pageElements p d') else pageElements p d') p.

(** [getClosedByValue], index.js lines 212-215. *)
Definition getClosedByValue (dialog : Dialog) (p : Page) : string :=
  match closedby (pageElements p dialog) with
  | Some s => if String.eqb s "closerequest" || String.eqb s "none" then s else "any"
  | None => "any"
  end.

(** [createEscapeHandler(dialog)] and its [handleEscape], lines 217-224. *)
Definition createEscapeHandler (dialog : Dialog) (event : KeyboardEvent) (p : Page)
    : KeyboardEvent :=
  if negb (String.eqb (key event) "Escape") then event
  else if String.eqb (getClosedByValue dialog p) "none" then key_preventDefault event
  else event.

(** [removeEventListeners], lines 262-273. *)
Definition removeEventListeners (dialog : Dialog) (p : Page) : Page :=
  match records p !! dialog with
  | None => p
  | Some state =>
      let p1 := set_keydownListeners
                  (filter (λ l, l.1 ≠ handleEscape state) (keydownListeners p)) p in
      let p2 := update_pageElement dialog
                  (fun e => set_clickListeners
                              (remove_listener (handleClick state) (clickListeners e)) e)
                  p1 in
      let p3 := update_pageElement dialog
                  (fun e => set_cancelListeners
                              (remove_listener (handleCancel state) (cancelListeners e)) e)
                  p2 in
      set_records (delete dialog (records p3)) p3
  end.

(** The host's native [close()], as for the bundle. *)
Definition originalClose (this : Dialog) (p : Page) : Page :=
  if negb (open (pageElements p this)) then p
  else update_pageElement this (set_open false) p.

(** The patched [close], lines 288-291. *)
Definition close (this : Dialog) (p : Page) : Page :=
  originalClose this (removeEventListeners this p).

(** JavaScript's [<=] on finite numbers. *)
Definition Qleb (x y : Q) : bool := Qle_bool x y.

(** [createClickHandler(dialog)] and its [handleClick], lines 226-240. *)
Definition createClickHandler (dialog : Dialog) (event : MouseEvent) (p : Page) : Page :=
  if negb (bool_decide (target event = TargetDialog dialog)) then p
  else if negb (String.eqb (getClosedByValue dialog p) "any") then p
  else
    let rect := boundingRect (pageElements p dialog) in
    let clickedInside :=
      Qleb (rect_top rect) (clientY event) && Qleb (clientY event) (rect_bottom rect)
      && Qleb (rect_left rect) (clientX event) && Qleb (clientX event) (rect_right rect) in
    if negb clickedInside then close dialog p else p.

(** [createCancelHandler(dialog)] and its [handleCancel], lines 242-247. *)
Definition createCancelHandler (dialog : Dialog) (event : CancelEvent) (p : Page)
    : CancelEvent :=
  if String.eqb (getClosedByValue dialog p) "none" then mkCancelEvent true else event.

(** [setupEventListeners], lines 249-260. *)
Definition setupEventListeners (dialog : Dialog) (p : Page) : Page :=
  let p0 := removeEventListeners dialog p in
  let state := mkListeners (nextId p0) (S (nextId p0)) (S (S (nextId p0))) in
  let p1 := set_nextId (S (S (S (nextId p0)))) p0 in
  let p2 := set_keydownListeners
              (keydownListeners p1 ++ [(handleEscape state, dialog)]) p1 in
  let p3 := update_pageElement dialog
              (fun e => set_clickListeners
                          (add_listener (handleClick state) (clickListeners e)) e) p2 in
  let p4 := update_pageElement dialog
              (fun e => set_cancelListeners
                          (add_listener (handleCancel state) (cancelListeners e)) e) p3 in
  set_records (<[dialog := state]> (records p4)) p4.

(** The patched [showModal], lines 277-287: the error the native call threw,
    if any, and the page it left. *)
Definition showModal (this : Dialog) (p : Page) : option JSError * Page :=
  let r := nativeShowModal p this (pageElements p) in
  let p1 := set_pageElements (snd r) p in
  match fst r with
  | Some e => (Some e, p1)
  | None =>
      if negb (open (pageElements p1 this)) then (None, p1)
      else if bool_decide (is_Some (closedby (pageElements p1 this)))
           then (None, setupEventListeners this p1)
           else (None, p1)
  end.

(** The setter of [closedBy], lines 299-313. The strict equalities hold of
    the three strings only, and nothing else converts the value, so this
    setter never throws. *)
Definition closedBy_set (this : Dialog) (value : JSValue) (p : Page) : Page :=
  let p1 :=
    match value with
    | JSString s =>
        if isRecognized value
        then update_pageElement this (set_closedby (Some s)) p
        else update_pageElement this (set_closedby None) p
    | _ => update_pageElement this (set_closedby None) p
    end in
  if open (pageElements p1 this) then setupEventListeners this p1
  else removeEventListeners this p1.

(** The callback of [attrObserver], lines 321-334, for a batch of changes
    of [closedby], each given by the dialog it happened on. *)
Definition attrObserverCallback (mutations : list Dialog) (p : Page) : Page :=
  fold_left
    (fun p dialog =>
       if open (pageElements p dialog)
          && bool_decide (is_Some (closedby (pageElements p dialog)))
       then setupEventListeners dialog p
       else removeEventListeners dialog p)
    mutations p.

(** A keydown event on the document: every registered [handleEscape] is
    called, in the order of registration. *)
Definition dispatchKeydown (event : KeyboardEvent) (p : Page) : KeyboardEvent :=
  fold_left (fun ev l => createEscapeHandler l.2 ev p) (keydownListeners p) event.

(** What can happen on a page of this build. *)
Inductive Op :=
| OpShowModal (d : Dialog)
| OpClose (d : Dialog)
| OpSetClosedBy (d : Dialog) (value : JSValue)
| OpAttributeChanges (ds : list Dialog)
| OpClick (d : Dialog) (event : MouseEvent)
| OpRemoved (ds : list Dialog)
| OpPage (els : Dialog -> Element).

Definition step (p : Page) (op : Op) : Page :=
  match op with
  | OpShowModal d => snd (showModal d p)
  | OpClose d => close d p
  | OpSetClosedBy d value => closedBy_set d value p
  | OpAttributeChanges ds => attrObserverCallback ds p
  | OpClick d event => createClickHandler d event p
  | OpRemoved ds => fold_left (fun p d => removeEventListeners d p) ds p
  | OpPage els => set_pageElements els p
  end.

Definition run (ops : list Op) (p : Page) : Page := fold_left step ops p.

(** A page on which [apply] has just run. *)
Definition start (els : Dialog -> Element) (native : NativeShowModal) : Page :=
  mkPage els [] ∅ 0 native.

(** The document's Escape handlers mirror the records: each record's
    handler is registered once, for its dialog, and nothing else is; every
    identity in use was allocated before. *)
Definition synced (p : Page) : Prop :=
  NoDup (keydownListeners p).*1 /\
  (forall h d, (h, d) ∈ keydownListeners p <->
               exists st, records p !! d = Some st /\ handleEscape st = h) /\
  (forall h d, (h, d) ∈ keydownListeners p -> h < nextId p).

End Closedby.

(** ** The listeners with light dismiss: listeners.ts *)

(** The latest [listeners.ts] the repository carries (part_000, lines
    1153-1349) adds to every record a click handler on the document, in the
    capture phase, that closes the dialog on a click outside its box
    wherever the click lands. Handlers are made by [attachDialog] only, and
    that is only reached once [apply] has patched the prototype, so
    [dialog.close()] is the patched [close]. The state is threaded as a
    [Page]. *)
Module LightDismiss.

(** The record [dialogStates] keeps per dialog; its [handleEscape] is always
    the one [documentEscapeHandler] and is never used to register anything. *)
Record DialogListeners := mkListeners {
  handleClick : ObjectId;
  handleDocClick : ObjectId;
  handleCancel : ObjectId;
  attrObserver : ObjectId
}.

Record Page := mkPage {
  pageElements : Dialog -> Element;
  (* the capture listeners for "click" on the document, oldest first, each
     a [handleDocumentClick] with the dialog its closure holds *)
  documentClickListeners : list (ObjectId * Dialog);
  dialogStates : gmap Dialog DialogListeners;    (* the WeakMap *)
  activeDialogs : list Dialog;                   (* the Set, in insertion order *)
  nextId : ObjectId
}.

Definition set_pageElements (f : Dialog -> Element) (p : Page) : Page :=
  mkPage f (documentClickListeners p) (dialogStates p) (activeDialogs p) (nextId p).
Definition set_documentClickListeners (l : list (ObjectId * Dialog)) (p : Page) : Page :=
  mkPage (pageElements p) l (dialogStates p) (activeDialogs p) (nextId p).
Definition set_dialogStates (m : gmap Dialog DialogListeners) (p : Page) : Page :=
  mkPage (pageElements p) (documentClickListeners p) m (activeDialogs p) (nextId p).
Definition set_activeDialogs (l : list Dialog) (p : Page) : Page :=
  mkPage (pageElements p) (documentClickListeners p) (dialogStates p) l (nextId p).
Definition set_nextId (n : ObjectId) (p : Page) : Page :=
  mkPage (pageElements p) (documentClickListeners p) (dialogStates p) (activeDialogs p) n.

Definition update_pageElement (d : Dialog) (f : Element -> Element) (p : Page) : Page :=
  set_pageElements
    (fun d' => if decide (d' = d) then f (pageElements p d') else pageElements p d') p.

(** [getClosedByValue], lines 1168-1171. *)
Definition getClosedByValue (dialog : Dialog) (p : Page) : string :=
  match closedby (pageElements p dialog) with
  | Some s => if String.eqb s "closerequest" || String.eqb s "none" then s else "any"
  | None => "any"
  end.

(** [isTopMost], lines 1178-1181: [stack[stack.length - 1]] is [undefined]
    on an empty stack. *)
Definition isTopMost (dialog : Dialog) (p : Page) : bool :=
  bool_decide (last (activeDialogs p) = Some dialog).

(** [detachDialog], lines 1338-1349. *)
Definition detachDialog (dialog : Dialog) (p : Page) : Page :=
  match dialogStates p !! dialog with
  | None => p
  | Some state =>
      let p1 := update_pageElement dialog
                  (fun e => set_clickListeners
                              (remove_listener (handleClick state) (clickListeners e)) e)
                  p in
      let p2 := update_pageElement dialog
                  (fun e => set_cancelListeners
                              (remove_listener (handleCancel state) (cancelListeners e)) e)
                  p1 in
      let p3 := set_documentClickListeners
                  (filter (λ l, l.1 ≠ handleDocClick state) (documentClickListeners p2))
                  p2 in
      let p4 := update_pageElement dialog
                  (fun e => set_attrObservers
                              (remove_listener (attrObserver state) (attrObservers e)) e)
                  p3 in
      let p5 := set_activeDialogs (Set_delete dialog (activeDialogs p4)) p4 in
      set_dialogStates (delete dialog (dialogStates p5)) p5
  end.

(** The host's native [close()], as for the bundle. *)
Definition originalClose (this : Dialog) (p : Page) : Page :=
  if negb (open (pageElements p this)) then p
  else update_pageElement this (set_open false) p.

(** The patched [close] of index.ts (part_000, lines 1501-1506). *)
Definition close (this : Dialog) (p : Page) : Page :=
  originalClose this (detachDialog this p).

(** [createLightDismissHandler(dialog)] and its [handleDocumentClick], lines
    1231-1254. *)
Definition createLightDismissHandler (dialog : Dialog) (event : MouseEvent) (p : Page)
    : Page :=
  if negb (isTopMost dialog p)
     || negb (String.eqb (getClosedByValue dialog p) "any")
     || negb (open (pageElements p dialog))
  then p
  else
    let rect := boundingRect (pageElements p dialog) in
    let x := clientX event in
    let y := clientY event in
    let inside :=
      Closedby.Qleb (rect_top rect) y && Closedby.Qleb y (rect_bottom rect)
      && Closedby.Qleb (rect_left rect) x && Closedby.Qleb x (rect_right rect) in
    if negb inside then close dialog p else p.

(** [createClickHandler(dialog)] and its [handleClick], lines 1266-1280. *)
Definition createClickHandler (dialog : Dialog) (event : MouseEvent) (p : Page) : Page :=
  if negb (bool_decide (target event = TargetDialog dialog)) then p
  else if negb (String.eqb (getClosedByValue dialog p) "any") then p
  else
    let rect := boundingRect (pageElements p dialog) in
    let inside :=
      Qltb (rect_top rect) (clientY event) && Qltb (clientY event) (rect_bottom rect)
      && Qltb (rect_left rect) (clientX event) && Qltb (clientX event) (rect_right rect) in
    if negb inside then close dialog p else p.

(** [document.addEventListener("click", h, true)]: one entry per callback. *)
Definition add_documentClickListener (h : ObjectId) (dialog : Dialog)
    (l : list (ObjectId * Dialog)) : list (ObjectId * Dialog) :=
  if bool_decide (h ∈ l.*1) then l else l ++ [(h, dialog)].

(** [attachDialog], lines 1305-1331. *)
Definition attachDialog (dialog : Dialog) (p : Page) : Page :=
  if bool_decide (is_Some (dialogStates p !! dialog)) then p
  else
    let n := nextId p in
    let state := mkListeners n (S n) (S (S n)) (S (S (S n))) in
    let p0 := set_nextId (S (S (S (S n)))) p in
    let p1 := update_pageElement dialog
                (fun e => set_clickListeners
                            (add_listener (handleClick state) (clickListeners e)) e) p0 in
    let p2 := update_pageElement dialog
                (fun e => set_cancelListeners
                            (add_listener (handleCancel state) (cancelListeners e)) e) p1 in
    let p3 := set_documentClickListeners
                (add_documentClickListener (handleDocClick state) dialog
                   (documentClickListeners p2)) p2 in
    let p4 := update_pageElement dialog
                (fun e => set_attrObservers
                            (add_listener (attrObserver state) (attrObservers e)) e) p3 in
    let p5 := set_activeDialogs (Set_add dialog (activeDialogs p4)) p4 in
    set_dialogStates (<[dialog := state]> (dialogStates p5)) p5.

(** A click anywhere in the document, as far as the document's capture
    listeners go: those the document has when the event arrives are called
    in the order of registration, a listener that was removed in the
    meantime is skipped. The listeners on the click's target run after
    these and are not part of this function. *)
Definition dispatchDocumentClick (event : MouseEvent) (p : Page) : Page :=
  fold_left
    (fun p l => if bool_decide (l ∈ documentClickListeners p)
                then createLightDismissHandler l.2 event p
                else p)
    (documentClickListeners p) p.

(** What can happen on a page with these listeners. *)
Inductive Op :=
| OpAttach (d : Dialog)
| OpDetach (d : Dialog)
| OpClose (d : Dialog)
| OpDocumentClick (event : MouseEvent)
| OpClick (d : Dialog) (event : MouseEvent)
| OpPage (els : Dialog -> Element).

Definition step (p : Page) (op : Op) : Page :=
  match op with
  | OpAttach d => attachDialog d p
  | OpDetach d => detachDialog d p
  | OpClose d => close d p
  | OpDocumentClick event => dispatchDocumentClick event p
  | OpClick d event => createClickHandler d event p
  | OpPage els => set_pageElements els p
  end.

Definition run (ops : list Op) (p : Page) : Page := fold_left step ops p.

(** A page when the module has just been loaded. *)
Definition start (els : Dialog -> Element) : Page := mkPage els [] ∅ [] 0.

(** The document's click listeners mirror the stack, entry by entry, every
    listener is the [handleDocClick] of its dialog's record, and every
    dialog of the stack has a record. *)
Definition aligned (p : Page) : Prop :=
  (documentClickListeners p).*2 = activeDialogs p /\
  NoDup (activeDialogs p) /\
  NoDup (documentClickListeners p).*1 /\
  (forall h d, (h, d) ∈ documentClickListeners p ->
               exists st, dialogStates p !! d = Some st /\ handleDocClick st = h) /\
  (forall d, is_Some (dialogStates p !! d) -> d ∈ activeDialogs p) /\
  (forall h d, (h, d) ∈ documentClickListeners p -> h < nextId p).

End LightDismiss.

(** * Properties *)

(** ** Running the monad *)

Lemma bind_Return {A B} (m : JS A) (k : A -> JS B) w a w' :
  m w = Return a w' -> bind m k w = k a w'.
Proof. intros H. unfold bind. by rewrite H. Qed.

Lemma bind_Throw {A B} (m : JS A) (k : A -> JS B) w e w' :
  m w = Throw e w' -> bind m k w = Throw e w'.
Proof. intros H. unfold bind. by rewrite H. Qed.

Ltac js_unfold :=
  cbv [bind ret gets modify throw get_open hasAttribute_closedby
       getAttribute_closedby setAttribute_closedby console_warn newObject
       addEventListener_click addEventListener_cancel removeEventListener_click
       removeEventListener_cancel observe_attributes disconnect].

(** Projections of a world built by the field updates. *)
Ltac world_simpl :=
  cbn [elements HTMLDialogElement originalShowModal documentBody precedingBody
       followingBody shadowTrees
       console nextObject dialogStates activeDialogs rootObservers
       attachShadowIsPatched polyfilled
       set_elements set_HTMLDialogElement set_console set_nextObject
       set_dialogStates set_activeDialogs set_rootObservers
       set_attachShadowIsPatched set_polyfilled update_element page_change].

Ltac element_cases :=
  world_simpl; repeat case_decide; subst; cbn; try done.

(** ** The policy resolver *)

Lemma resolvePolicy_closerequest : resolvePolicy (Some "closerequest") = PolicyRequestOnly.
Proof. reflexivity. Qed.

Lemma resolvePolicy_none : resolvePolicy (Some "none") = PolicyNone.
Proof. reflexivity. Qed.

Lemma resolvePolicy_any configuration :
  configuration <> Some "closerequest" -> configuration <> Some "none" ->
  resolvePolicy configuration = PolicyAny.
Proof.
  intros H1 H2. unfold resolvePolicy.
  destruct (decide (configuration = Some "closerequest")); [done|].
  destruct (decide (configuration = Some "none")); done.
Qed.

(** The string the code computes from the attribute is the literal of the
    policy the specification assigns to it. *)
Lemma normalize_literal (raw : option string) :
  match raw with
  | Some s => if String.eqb s "closerequest" || String.eqb s "none" then s else "any"
  | None => "any"
  end = literal (resolvePolicy raw).
Proof.
  destruct raw as [s|]; [|reflexivity].
  destruct (String.eqb_spec s "closerequest") as [->|Hc]; [reflexivity|].
  destruct (String.eqb_spec s "none") as [->|Hn]; [reflexivity|].
  simpl. rewrite resolvePolicy_any; [reflexivity| |]; congruence.
Qed.

Lemma getClosedByValue_run d w :
  getClosedByValue d w = Return (literal (policyOf w d)) w.
Proof.
  unfold getClosedByValue, policyOf. js_unfold.
  by rewrite normalize_literal.
Qed.

Lemma closedBy_get_run d w :
  closedBy_get d w = Return (literal (policyOf w d)) w.
Proof.
  unfold closedBy_get, policyOf. js_unfold.
  by rewrite normalize_literal.
Qed.

(** The [cancel] handler suppresses the cancel action exactly at policy
    [None], and changes nothing else. *)
Lemma createCancelHandler_run d event w :
  createCancelHandler d event w =
  Return (match policyOf w d with
          | PolicyNone => mkCancelEvent true
          | _ => event
          end) w.
Proof.
  unfold createCancelHandler.
  erewrite bind_Return by apply getClosedByValue_run.
  by destruct (policyOf w d).
Qed.

(** C5. Policy resolution is total and reads the attribute as it is in the
    world of the call: [getClosedByValue] (and the [closedBy] getter) return
    normally, change nothing, and give the literal of a policy that is
    [RequestOnly] exactly for the attribute "closerequest", [None] exactly
    for "none", and [Any] for every other attribute value or none at all. *)
Theorem getClosedByValue_total_mapping (d : Dialog) (w : World) :
  exists p : DismissalPolicy,
    getClosedByValue d w = Return (literal p) w /\
    closedBy_get d w = Return (literal p) w /\
    p = resolvePolicy (closedby (elements w d)) /\
    (p = PolicyRequestOnly <-> closedby (elements w d) = Some "closerequest") /\
    (p = PolicyNone <-> closedby (elements w d) = Some "none") /\
    (p = PolicyAny <->
       closedby (elements w d) <> Some "closerequest" /\
       closedby (elements w d) <> Some "none").
Proof.
  exists (policyOf w d).
  split; [apply getClosedByValue_run|].
  split; [apply closedBy_get_run|].
  split; [reflexivity|].
  unfold policyOf, resolvePolicy.
  destruct (decide (closedby (elements w d) = Some "closerequest")) as [E|N1].
  - rewrite E. repeat split; try done. intros [? _]; done.
  - destruct (decide (closedby (elements w d) = Some "none")) as [E|N2].
    + rewrite E. repeat split; try done. intros [_ ?]; done.
    + repeat split; done.
Qed.

(** ** The Set of active dialogs *)

Lemma elem_of_Set_add d d' s : d' ∈ Set_add d s <-> d' = d \/ d' ∈ s.
Proof.
  unfold Set_add. case_bool_decide as H.
  - split; [by right|]. intros [->|?]; done.
  - rewrite elem_of_app, list_elem_of_singleton. tauto.
Qed.

Lemma NoDup_Set_add d s : NoDup s -> NoDup (Set_add d s).
Proof.
  intros H. unfold Set_add. case_bool_decide as Hin; [done|].
  apply NoDup_app. split; [done|]. split; [|apply NoDup_singleton].
  intros x Hx ->%list_elem_of_singleton. done.
Qed.

Lemma elem_of_Set_delete d d' s : d' ∈ Set_delete d s <-> d' ∈ s /\ d' <> d.
Proof. unfold Set_delete. rewrite list_elem_of_filter. tauto. Qed.

Lemma NoDup_Set_delete d s : NoDup s -> NoDup (Set_delete d s).
Proof. apply NoDup_filter. Qed.

Lemma Set_delete_absent d s : d ∉ s -> Set_delete d s = s.
Proof.
  unfold Set_delete. induction s as [|x s IH]; intros H; [done|].
  rewrite not_elem_of_cons in H. destruct H as [Hx Hs].
  rewrite filter_cons_True by congruence. by rewrite IH.
Qed.

Lemma Set_delete_snoc d s : d ∉ s -> Set_delete d (s ++ [d]) = s.
Proof.
  intros H. unfold Set_delete. rewrite filter_app.
  fold (Set_delete d s). rewrite Set_delete_absent by done.
  rewrite filter_cons_False by (intros ?; done).
  by rewrite filter_nil, app_nil_r.
Qed.

(** ** Updating one element *)

Lemma elements_update_eq d f w :
  elements (update_element d f w) d = f (elements w d).
Proof. unfold update_element. cbn. by rewrite decide_True. Qed.

Lemma elements_update_ne d d' f w :
  d' <> d -> elements (update_element d f w) d' = elements w d'.
Proof. intros H. unfold update_element. cbn. by rewrite decide_False. Qed.

Lemma sameGlobals_refl w : sameGlobals w w.
Proof. by repeat split. Qed.

Lemma sameGlobals_trans w1 w2 w3 :
  sameGlobals w1 w2 -> sameGlobals w2 w3 -> sameGlobals w1 w3.
Proof.
  unfold sameGlobals. intros (?&?&?&?&?&?&?) (?&?&?&?&?&?&?).
  repeat split; congruence.
Qed.

Lemma sameAttributes_refl w : sameAttributes w w.
Proof. by intros d. Qed.

Lemma sameAttributes_trans w1 w2 w3 :
  sameAttributes w1 w2 -> sameAttributes w2 w3 -> sameAttributes w1 w3.
Proof.
  intros H1 H2 d. destruct (H1 d) as (?&?&?), (H2 d) as (?&?&?).
  repeat split; congruence.
Qed.

(** ** attachDialog and detachDialog, step by step *)

Lemma detachDialog_untracked d w :
  dialogStates w !! d = None -> detachDialog d w = Return tt w.
Proof. intros H. unfold detachDialog. js_unfold. by rewrite H. Qed.

Lemma detachDialog_tracked d st w :
  dialogStates w !! d = Some st ->
  exists w', detachDialog d w = Return tt w' /\
    dialogStates w' = delete d (dialogStates w) /\
    activeDialogs w' = Set_delete d (activeDialogs w) /\
    sameAttributes w w' /\ sameElementsBut d w w' /\ sameGlobals w w' /\
    clickListeners (elements w' d)
      = remove_listener (handleClick st) (clickListeners (elements w d)) /\
    cancelListeners (elements w' d)
      = remove_listener (handleCancel st) (cancelListeners (elements w d)) /\
    attrObservers (elements w' d)
      = remove_listener (attrObserver st) (attrObservers (elements w d)).
Proof.
  intros H. unfold detachDialog. js_unfold. rewrite H.
  eexists. split; [reflexivity|].
  split; [done|]. split; [done|].
  split. { intros d'. element_cases. }
  split. { intros d' Hne. element_cases. }
  split; [by repeat split|].
  element_cases.
Qed.

Lemma attachDialog_tracked d w :
  tracked w d -> attachDialog d w = Return tt w.
Proof.
  intros H. unfold attachDialog. js_unfold.
  by rewrite bool_decide_eq_true_2.
Qed.

Lemma attachDialog_untracked d w :
  dialogStates w !! d = None ->
  exists w' st, attachDialog d w = Return tt w' /\
    dialogStates w' = <[d := st]> (dialogStates w) /\
    activeDialogs w' = Set_add d (activeDialogs w) /\
    sameAttributes w w' /\ sameElementsBut d w w' /\ sameGlobals w w' /\
    clickListeners (elements w' d)
      = add_listener (handleClick st) (clickListeners (elements w d)) /\
    cancelListeners (elements w' d)
      = add_listener (handleCancel st) (cancelListeners (elements w d)) /\
    attrObservers (elements w' d)
      = add_listener (attrObserver st) (attrObservers (elements w d)).
Proof.
  intros H. unfold attachDialog. js_unfold.
  rewrite bool_decide_eq_false_2 by (unfold tracked; rewrite H; by intros [? ?]).
  eexists _, _. split; [reflexivity|].
  split; [done|]. split; [done|].
  split. { intros d'. element_cases. }
  split. { intros d' Hne. element_cases. }
  split; [by repeat split|].
  element_cases.
Qed.

(** ** Computations that keep a property *)

Section Preserves.
Context (P : World -> Prop).

Lemma preserves_ret {A} (a : A) : preserves P (ret a).
Proof. by intros w H. Qed.

Lemma preserves_throw {A} e : preserves P (@throw A e).
Proof. by intros w H. Qed.

Lemma preserves_gets {A} (f : World -> A) : preserves P (gets f).
Proof. by intros w H. Qed.

Lemma preserves_bind {A B} (m : JS A) (k : A -> JS B) :
  preserves P m -> (forall a, preserves P (k a)) -> preserves P (bind m k).
Proof.
  intros Hm Hk w H. unfold bind. specialize (Hm w H).
  destruct (m w) as [a w'|e w']; cbn in *; [by apply Hk|done].
Qed.

Lemma preserves_modify (f : World -> World) :
  (forall w, P w -> P (f w)) -> preserves P (modify f).
Proof. intros Hf w H. by apply Hf. Qed.

Lemma preserves_forEach {A} (l : list A) (f : A -> JS unit) :
  (forall x, preserves P (f x)) -> preserves P (forEach l f).
Proof.
  intros Hf. induction l as [|x l IH]; cbn [forEach].
  - apply preserves_ret.
  - apply preserves_bind; [apply Hf|]. intros _. apply IH.
Qed.

End Preserves.

(** ** The invariant of the Escape stack *)

(** The invariant only reads the record map and the stack. *)
Lemma stackInvariant_tracking w w' :
  dialogStates w' = dialogStates w -> activeDialogs w' = activeDialogs w ->
  stackInvariant w -> stackInvariant w'.
Proof.
  unfold stackInvariant, tracked. intros -> ->. done.
Qed.

Lemma attachDialog_invariant d w :
  stackInvariant w ->
  exists w', attachDialog d w = Return tt w' /\ stackInvariant w' /\
             tracked w' d /\ d ∈ activeDialogs w'.
Proof.
  intros [Hnd Hmir].
  destruct (dialogStates w !! d) as [st|] eqn:E.
  - exists w. split; [apply attachDialog_tracked; by exists st|].
    split; [done|]. split; [by exists st|]. apply Hmir. by exists st.
  - destruct (attachDialog_untracked d w E)
      as (w' & st & Hrun & Hst & Hact & _).
    exists w'. split; [done|]. unfold stackInvariant, tracked.
    rewrite Hst, Hact. split; [|split].
    + split; [by apply NoDup_Set_add|]. intros d'.
      rewrite elem_of_Set_add, lookup_insert_is_Some, Hmir. unfold tracked.
      destruct (decide (d = d')); naive_solver.
    + rewrite lookup_insert_eq. by eexists.
    + apply elem_of_Set_add. by left.
Qed.

Lemma detachDialog_invariant d w :
  stackInvariant w ->
  exists w', detachDialog d w = Return tt w' /\ stackInvariant w' /\
             ~ tracked w' d /\ d ∉ activeDialogs w'.
Proof.
  intros [Hnd Hmir].
  destruct (dialogStates w !! d) as [st|] eqn:E.
  - destruct (detachDialog_tracked d st w E) as (w' & Hrun & Hst & Hact & _).
    exists w'. split; [done|]. unfold stackInvariant, tracked.
    rewrite Hst, Hact. split; [|split].
    + split; [by apply NoDup_Set_delete|]. intros d'.
      rewrite elem_of_Set_delete, lookup_delete_is_Some, Hmir. unfold tracked.
      naive_solver.
    + rewrite lookup_delete_eq. by intros [? ?].
    + rewrite elem_of_Set_delete. naive_solver.
  - exists w. split; [by apply detachDialog_untracked|].
    split; [done|]. unfold tracked. rewrite E.
    split; [by intros [? ?]|]. rewrite Hmir. unfold tracked. rewrite E.
    by intros [? ?].
Qed.

Lemma attachDialog_preserves : forall d, preserves stackInvariant (attachDialog d).
Proof.
  intros d w H. destruct (attachDialog_invariant d w H) as (w' & -> & ? & _). done.
Qed.

Lemma detachDialog_preserves : forall d, preserves stackInvariant (detachDialog d).
Proof.
  intros d w H. destruct (detachDialog_invariant d w H) as (w' & -> & ? & _). done.
Qed.

(** ** Properties kept by every operation *)

Create HintDb pres discriminated.

(** A property that reads only the records, the stack and the global
    [HTMLDialogElement], and that attaching, detaching and patching the
    prototype keep, is kept by every operation. *)
Section EveryOperation.
Context (P : World -> Prop).
Hypothesis P_reads :
  forall w w', dialogStates w' = dialogStates w ->
               activeDialogs w' = activeDialogs w ->
               HTMLDialogElement w' = HTMLDialogElement w -> P w -> P w'.
Hypothesis P_attach : forall d, preserves P (attachDialog d).
Hypothesis P_detach : forall d, preserves P (detachDialog d).
Hypothesis P_patch :
  forall w, P w ->
    P (set_HTMLDialogElement (patchPrototype <$> HTMLDialogElement w) w).

Ltac pres_step :=
  first
    [ solve [auto with pres]
    | apply preserves_ret
    | apply preserves_throw
    | apply preserves_gets
    | apply preserves_modify; intros ? ?;
      first [ apply P_patch; assumption
            | match goal with
              | H : P ?w |- _ => apply (P_reads w); [reflexivity..|exact H]
              end ]
    | apply preserves_bind; [|intros ?]
    | apply preserves_forEach; intros ?
    | match goal with
      | |- preserves _ (if ?b then _ else _) => destruct b
      | |- preserves _ (match ?x with _ => _ end) => destruct x
      end ].

Ltac pres := repeat pres_step.

Lemma getClosedByValue_preserves d : preserves P (getClosedByValue d).
Proof. unfold getClosedByValue, getAttribute_closedby. pres. Qed.

#[local] Hint Resolve P_attach P_detach getClosedByValue_preserves : pres.

Lemma originalClose_preserves d : preserves P (originalClose d).
Proof. unfold originalClose. pres. Qed.
#[local] Hint Resolve originalClose_preserves : pres.

Lemma closePatched_preserves d : preserves P (closePatched d).
Proof. unfold closePatched. pres. Qed.
#[local] Hint Resolve closePatched_preserves : pres.

Lemma call_close_preserves d : preserves P (call_close d).
Proof. unfold call_close. pres. Qed.
#[local] Hint Resolve call_close_preserves : pres.

Lemma escapeLoop_preserves l : preserves P (escapeLoop l).
Proof. induction l as [|d l IH]; cbn [escapeLoop]; pres. Qed.
#[local] Hint Resolve escapeLoop_preserves : pres.

Lemma documentEscapeHandler_preserves ev : preserves P (documentEscapeHandler ev).
Proof. unfold documentEscapeHandler. pres. Qed.

Lemma createClickHandler_preserves d ev : preserves P (createClickHandler d ev).
Proof. unfold createClickHandler. pres. Qed.

Lemma createCancelHandler_preserves d ev : preserves P (createCancelHandler d ev).
Proof. unfold createCancelHandler. pres. Qed.

Lemma attachIfOpen_preserves d : preserves P (attachIfOpen d).
Proof. unfold attachIfOpen, get_open. pres. Qed.
#[local] Hint Resolve attachIfOpen_preserves : pres.

Lemma rootObserverCallback_preserves ms : preserves P (rootObserverCallback ms).
Proof.
  unfold rootObserverCallback, with_closedby, get_open, hasAttribute_closedby.
  pres.
Qed.

Lemma observeRoot_preserves root : preserves P (observeRoot root).
Proof.
  unfold observeRoot, root_querySelectorAll_dialog, with_closedby. pres.
Qed.
#[local] Hint Resolve observeRoot_preserves : pres.

Lemma setupObservers_preserves : preserves P setupObservers.
Proof. unfold setupObservers. pres. Qed.
#[local] Hint Resolve setupObservers_preserves : pres.

Lemma call_originalShowModal_preserves d : preserves P (call_originalShowModal d).
Proof.
  intros w H. unfold call_originalShowModal.
  destruct (fst (originalShowModal w d (elements w)));
    (apply (P_reads w); [reflexivity..|exact H]).
Qed.
#[local] Hint Resolve call_originalShowModal_preserves : pres.

Lemma showModalPatched_preserves d : preserves P (showModalPatched d).
Proof. unfold showModalPatched, get_open, hasAttribute_closedby. pres. Qed.
#[local] Hint Resolve showModalPatched_preserves : pres.

Lemma call_showModal_preserves d : preserves P (call_showModal d).
Proof. unfold call_showModal. pres. Qed.

Lemma toString_preserves v : preserves P (toString v).
Proof. destruct v; cbn [toString]; pres. Qed.
#[local] Hint Resolve toString_preserves : pres.

Lemma closedBy_set_preserves d v : preserves P (closedBy_set d v).
Proof.
  unfold closedBy_set, setAttribute_closedby, console_warn, get_open,
    hasAttribute_closedby.
  pres.
Qed.

Lemma apply_preserves : preserves P apply.
Proof.
  unfold apply, isSupported, showModal_in_prototype, console_warn. pres.
Qed.

Lemma runOp_preserves op : preserves P (runOp op).
Proof.
  destruct op; cbn [runOp];
    auto using documentEscapeHandler_preserves, createClickHandler_preserves,
      createCancelHandler_preserves, rootObserverCallback_preserves,
      call_showModal_preserves, closedBy_set_preserves, apply_preserves
      with pres.
  - apply preserves_bind; [apply documentEscapeHandler_preserves|]. intros ?. pres.
  - apply preserves_bind; [apply createCancelHandler_preserves|]. intros ?. pres.
  - unfold attachShadowPatched. pres.
  - pres.
Qed.

End EveryOperation.

Lemma stackInvariant_reads w w' :
  dialogStates w' = dialogStates w -> activeDialogs w' = activeDialogs w ->
  HTMLDialogElement w' = HTMLDialogElement w -> stackInvariant w -> stackInvariant w'.
Proof. intros ? ? _. by apply stackInvariant_tracking. Qed.

Lemma stackInvariant_patch w :
  stackInvariant w ->
  stackInvariant (set_HTMLDialogElement (patchPrototype <$> HTMLDialogElement w) w).
Proof. intros H. exact H. Qed.

Lemma runOp_invariant op : preserves stackInvariant (runOp op).
Proof.
  apply runOp_preserves.
  - apply stackInvariant_reads.
  - apply attachDialog_preserves.
  - apply detachDialog_preserves.
  - apply stackInvariant_patch.
Qed.

Lemma installed_sameGlobals w w' : sameGlobals w w' -> installed w -> installed w'.
Proof. intros (Hg & _) (i & Hi & Hp). exists i. by rewrite Hg. Qed.

Lemma installed_reads w w' :
  dialogStates w' = dialogStates w -> activeDialogs w' = activeDialogs w ->
  HTMLDialogElement w' = HTMLDialogElement w -> installed w -> installed w'.
Proof. intros _ _ Hg (i & Hi & Hp). exists i. by rewrite Hg. Qed.

Lemma installed_patch w :
  installed w ->
  installed (set_HTMLDialogElement (patchPrototype <$> HTMLDialogElement w) w).
Proof. intros (i & Hi & Hp). exists (patchPrototype i). cbn. by rewrite Hi. Qed.

Lemma attachDialog_installed d : preserves installed (attachDialog d).
Proof.
  intros w H. destruct (dialogStates w !! d) as [st|] eqn:E.
  - rewrite attachDialog_tracked by by exists st. exact H.
  - destruct (attachDialog_untracked d w E)
      as (w' & st & -> & _ & _ & _ & _ & Hg & _).
    by apply (installed_sameGlobals w).
Qed.

Lemma detachDialog_installed d : preserves installed (detachDialog d).
Proof.
  intros w H. destruct (dialogStates w !! d) as [st|] eqn:E.
  - destruct (detachDialog_tracked d st w E)
      as (w' & -> & _ & _ & _ & _ & Hg & _).
    by apply (installed_sameGlobals w).
  - by rewrite detachDialog_untracked.
Qed.

Lemma runOp_installed op : preserves installed (runOp op).
Proof.
  apply runOp_preserves.
  - apply installed_reads.
  - apply attachDialog_installed.
  - apply detachDialog_installed.
  - apply installed_patch.
Qed.

Lemma run_invariant ops w : stackInvariant w -> stackInvariant (run ops w).
Proof.
  revert w. induction ops as [|op ops IH]; intros w H; [done|].
  cbn [run fold_left]. apply IH. by apply runOp_invariant.
Qed.

Lemma page_invariant els global native body :
  stackInvariant (page els global native body).
Proof.
  split; [constructor|]. intros d. cbn. unfold tracked. cbn.
  rewrite lookup_empty. split; [by intros ?%elem_of_nil|by intros [? ?]].
Qed.

(** ** Attach and detach are idempotent *)

Lemma not_tracked_lookup w d : ~ tracked w d <-> dialogStates w !! d = None.
Proof.
  unfold tracked. destruct (dialogStates w !! d); split; try done.
  intros H. exfalso. apply H. by eexists.
Qed.

(** A member of a duplicate-free list is there exactly once. *)
Lemma NoDup_one_entry (d : Dialog) (l : list Dialog) :
  NoDup l -> d ∈ l -> length (filter (λ x, x = d) l) = 1.
Proof.
  induction 1 as [|x l Hx Hnd IH]; intros Hin; [by apply elem_of_nil in Hin|].
  apply elem_of_cons in Hin. destruct (decide (x = d)) as [->|Hne].
  - rewrite filter_cons_True by done. cbn. f_equal.
    clear IH Hin. induction l as [|y l IHl]; [done|].
    apply not_elem_of_cons in Hx as [Hy Hl]. inversion_clear Hnd.
    rewrite filter_cons_False by congruence. by apply IHl.
  - rewrite filter_cons_False by done. apply IH. by destruct Hin as [->|?].
Qed.

Lemma attachTimes_tracked n d w :
  tracked w d -> attachTimes n d w = Return tt w.
Proof.
  intros H. induction n as [|n IH]; [done|].
  cbn [attachTimes]. erewrite bind_Return by (by apply attachDialog_tracked).
  exact IH.
Qed.

(** C7. Detach never throws and is idempotent: every call returns
    normally, a second call on the world the first one left returns that
    world unchanged, and a call on a dialog without a record returns the
    world it was given, record map and Escape stack included. *)
Theorem detachDialog_idempotent (d : Dialog) (w : World) :
  (exists w', detachDialog d w = Return tt w' /\
              detachDialog d w' = Return tt w' /\
              ~ tracked w' d) /\
  (~ tracked w d -> detachDialog d w = Return tt w).
Proof.
  split.
  - destruct (dialogStates w !! d) as [st|] eqn:E.
    + destruct (detachDialog_tracked d st w E) as (w' & Hrun & Hst & _).
      assert (dialogStates w' !! d = None) as Hgone
        by (rewrite Hst; apply lookup_delete_eq).
      exists w'. split; [done|]. split; [by apply detachDialog_untracked|].
      by apply not_tracked_lookup.
    + exists w. split; [by apply detachDialog_untracked|].
      split; [by apply detachDialog_untracked|]. by apply not_tracked_lookup.
  - intros H. apply detachDialog_untracked. by apply not_tracked_lookup.
Qed.

(** C3. Attach is idempotent: on a dialog that has a record the call
    returns at once and leaves the world as it was; and in a world that
    satisfies the stack invariant, any positive number of calls in a row
    leaves what one call leaves: the dialog has its one record and sits
    exactly once in the Escape stack. *)
Theorem attachDialog_idempotent (d : Dialog) (w : World) :
  stackInvariant w ->
  (tracked w d -> attachDialog d w = Return tt w) /\
  forall n, exists w' st,
    attachTimes (S n) d w = Return tt w' /\
    attachDialog d w = Return tt w' /\
    attachDialog d w' = Return tt w' /\
    (forall st', dialogStates w' !! d = Some st' <-> st' = st) /\
    length (filter (λ x, x = d) (activeDialogs w')) = 1 /\
    stackInvariant w'.
Proof.
  intros Hinv. split; [apply attachDialog_tracked|].
  intros n.
  destruct (attachDialog_invariant d w Hinv) as (w' & Hrun & Hinv' & [st Hst] & Hin).
  exists w', st.
  split. { cbn [attachTimes]. erewrite bind_Return by exact Hrun.
           apply attachTimes_tracked. by exists st. }
  split; [done|].
  split. { apply attachDialog_tracked. by exists st. }
  split. { intros st'. rewrite Hst. split; congruence. }
  split; [|done].
  apply NoDup_one_entry; [apply Hinv'|done].
Qed.

(** C6. The invariant of the Escape stack is kept by every operation:
    after any sequence of attach and detach calls, and of every other call
    or event that reaches them, no dialog sits twice in the stack and each
    dialog is either in the stack and has a record, or is in neither. *)
Theorem stack_mirrors_records (ops : list Op) (w : World) :
  stackInvariant w ->
  let w' := run ops w in
  NoDup (activeDialogs w') /\
  forall d, (d ∈ activeDialogs w' /\ tracked w' d) \/
            ((d ∉ activeDialogs w') /\ ~ tracked w' d).
Proof.
  intros H w'. destruct (run_invariant ops w H) as [Hnd Hmir].
  split; [done|]. intros d. specialize (Hmir d). fold w' in Hmir.
  destruct (decide (d ∈ activeDialogs w')) as [Hin|Hout].
  - left. split; [done|]. by apply Hmir.
  - right. split; [done|]. intros Ht. apply Hout. by apply Hmir.
Qed.

(** ** Closing a dialog *)

Lemma originalClose_run d w :
  exists w', originalClose d w = Return tt w' /\
    open (elements w' d) = false /\
    sameElementsBut d w w' /\
    (forall d', closedby (elements w' d') = closedby (elements w d')) /\
    dialogStates w' = dialogStates w /\
    activeDialogs w' = activeDialogs w /\
    sameGlobals w w'.
Proof.
  unfold originalClose. js_unfold.
  destruct (open (elements w d)) eqn:E; cbn [negb].
  - eexists. split; [reflexivity|].
    split; [element_cases|]. split; [intros d' ?; element_cases|].
    split; [intros d'; element_cases|]. by repeat split.
  - exists w. split; [done|]. split; [done|]. split; [by intros ?|].
    by repeat split.
Qed.

Lemma closePatched_run d w :
  exists w', closePatched d w = Return tt w' /\
    open (elements w' d) = false /\
    sameElementsBut d w w' /\
    (forall d', closedby (elements w' d') = closedby (elements w d')) /\
    dialogStates w' = delete d (dialogStates w) /\
    (tracked w d -> activeDialogs w' = Set_delete d (activeDialogs w)) /\
    (~ tracked w d -> activeDialogs w' = activeDialogs w) /\
    sameGlobals w w'.
Proof.
  unfold closePatched.
  destruct (dialogStates w !! d) as [st|] eqn:E.
  - destruct (detachDialog_tracked d st w E)
      as (w1 & Hrun & Hst & Hact & Hattr & Hbut & Hglob & _).
    destruct (originalClose_run d w1)
      as (w2 & Hrun2 & Hopen & Hbut2 & Hcfg & Hst2 & Hact2 & Hglob2).
    exists w2. erewrite bind_Return by exact Hrun.
    split; [done|]. split; [done|].
    split. { intros d' Hne. rewrite Hbut2, Hbut by done. done. }
    split. { intros d'. rewrite Hcfg. apply Hattr. }
    split; [congruence|]. split; [congruence|].
    split. { intros Hn. exfalso. apply Hn. by exists st. }
    by eapply sameGlobals_trans.
  - destruct (originalClose_run d w)
      as (w2 & Hrun2 & Hopen & Hbut2 & Hcfg & Hst2 & Hact2 & Hglob2).
    exists w2.
    erewrite bind_Return by (by apply detachDialog_untracked).
    split; [done|]. split; [done|]. split; [done|]. split; [done|].
    split. { rewrite Hst2. symmetry. by apply delete_id. }
    split. { intros [? ?]. congruence. }
    split; done.
Qed.

Lemma call_close_installed d w :
  installed w -> call_close d w = closePatched d w.
Proof.
  intros (i & Hi & Hp). unfold call_close. js_unfold. by rewrite Hi, Hp.
Qed.


(** ** The Escape key *)

Lemma escapeLoop_cons d rest w :
  escapeLoop (d :: rest) w =
  match policyOf w d with
  | PolicyNone => Return (true, false) w
  | _ => bind (call_close d) (fun _ => ret (false, true)) w
  end.
Proof.
  cbn [escapeLoop]. erewrite bind_Return by apply getClosedByValue_run.
  by destruct (policyOf w d).
Qed.

Lemma documentEscapeHandler_run event w (l : list Dialog) (top : Dialog) :
  key event = "Escape" -> activeDialogs w = (l ++ [top])%list ->
  documentEscapeHandler event w =
  match policyOf w top with
  | PolicyNone => Return (key_preventDefault event) w
  | _ => bind (call_close top) (fun _ => ret (key_preventDefault event)) w
  end.
Proof.
  intros Hkey Hact. unfold documentEscapeHandler.
  unfold bind at 1. unfold gets at 1. rewrite Hkey, Hact, length_app.
  cbn [String.eqb Ascii.eqb Bool.eqb negb orb length].
  replace (length l + 1) with (S (length l)) by lia. cbn [Nat.eqb].
  unfold bind at 1. unfold gets at 1. rewrite Hact, rev_app_distr.
  cbn [rev app]. unfold bind at 1. rewrite escapeLoop_cons.
  destruct (policyOf w top); try reflexivity;
    unfold bind, ret; destruct (call_close top w); reflexivity.
Qed.


(** ** Stack order *)

Lemma policyOf_same w w' d :
  closedby (elements w' d) = closedby (elements w d) -> policyOf w' d = policyOf w d.
Proof. unfold policyOf. by intros ->. Qed.

(** Attaching a dialog that has no record puts it on top of the stack. *)
Lemma attachDialog_fresh d w :
  stackInvariant w -> ~ tracked w d ->
  exists w', attachDialog d w = Return tt w' /\
    activeDialogs w' = (activeDialogs w ++ [d])%list /\
    (forall d', tracked w' d' <-> d' = d \/ tracked w d') /\
    sameAttributes w w' /\ sameGlobals w w' /\ stackInvariant w'.
Proof.
  intros Hinv Hn. pose proof Hn as E. apply not_tracked_lookup in E.
  destruct (attachDialog_untracked d w E)
    as (w' & st & Hrun & Hst & Hact & Hattr & _ & Hglob & _).
  exists w'. split; [done|].
  split. { rewrite Hact. unfold Set_add. rewrite bool_decide_eq_false_2; [done|].
           intros Hin. apply Hn. by apply Hinv. }
  split. { intros d'. unfold tracked. rewrite Hst, lookup_insert_is_Some.
           destruct (decide (d = d')); naive_solver. }
  split; [done|]. split; [done|].
  destruct (attachDialog_invariant d w Hinv) as (w'' & Hrun' & ? & _).
  congruence.
Qed.

(** Escape on a stack whose top-most dialog may be dismissed pops it. *)
Lemma escape_pops_top event w (l : list Dialog) (top : Dialog) :
  key event = "Escape" -> stackInvariant w -> installed w ->
  activeDialogs w = (l ++ [top])%list -> policyOf w top <> PolicyNone ->
  exists w', documentEscapeHandler event w = Return (key_preventDefault event) w' /\
    activeDialogs w' = l /\
    (forall d', tracked w' d' <-> d' <> top /\ tracked w d') /\
    open (elements w' top) = false /\
    sameElementsBut top w w' /\
    (forall d', closedby (elements w' d') = closedby (elements w d')) /\
    sameGlobals w w' /\ stackInvariant w'.
Proof.
  intros Hkey Hinv Hinst Hact Hp.
  destruct (closePatched_run top w)
    as (w' & Hclose & Hopen & Hbut & Hcfg & Hst & Hdel & _ & Hglob).
  assert (tracked w top) as Htop.
  { apply Hinv. rewrite Hact. apply elem_of_app. right. by apply list_elem_of_singleton. }
  assert (top ∉ l) as Hnotin.
  { destruct Hinv as [Hnd _]. rewrite Hact in Hnd.
    apply NoDup_app in Hnd as (_ & Hdisj & _). intros Hin.
    apply (Hdisj top Hin). by apply list_elem_of_singleton. }
  exists w'. split.
  { rewrite (documentEscapeHandler_run event w l top Hkey Hact).
    erewrite bind_Return
      by (rewrite call_close_installed by done; exact Hclose).
    by destruct (policyOf w top). }
  split. { rewrite (Hdel Htop), Hact. by apply Set_delete_snoc. }
  split. { intros d'. unfold tracked. rewrite Hst, lookup_delete_is_Some.
           naive_solver. }
  split; [done|]. split; [done|]. split; [done|]. split; [done|].
  pose proof (runOp_invariant (OpClose top) w Hinv) as Hinv'.
  unfold runOp in Hinv'. rewrite call_close_installed in Hinv' by done.
  by rewrite Hclose in Hinv'.
Qed.

(** C2. The Escape stack keeps the order of attachment. With [A], [B]
    and [C] attached in that order, each at policy [Any], a first Escape
    keypress closes [C] and nothing else and leaves [A] and [B] tracked; a
    second one closes [B] and nothing else and leaves [A] tracked. *)
Theorem escape_stack_order (w : World) (A B C : Dialog)
    (press1 press2 : KeyboardEvent) :
  stackInvariant w -> installed w ->
  A <> B -> A <> C -> B <> C ->
  ~ tracked w A -> ~ tracked w B -> ~ tracked w C ->
  policyOf w A = PolicyAny -> policyOf w B = PolicyAny -> policyOf w C = PolicyAny ->
  key press1 = "Escape" -> key press2 = "Escape" ->
  exists w3 w4 w5,
    (attachDialog A ;; attachDialog B ;; attachDialog C) w = Return tt w3 /\
    activeDialogs w3 = (activeDialogs w ++ [A; B; C])%list /\
    documentEscapeHandler press1 w3 = Return (key_preventDefault press1) w4 /\
    open (elements w4 C) = false /\ ~ tracked w4 C /\
    (forall d, d <> C -> elements w4 d = elements w3 d) /\
    tracked w4 A /\ tracked w4 B /\
    activeDialogs w4 = (activeDialogs w ++ [A; B])%list /\
    documentEscapeHandler press2 w4 = Return (key_preventDefault press2) w5 /\
    open (elements w5 B) = false /\ ~ tracked w5 B /\
    (forall d, d <> B -> elements w5 d = elements w4 d) /\
    tracked w5 A /\
    activeDialogs w5 = (activeDialogs w ++ [A])%list.
Proof.
  intros Hinv Hinst HAB HAC HBC HnA HnB HnC HpA HpB HpC Hk1 Hk2.
  destruct (attachDialog_fresh A w Hinv HnA)
    as (w1 & Hr1 & Ha1 & Ht1 & Hat1 & Hg1 & Hi1).
  assert (~ tracked w1 B) as HnB1 by (rewrite Ht1; naive_solver).
  destruct (attachDialog_fresh B w1 Hi1 HnB1)
    as (w2 & Hr2 & Ha2 & Ht2 & Hat2 & Hg2 & Hi2).
  assert (~ tracked w2 C) as HnC2 by (rewrite Ht2, Ht1; naive_solver).
  destruct (attachDialog_fresh C w2 Hi2 HnC2)
    as (w3 & Hr3 & Ha3 & Ht3 & Hat3 & Hg3 & Hi3).
  pose proof (sameAttributes_trans _ _ _ (sameAttributes_trans _ _ _ Hat1 Hat2) Hat3)
    as Hat.
  pose proof (sameGlobals_trans _ _ _ (sameGlobals_trans _ _ _ Hg1 Hg2) Hg3) as Hg.
  assert (activeDialogs w3 = ((activeDialogs w ++ [A; B]) ++ [C])%list) as Hact3.
  { rewrite Ha3, Ha2, Ha1, <- !app_assoc. done. }
  assert (policyOf w3 C <> PolicyNone) as HpC3.
  { rewrite (policyOf_same w w3 C) by apply Hat. by rewrite HpC. }
  destruct (escape_pops_top press1 w3 _ C Hk1 Hi3
              (installed_sameGlobals _ _ Hg Hinst) Hact3 HpC3)
    as (w4 & Hr4 & Ha4 & Ht4 & Ho4 & Hb4 & Hc4 & Hg4 & Hi4).
  assert (activeDialogs w4 = ((activeDialogs w ++ [A]) ++ [B])%list) as Hact4.
  { rewrite Ha4, <- !app_assoc. done. }
  assert (policyOf w4 B <> PolicyNone) as HpB4.
  { rewrite (policyOf_same w3 w4 B) by apply Hc4.
    rewrite (policyOf_same w w3 B) by apply Hat. by rewrite HpB. }
  destruct (escape_pops_top press2 w4 _ B Hk2 Hi4
              (installed_sameGlobals _ _ (sameGlobals_trans _ _ _ Hg Hg4) Hinst)
              Hact4 HpB4)
    as (w5 & Hr5 & Ha5 & Ht5 & Ho5 & Hb5 & Hc5 & Hg5 & Hi5).
  exists w3, w4, w5.
  split. { erewrite bind_Return by exact Hr1. erewrite bind_Return by exact Hr2.
           exact Hr3. }
  split. { rewrite Hact3, <- app_assoc. done. }
  split; [done|]. split; [done|].
  split. { rewrite Ht4. naive_solver. }
  split. { intros d Hne. by apply Hb4. }
  split. { rewrite Ht4, Ht3, Ht2, Ht1. naive_solver. }
  split. { rewrite Ht4, Ht3, Ht2. naive_solver. }
  split; [done|]. split; [done|]. split; [done|].
  split. { rewrite Ht5. naive_solver. }
  split. { intros d Hne. by apply Hb5. }
  split. { rewrite Ht5, Ht4, Ht3, Ht2, Ht1. naive_solver. }
  done.
Qed.

(** ** Backdrop clicks *)

Lemma Qltb_lt x y : Qltb x y = true <-> (x < y)%Q.
Proof.
  unfold Qltb. rewrite negb_true_iff. split.
  - intros H. apply Qnot_le_lt. intros Hle. apply Qle_bool_iff in Hle. congruence.
  - intros H. destruct (Qle_bool y x) eqn:E; [|done].
    apply Qle_bool_iff in E. by apply Qlt_not_le in H.
Qed.

Lemma inside_strictlyInside r x y :
  Qltb (rect_top r) y && Qltb y (rect_bottom r)
  && Qltb (rect_left r) x && Qltb x (rect_right r) = true
  <-> strictlyInside r x y.
Proof.
  unfold strictlyInside. rewrite !andb_true_iff, !Qltb_lt. tauto.
Qed.

Lemma createClickHandler_run d event w :
  createClickHandler d event w =
  if bool_decide (target event = TargetDialog d) then
    match policyOf w d with
    | PolicyAny =>
        let r := boundingRect (elements w d) in
        if Qltb (rect_top r) (clientY event) && Qltb (clientY event) (rect_bottom r)
           && Qltb (rect_left r) (clientX event) && Qltb (clientX event) (rect_right r)
        then Return tt w else call_close d w
    | _ => Return tt w
    end
  else Return tt w.
Proof.
  unfold createClickHandler. case_bool_decide; [|done]. cbn [negb].
  erewrite bind_Return by apply getClosedByValue_run.
  destruct (policyOf w d); try done. cbn. js_unfold.
  by destruct (_ && _).
Qed.

(** The claim C4 fails on [handleClick] of the bundle at the edge of the
    box: the click [edgeClick] on dialog 1 of [modalPage] (policy [Any], box
    from 0 to 10 both ways, click at x = 5, y = 0) has the dialog as its
    target and does not lie strictly outside the box, and it closes the
    dialog. *)
Lemma click_on_edge_closes :
  target edgeClick = TargetDialog 1%positive /\
  policyOf modalPage 1%positive = PolicyAny /\
  ~ (closes (createClickHandler 1%positive edgeClick) modalPage 1%positive <->
     strictlyOutside (boundingRect (elements modalPage 1%positive))
                     (clientX edgeClick) (clientY edgeClick)).
Proof.
  split; [reflexivity|]. split; [reflexivity|].
  intros [Hclosed _].
  assert (closes (createClickHandler 1%positive edgeClick) modalPage 1%positive) as Hc
    by (split; vm_compute; reflexivity).
  destruct (Hclosed Hc) as [H|[H|[H|H]]]; vm_compute in H; discriminate.
Qed.

(** C4. What [handleClick] of the bundle does. A click whose target is not
    the dialog itself (a descendant, say) does nothing, whatever the policy;
    a click on the dialog itself does nothing at policy [RequestOnly] or
    [None]: so far the claim holds. At policy [Any] the handler does nothing
    when the click lies strictly inside the box the dialog has at the time
    of the click, and otherwise calls [dialog.close()], which with the
    polyfill installed leaves the dialog not open and not tracked. So an
    open dialog at policy [Any] is closed iff the click is not strictly
    inside, and not, as the claim has it, iff the click is strictly outside:
    a click on an edge of the box, which is neither, closes the dialog. The
    handlers of the other builds compare with [<=] and keep the dialog open
    there. *)
Theorem backdrop_click_closes_unless_inside
    (d : Dialog) (event : MouseEvent) (w : World) :
  let r := boundingRect (elements w d) in
  (target event <> TargetDialog d -> createClickHandler d event w = Return tt w) /\
  (policyOf w d <> PolicyAny -> createClickHandler d event w = Return tt w) /\
  (target event = TargetDialog d -> policyOf w d = PolicyAny ->
     (strictlyInside r (clientX event) (clientY event) ->
        createClickHandler d event w = Return tt w) /\
     (~ strictlyInside r (clientX event) (clientY event) ->
        createClickHandler d event w = call_close d w /\
        (installed w ->
           exists w', createClickHandler d event w = Return tt w' /\
                      open (elements w' d) = false /\ ~ tracked w' d /\
                      forall d', d' <> d -> elements w' d' = elements w d')) /\
     (installed w -> open (elements w d) = true ->
        (closes (createClickHandler d event) w d <->
         ~ strictlyInside r (clientX event) (clientY event)) /\
        (~ strictlyInside r (clientX event) (clientY event) ->
         ~ strictlyOutside r (clientX event) (clientY event) ->
         closes (createClickHandler d event) w d /\
         ~ (closes (createClickHandler d event) w d <->
            strictlyOutside r (clientX event) (clientY event))))).
Proof.
  intros r. pose proof (createClickHandler_run d event w) as Hrun.
  split. { intros H. by rewrite Hrun, bool_decide_eq_false_2. }
  split. { intros H. rewrite Hrun. case_bool_decide; [|done].
           by destruct (policyOf w d). }
  intros Ht Hp. rewrite bool_decide_eq_true_2, Hp in Hrun by done.
  cbn zeta in Hrun. fold r in Hrun.
  pose proof (inside_strictlyInside r (clientX event) (clientY event)) as Hin.
  assert (~ strictlyInside r (clientX event) (clientY event) ->
          installed w ->
          exists w', call_close d w = Return tt w' /\
            open (elements w' d) = false /\ ~ tracked w' d /\
            forall d', d' <> d -> elements w' d' = elements w d') as Hclose.
  { intros _ Hinst. rewrite call_close_installed by done.
    destruct (closePatched_run d w) as (w' & Hc & Hopen & Hbut & _ & Hst & _).
    exists w'. split; [done|]. split; [done|]. split; [|exact Hbut].
    apply not_tracked_lookup. rewrite Hst. apply lookup_delete_eq. }
  destruct (_ && _) eqn:E in Hrun, Hin.
  - assert (strictlyInside r (clientX event) (clientY event)) as Hs by by apply Hin.
    split; [done|]. split; [done|].
    intros _ Hopen. split; [|done]. unfold closes. rewrite Hrun. cbn.
    split; [|done]. intros [_ ?]. congruence.
  - assert (~ strictlyInside r (clientX event) (clientY event)) as Hs
      by (rewrite <- Hin; congruence).
    split; [done|].
    split. { intros _. split; [done|]. rewrite Hrun. by apply Hclose. }
    intros Hinst Hopen.
    assert (closes (createClickHandler d event) w d) as Hcl.
    { destruct (Hclose Hs Hinst) as (w' & Hc & Hopen' & _).
      unfold closes. by rewrite Hrun, Hc. }
    split; [done|]. intros _ Hout. split; [done|]. intros [Hiff _]. by apply Hout, Hiff.
Qed.

(** ** Opening a dialog *)

Lemma attachDialog_result d w :
  exists w', attachDialog d w = Return tt w' /\
    tracked w' d /\
    (forall d', tracked w d' -> tracked w' d') /\
    (forall d', d' ∈ activeDialogs w -> d' ∈ activeDialogs w') /\
    sameAttributes w w' /\ sameGlobals w w'.
Proof.
  destruct (dialogStates w !! d) as [st|] eqn:E.
  - exists w. split; [apply attachDialog_tracked; by exists st|].
    split; [by exists st|]. split; [done|]. split; [done|].
    split; [apply sameAttributes_refl|apply sameGlobals_refl].
  - destruct (attachDialog_untracked d w E)
      as (w' & st & Hrun & Hst & Hact & Hattr & _ & Hglob & _).
    exists w'. split; [done|]. unfold tracked. rewrite Hst, Hact.
    split. { rewrite lookup_insert_eq. by eexists. }
    split. { intros d' H. rewrite lookup_insert_is_Some.
             destruct (decide (d = d')); auto. }
    split. { intros d' H. apply elem_of_Set_add. by right. }
    done.
Qed.

(** C8. After the native [showModal] has run, the patched [showModal]
    rethrows what it threw; if it returned and the dialog is not open, the
    call returns the world the native call left: no listener is added and no
    record is created; if the dialog is open, [attachDialog] is called when
    the dialog carries the [closedby] attribute (and the dialog is tracked
    afterwards) and nothing is done when it does not. The native call
    itself never touches the records or the stack. *)
Theorem showModalPatched_guards_open (d : Dialog) (w : World) :
  let r := originalShowModal w d (elements w) in
  let w1 := set_elements (snd r) w in
  (dialogStates w1 = dialogStates w /\ activeDialogs w1 = activeDialogs w) /\
  match fst r with
  | Some e => showModalPatched d w = Throw e w1
  | None =>
      (open (elements w1 d) = false ->
         showModalPatched d w = Return tt w1) /\
      (open (elements w1 d) = true -> closedby (elements w1 d) = None ->
         showModalPatched d w = Return tt w1) /\
      (open (elements w1 d) = true -> is_Some (closedby (elements w1 d)) ->
         showModalPatched d w = attachDialog d w1 /\
         exists w', showModalPatched d w = Return tt w' /\ tracked w' d)
  end.
Proof.
  intros r w1. split; [done|].
  assert (call_originalShowModal d w
          = match fst r with
            | None => Return tt w1
            | Some e => Throw e w1
            end) as Hnative by reflexivity.
  unfold showModalPatched.
  destruct (fst r) as [e|].
  - by erewrite bind_Throw by exact Hnative.
  - erewrite bind_Return by exact Hnative. js_unfold.
    split; [by intros ->|].
    split. { intros -> Hnone. cbn beta iota delta [negb].
             rewrite Hnone. by rewrite bool_decide_eq_false_2 by by intros [? ?]. }
    intros -> Hattr. cbn beta iota delta [negb].
    rewrite bool_decide_eq_true_2 by done.
    split; [done|].
    destruct (attachDialog_result d w1) as (w' & Hrun & Ht & _).
    by exists w'.
Qed.

(** ** Writing the property *)

Lemma isRecognized_literal value : isRecognized value = true <-> recognizedLiteral value.
Proof.
  unfold recognizedLiteral. destruct value as [s|t|e]; cbn.
  - rewrite !orb_true_iff, !String.eqb_eq. split.
    + intros [[->| ->]| ->]; auto.
    + intros [H|[H|H]]; injection H as ->; auto.
  - split; [done|]. by intros [?|[?|?]].
  - split; [done|]. by intros [?|[?|?]].
Qed.

Lemma stored_literal value : recognizedLiteral value -> value = JSString (stored value).
Proof. unfold stored. intros [->|[->| ->]]; repeat case_decide; done. Qed.

Lemma stored_fallback value : ~ recognizedLiteral value -> stored value = "any".
Proof.
  unfold stored, recognizedLiteral. intros H. repeat case_decide; tauto.
Qed.

Lemma resolvePolicy_stored value : resolvePolicy (Some (stored value)) = policyWritten value.
Proof. unfold stored, policyWritten. by repeat case_decide. Qed.

Lemma closedBy_set_run d value text w :
  value = JSString text \/ value = JSOther text ->
  closedBy_set d value w
  = if open (elements w d) then attachDialog d (afterWrite d value text w)
    else Return tt (afterWrite d value text w).
Proof.
  intros Hv. unfold closedBy_set, afterWrite.
  pose proof (isRecognized_literal value) as Hrec.
  destruct (isRecognized value) eqn:E.
  - assert (recognizedLiteral value) as Hlit by by apply Hrec.
    rewrite decide_True by done.
    assert (value = JSString (stored value)) as Hs by by apply stored_literal.
    assert (text = stored value) as -> by (destruct Hv as [Hv|Hv]; congruence).
    rewrite Hs at 1. js_unfold. cbn [toString]. js_unfold. world_simpl.
    rewrite decide_True by done. cbn [open set_closedby].
    destruct (open (elements w d)); [|done].
    rewrite bool_decide_eq_true_2; [done|].
    rewrite elements_update_eq. by eexists.
  - assert (~ recognizedLiteral value) as Hlit by (rewrite <- Hrec; congruence).
    rewrite decide_False by done. rewrite (stored_fallback value Hlit).
    assert (toString value = ret text) as -> by (by destruct Hv as [-> | ->]).
    js_unfold. cbn [toString]. js_unfold. world_simpl.
    rewrite decide_True by done. cbn [open set_closedby].
    destruct (open (elements w d)); [|done].
    rewrite bool_decide_eq_true_2; [done|].
    rewrite elements_update_eq. by eexists.
Qed.

Lemma closedBy_set_unprintable d e w :
  closedBy_set d (JSUnprintable e) w = Throw e w.
Proof. reflexivity. Qed.

Lemma afterWrite_tracking d value text w :
  dialogStates (afterWrite d value text w) = dialogStates w /\
  activeDialogs (afterWrite d value text w) = activeDialogs w /\
  HTMLDialogElement (afterWrite d value text w) = HTMLDialogElement w.
Proof. unfold afterWrite. by case_decide. Qed.

Lemma afterWrite_elements d value text w d' :
  elements (afterWrite d value text w) d'
  = if decide (d' = d) then set_closedby (Some (stored value)) (elements w d')
    else elements w d'.
Proof. unfold afterWrite. by case_decide. Qed.

Lemma convertible_text value :
  convertible value -> exists text, value = JSString text \/ value = JSOther text.
Proof.
  intros H. destruct value as [s|t|e]; [by exists s; left|by exists t; right|].
  by destruct (H e).
Qed.

(** C10. What a write to [closedBy] does, for every value. A value that
    can be converted to a string is written as the claim has it: the write
    returns and leaves the attribute present, holding "closerequest" or
    "none" when that literal was written and "any" for "any" and for
    everything else; on an open dialog the setter is then the write followed
    by [attachDialog], never by [detachDialog], and the dialog is tracked
    afterwards. A value whose conversion throws (a symbol) is not written at
    all: building the warning throws before [setAttribute] is reached, the
    error leaves the setter and the world is as it was, so a dialog without
    the attribute is still without it. In no case does a dialog that was
    tracked or on the stack lose its place. *)
Theorem closedBy_set_keeps_tracking (d : Dialog) (value : JSValue) (w : World) :
  (convertible value ->
   exists w1 w',
     closedby (elements w1 d) = Some (stored value) /\
     open (elements w1 d) = open (elements w d) /\
     dialogStates w1 = dialogStates w /\ activeDialogs w1 = activeDialogs w /\
     closedBy_set d value w
       = (if open (elements w d) then attachDialog d w1 else Return tt w1) /\
     closedBy_set d value w = Return tt w' /\
     closedby (elements w' d) = Some (stored value) /\
     (open (elements w d) = true -> tracked w' d)) /\
  (forall e, value = JSUnprintable e ->
     closedBy_set d value w = Throw e w /\
     closedby (elements (world_after (closedBy_set d value w)) d)
     = closedby (elements w d)) /\
  (forall d', tracked w d' -> tracked (world_after (closedBy_set d value w)) d') /\
  (forall d', d' ∈ activeDialogs w ->
              d' ∈ activeDialogs (world_after (closedBy_set d value w))).
Proof.
  assert (convertible value ->
          exists w1 w',
            closedby (elements w1 d) = Some (stored value) /\
            open (elements w1 d) = open (elements w d) /\
            dialogStates w1 = dialogStates w /\ activeDialogs w1 = activeDialogs w /\
            closedBy_set d value w
              = (if open (elements w d) then attachDialog d w1 else Return tt w1) /\
            closedBy_set d value w = Return tt w' /\
            closedby (elements w' d) = Some (stored value) /\
            (open (elements w d) = true -> tracked w' d) /\
            (forall d', tracked w d' -> tracked w' d') /\
            (forall d', d' ∈ activeDialogs w -> d' ∈ activeDialogs w')) as Hconv.
  { intros [text Hv]%convertible_text.
    pose proof (closedBy_set_run d value text w Hv) as Hrun.
    set (w1 := afterWrite d value text w) in *.
    destruct (afterWrite_tracking d value text w) as (Hs1 & Ha1 & _). fold w1 in Hs1, Ha1.
    assert (closedby (elements w1 d) = Some (stored value)) as Hc1
      by (unfold w1; by rewrite afterWrite_elements, decide_True by done).
    assert (open (elements w1 d) = open (elements w d)) as Ho1
      by (unfold w1; by rewrite afterWrite_elements, decide_True by done).
    destruct (attachDialog_result d w1)
      as (w' & Hatt & Ht & Hmono & Hstack & Hattr & _).
    exists w1.
    destruct (open (elements w d)) eqn:Hopen.
    - exists w'. split; [done|]. split; [done|]. split; [done|]. split; [done|].
      split; [done|]. split; [by rewrite Hrun|].
      split. { destruct (Hattr d) as (_ & -> & _). done. }
      split; [done|].
      split. { intros d' H. apply Hmono. unfold tracked. by rewrite Hs1. }
      intros d' H. apply Hstack. by rewrite Ha1.
    - exists w1. split; [done|]. split; [done|]. split; [done|]. split; [done|].
      split; [done|]. split; [done|]. split; [done|]. split; [done|].
      split. { intros d' H. unfold tracked. by rewrite Hs1. }
      intros d' H. by rewrite Ha1. }
  split.
  { intros Hc. destruct (Hconv Hc) as (w1 & w' & H1 & H2 & H3 & H4 & H5 & H6 & H7 & H8 & _).
    by exists w1, w'. }
  split. { intros e ->. by rewrite closedBy_set_unprintable. }
  destruct value as [s|t|e].
  - destruct Hconv as (w1 & w' & _ & _ & _ & _ & _ & -> & _ & _ & Ht & Ha);
      [by intros e|]. by split.
  - destruct Hconv as (w1 & w' & _ & _ & _ & _ & _ & -> & _ & _ & Ht & Ha);
      [by intros e|]. by split.
  - by rewrite closedBy_set_unprintable.
Qed.

(** ** Initialization *)

Lemma steady_ret {A} (a : A) : steady (ret a).
Proof. intros w. exists a, w. split; [done|apply sameGlobals_refl]. Qed.

Lemma steady_gets {A} (f : World -> A) : steady (gets f).
Proof. intros w. exists (f w), w. split; [done|apply sameGlobals_refl]. Qed.

Lemma steady_bind {A B} (m : JS A) (k : A -> JS B) :
  steady m -> (forall a, steady (k a)) -> steady (bind m k).
Proof.
  intros Hm Hk w. destruct (Hm w) as (a & w1 & Hrun & Hg1).
  destruct (Hk a w1) as (b & w2 & Hrun2 & Hg2).
  exists b, w2. split; [by erewrite bind_Return by exact Hrun|].
  by eapply sameGlobals_trans.
Qed.

Lemma steady_forEach {A} (l : list A) (f : A -> JS unit) :
  (forall x, steady (f x)) -> steady (forEach l f).
Proof.
  intros Hf. induction l as [|x l IH]; cbn [forEach].
  - apply steady_ret.
  - apply steady_bind; [apply Hf|]. intros _. apply IH.
Qed.

Lemma attachDialog_steady d : steady (attachDialog d).
Proof.
  intros w. destruct (attachDialog_result d w) as (w' & Hrun & _ & _ & _ & _ & Hg).
  by exists tt, w'.
Qed.

Lemma attachIfOpen_steady d : steady (attachIfOpen d).
Proof.
  unfold attachIfOpen, get_open. apply steady_bind; [apply steady_gets|].
  intros [|]; [apply attachDialog_steady|apply steady_ret].
Qed.

(** With a body in the document, [observeRoot] returns. *)
Lemma observeRoot_returns root w :
  is_Some (documentBody w) ->
  exists w', observeRoot root w = Return tt w' /\ sameGlobals w w'.
Proof.
  intros [b Hb]. unfold observeRoot, root_querySelectorAll_dialog, with_closedby.
  erewrite bind_Return by reflexivity. erewrite bind_Return by reflexivity.
  destruct (steady_forEach
              (filter (λ d, is_Some (closedby (elements w d)))
                 match root with
                 | DocumentRoot => documentDialogs w
                 | ShadowRoot s => flat_map dialogsIn (shadowTrees w s)
                 end)
              attachIfOpen attachIfOpen_steady w) as ([] & w1 & Hrun & Hg).
  erewrite bind_Return by exact Hrun.
  erewrite bind_Return by reflexivity.
  destruct Hg as (Hg1 & Hg2 & Hg3 & Hg4 & Hg5 & Hg6 & Hg7). rewrite Hg3, Hb.
  eexists. split; [by destruct root|]. by repeat split.
Qed.

Lemma setupObservers_returns w :
  is_Some (documentBody w) ->
  exists w', setupObservers w = Return tt w' /\
             HTMLDialogElement w' = HTMLDialogElement w /\
             polyfilled w' = polyfilled w.
Proof.
  intros Hb. unfold setupObservers.
  destruct (observeRoot_returns DocumentRoot w Hb) as (w1 & Hrun1 & Hg1).
  erewrite bind_Return by exact Hrun1.
  erewrite bind_Return by reflexivity.
  assert (is_Some (documentBody w1)) as [b Hb1]
    by (destruct Hg1 as (_ & _ & -> & _); done).
  rewrite Hb1.
  assert (forall l w2, documentBody w2 = Some b ->
            exists w3, forEach l (fun s => observeRoot (ShadowRoot s)) w2
                       = Return tt w3 /\ sameGlobals w2 w3) as Hloop.
  { induction l as [|s l IH]; intros w2 Hb2.
    - exists w2. split; [done|apply sameGlobals_refl].
    - cbn [forEach].
      destruct (observeRoot_returns (ShadowRoot s) w2) as (w3 & Hr & Hg);
        [by rewrite Hb2|].
      erewrite bind_Return by exact Hr.
      destruct (IH w3) as (w4 & Hr4 & Hg4).
      { destruct Hg as (_ & _ & -> & _). done. }
      exists w4. split; [done|]. by eapply sameGlobals_trans. }
  destruct (Hloop (findShadowRoots b) w1 Hb1) as (w3 & Hr3 & Hg3).
  erewrite bind_Return by exact Hr3.
  eexists. split; [reflexivity|]. world_simpl.
  destruct Hg1 as (E1 & _ & _ & _ & _ & _ & F1), Hg3 as (E3 & _ & _ & _ & _ & _ & F3).
  split; congruence.
Qed.

(** A second call of [apply], or any call once [polyfilled] is set, does nothing. *)
Lemma apply_when_polyfilled w : polyfilled w = true -> apply w = Return tt w.
Proof. intros H. unfold apply. js_unfold. by rewrite H. Qed.

(** On a host that implements [closedBy] natively [apply] does nothing. *)
Lemma apply_when_supported w i :
  HTMLDialogElement w = Some i -> prototypeKind i = ProtoObject ->
  hasClosedBy i = true -> apply w = Return tt w.
Proof.
  intros Hi Hk Hc. unfold apply, isSupported. js_unfold.
  destruct (polyfilled w); [done|]. by rewrite Hi, Hk, Hc.
Qed.

(** A host whose [HTMLDialogElement.prototype] lacks [showModal] gets a
    warning and nothing else. *)
Lemma apply_without_showModal w i :
  polyfilled w = false -> HTMLDialogElement w = Some i ->
  prototypeKind i <> ProtoPrimitive -> hasClosedBy i = false ->
  hasShowModal i = false ->
  apply w = Return tt
    (set_console
       (console w ++
        ["[closedBy polyfill] <dialog> API not found – polyfill skipped."])%list w).
Proof.
  intros Hp Hi Hk Hc Hs. unfold apply, isSupported, showModal_in_prototype.
  js_unfold. rewrite Hp, Hi, Hc.
  destruct (prototypeKind i) eqn:Ek; try done;
    cbn beta iota; rewrite Hi, Ek; cbn beta iota; by rewrite Hs.
Qed.

(** On a host with the native dialog and a document body [apply] installs
    the polyfill. *)
Lemma apply_installs w i :
  polyfilled w = false -> HTMLDialogElement w = Some i ->
  prototypeKind i <> ProtoPrimitive -> hasClosedBy i = false ->
  hasShowModal i = true -> is_Some (documentBody w) ->
  exists w', apply w = Return tt w' /\ polyfilled w' = true /\ installed w' /\
             apply w' = Return tt w'.
Proof.
  intros Hp Hi Hk Hc Hs Hb.
  set (w1 := set_HTMLDialogElement (patchPrototype <$> HTMLDialogElement w) w).
  destruct (setupObservers_returns w1 Hb) as (w2 & Hrun & Hg & Hpf).
  assert (apply w = Return tt (set_polyfilled true w2)) as Happly.
  { unfold apply, isSupported, showModal_in_prototype.
    erewrite bind_Return by reflexivity. rewrite Hp.
    erewrite bind_Return by reflexivity. rewrite Hi, Hc.
    assert ((match prototypeKind i with ProtoObject => false | _ => false end)
            = false) as -> by by destruct (prototypeKind i).
    erewrite bind_Return by (js_unfold; rewrite Hi; destruct (prototypeKind i); done).
    rewrite Hs. cbn [negb].
    erewrite bind_Return by reflexivity. fold w1.
    erewrite bind_Return by exact Hrun. reflexivity. }
  exists (set_polyfilled true w2). split; [done|]. split; [done|].
  split. { exists (patchPrototype i). world_simpl. rewrite Hg. unfold w1.
           world_simpl. by rewrite Hi. }
  by apply apply_when_polyfilled.
Qed.

(** C9, at a host without any dialog: where the global [HTMLDialogElement]
    is not defined, [apply] (and with it the module body) does not decline
    with a warning: it throws a ReferenceError out of
    ["showModal" in HTMLDialogElement.prototype]. Nothing is patched, nothing
    is written to the console and [isPolyfilled] still answers false. *)
Theorem apply_throws_without_dialog_global (w : World) :
  polyfilled w = false -> HTMLDialogElement w = None ->
  apply w = Throw (ReferenceError "HTMLDialogElement is not defined") w /\
  moduleInit w = Throw (ReferenceError "HTMLDialogElement is not defined") w /\
  isSupported w = Return false w /\
  isPolyfilled w = Return false w.
Proof.
  intros Hp Hi.
  assert (apply w = Throw (ReferenceError "HTMLDialogElement is not defined") w)
    as Happly.
  { unfold apply, isSupported, showModal_in_prototype. js_unfold.
    rewrite Hp, Hi. cbn beta iota. by rewrite Hi. }
  split; [done|].
  split. { unfold moduleInit, isSupported. js_unfold. rewrite Hi. exact Happly. }
  split. { unfold isSupported. js_unfold. by rewrite Hi. }
  unfold isPolyfilled. js_unfold. by rewrite Hp.
Qed.

(** ** Tracking begins with the installation *)

Lemma installedb_true w : installedb w = true <-> installed w.
Proof.
  unfold installedb, installed. destruct (HTMLDialogElement w) as [i|].
  - split; [intros H; by exists i|]. intros (i' & [= <-] & H). done.
  - split; [done|]. intros (i' & [=] & _).
Qed.

Lemma originalClose_quiet d w : quiet w -> quiet (world_after (originalClose d w)).
Proof.
  intros H. unfold originalClose. js_unfold.
  destruct (negb (open (elements w d))); exact H.
Qed.

Lemma call_close_quiet d w :
  installedb w = false -> quiet w -> quiet (world_after (call_close d w)).
Proof.
  unfold installedb, call_close. js_unfold. intros Hn H.
  destruct (HTMLDialogElement w) as [i|]; [|exact H]. rewrite Hn.
  destruct (hasShowModal i); [by apply originalClose_quiet|exact H].
Qed.

Lemma call_showModal_quiet d w :
  installedb w = false -> quiet w -> quiet (world_after (call_showModal d w)).
Proof.
  unfold installedb, call_showModal. js_unfold. intros Hn H.
  destruct (HTMLDialogElement w) as [i|]; [|exact H]. rewrite Hn.
  destruct (hasShowModal i); [|exact H].
  unfold call_originalShowModal.
  destruct (fst (originalShowModal w d (elements w))); exact H.
Qed.

(** [apply], case by case. *)
Lemma apply_run w :
  apply w =
  let install i :=
    if hasShowModal i then
      (modify (fun w => set_HTMLDialogElement
                          (patchPrototype <$> HTMLDialogElement w) w) ;;
       setupObservers ;;
       modify (set_polyfilled true)) w
    else
      Return tt
        (set_console
           (console w ++
            ["[closedBy polyfill] <dialog> API not found – polyfill skipped."])%list
           w) in
  if polyfilled w then Return tt w
  else
    match HTMLDialogElement w with
    | None => Throw (ReferenceError "HTMLDialogElement is not defined") w
    | Some i =>
        match prototypeKind i with
        | ProtoObject => if hasClosedBy i then Return tt w else install i
        | ProtoFunction => install i
        | ProtoPrimitive => Throw (TypeError "cannot use 'in' operator") w
        end
    end.
Proof.
  cbn zeta. unfold apply.
  erewrite bind_Return by reflexivity.
  destruct (polyfilled w); [done|].
  unfold isSupported, showModal_in_prototype.
  erewrite bind_Return by reflexivity.
  destruct (HTMLDialogElement w) as [i|] eqn:Hi.
  - destruct (prototypeKind i) eqn:Hk.
    + destruct (hasClosedBy i); [done|].
      erewrite bind_Return by (js_unfold; by rewrite Hi, Hk).
      by destruct (hasShowModal i).
    + erewrite bind_Return by (js_unfold; by rewrite Hi, Hk).
      by destruct (hasShowModal i).
    + by erewrite bind_Throw by (js_unfold; by rewrite Hi, Hk).
  - by erewrite bind_Throw by (js_unfold; by rewrite Hi).
Qed.

Lemma apply_quiet w :
  quiet w -> installed (world_after (apply w)) \/ quiet (world_after (apply w)).
Proof.
  intros H. rewrite apply_run. cbn zeta.
  assert (forall i, HTMLDialogElement w = Some i -> hasShowModal i = true ->
            installed
              (world_after
                 ((modify (fun w => set_HTMLDialogElement
                                      (patchPrototype <$> HTMLDialogElement w) w) ;;
                   setupObservers ;;
                   modify (set_polyfilled true)) w))) as Hinstall.
  { intros i Hi Hs. erewrite bind_Return by reflexivity.
    apply (preserves_bind installed).
    - apply (setupObservers_preserves installed installed_reads
               attachDialog_installed).
    - intros _. apply preserves_modify. intros w' Hw'. exact Hw'.
    - exists (patchPrototype i). cbn. by rewrite Hi. }
  destruct (polyfilled w); [by right|].
  destruct (HTMLDialogElement w) as [i|] eqn:Hi; [|by right].
  destruct (prototypeKind i); [destruct (hasClosedBy i); [by right|]| |by right];
    (destruct (hasShowModal i) eqn:Hs; [left; by apply (Hinstall i)|by right]).
Qed.

Lemma step_quiet w op :
  quiet w -> enabled w op -> installed (step w op) \/ quiet (step w op).
Proof.
  intros Hq Hen. destruct (installedb w) eqn:Hb.
  { left. apply runOp_installed. by apply installedb_true. }
  assert (~ installed w) as Hni by (rewrite <- installedb_true; congruence).
  destruct op; cbn [enabled] in Hen; try done; unfold step; cbn [runOp];
    try (by apply apply_quiet); right.
  - by apply call_showModal_quiet.
  - by apply call_close_quiet.
  - assert (documentEscapeHandler event w = Return event w) as Hrun.
    { unfold documentEscapeHandler. js_unfold.
      destruct Hq as (? & Ha & ?). rewrite Ha. cbn [length Nat.eqb].
      by rewrite orb_true_r. }
    by erewrite bind_Return by exact Hrun.
  - rewrite createClickHandler_run. case_bool_decide; [|done].
    destruct (policyOf w d); try done. cbn zeta.
    destruct (_ && _); [done|]. by apply call_close_quiet.
  - by erewrite bind_Return by apply createCancelHandler_run.
  - destruct Hq as (_ & _ & Hr & _). done.
  - destruct Hq as (_ & _ & _ & Hs). congruence.
  - exact Hq.
Qed.

(** On a page that loaded the module, whatever it then does, dialogs are
    tracked only once the polyfill is installed. *)
Lemma reachable_installed_or_quiet els global native body w :
  reachable (page els global native body) w -> installed w \/ quiet w.
Proof.
  induction 1 as [|w op Hr [IH|IH] Hen].
  - right. by repeat split.
  - left. by apply runOp_installed.
  - by apply step_quiet.
Qed.

(** On a page that loaded the module, whatever it then does, a non-empty
    Escape stack means that the polyfill has patched [showModal] and [close]. *)
Theorem reachable_tracked_installed
    (els : Dialog -> Element) (global : option DialogInterface)
    (native : NativeShowModal) (body : option Node) (w : World) :
  reachable (page els global native body) w ->
  activeDialogs w <> [] -> installed w.
Proof.
  intros Hr Hne. destruct (reachable_installed_or_quiet _ _ _ _ _ Hr) as [|Hq];
    [done|]. destruct Hq as (_ & Ha & _). done.
Qed.




(** ** The theorems at work on the sample pages *)

Lemma appliedPage_invariant : stackInvariant appliedPage.
Proof. apply (runOp_invariant OpApply), page_invariant. Qed.

Lemma appliedPage_installed : installed appliedPage.
Proof. eexists. split; [vm_compute; reflexivity|reflexivity]. Qed.

Lemma modalPage_installed : installed modalPage.
Proof. eexists. split; [vm_compute; reflexivity|reflexivity]. Qed.



(** C2 on [appliedPage] with the dialogs 1, 2 and 3. *)
Lemma escape_stack_order_witness :
  exists w3 w4 w5,
    (attachDialog 1%positive ;; attachDialog 2%positive ;; attachDialog 3%positive)
      appliedPage = Return tt w3 /\
    documentEscapeHandler escapeKey w3 = Return (key_preventDefault escapeKey) w4 /\
    activeDialogs w4 = [1%positive; 2%positive] /\
    open (elements w4 3%positive) = false /\
    documentEscapeHandler escapeKey w4 = Return (key_preventDefault escapeKey) w5 /\
    activeDialogs w5 = [1%positive] /\
    open (elements w5 2%positive) = false.
Proof.
  assert (forall d, ~ tracked appliedPage d) as Hfresh.
  { intros d [st Hst]. vm_compute in Hst. discriminate. }
  destruct (escape_stack_order appliedPage 1%positive 2%positive 3%positive
              escapeKey escapeKey)
    as (w3 & w4 & w5 & H3 & _ & H4 & Ho4 & _ & _ & _ & _ & Ha4 & H5 & Ho5 & _ & _ & _ & Ha5);
    try done.
  - apply appliedPage_invariant.
  - apply appliedPage_installed.
  - exists w3, w4, w5. repeat split; assumption.
Defined.

(** C3 on [appliedPage]: three calls of [attachDialog] on dialog 1. *)
Lemma attachDialog_idempotent_witness :
  stackInvariant appliedPage /\
  exists w',
    attachTimes 3 1%positive appliedPage = Return tt w' /\
    attachDialog 1%positive appliedPage = Return tt w' /\
    length (filter (λ x, x = 1%positive) (activeDialogs w')) = 1.
Proof.
  split; [apply appliedPage_invariant|].
  destruct (attachDialog_idempotent 1%positive appliedPage appliedPage_invariant)
    as (_ & Hn).
  destruct (Hn 2) as (w' & st & Htimes & Hone & _ & _ & Hlen & _).
  exists w'. split; [exact Htimes|]. split; [exact Hone|exact Hlen].
Defined.

(** C4 on [modalPage], at the failing input [edgeClick]: the click on the
    top edge of dialog 1 is not strictly outside the box and closes the
    dialog; the click [backdropClick], strictly outside, closes it too. *)
Lemma backdrop_click_closes_unless_inside_witness :
  target edgeClick = TargetDialog 1%positive /\
  policyOf modalPage 1%positive = PolicyAny /\
  ~ strictlyOutside (boundingRect (elements modalPage 1%positive))
                    (clientX edgeClick) (clientY edgeClick) /\
  closes (createClickHandler 1%positive edgeClick) modalPage 1%positive /\
  closes (createClickHandler 1%positive backdropClick) modalPage 1%positive.
Proof.
  assert (~ strictlyOutside (boundingRect (elements modalPage 1%positive))
                            (clientX edgeClick) (clientY edgeClick)) as Hout.
  { intros [H|[H|[H|H]]]; vm_compute in H; discriminate. }
  assert (~ strictlyInside (boundingRect (elements modalPage 1%positive))
                           (clientX edgeClick) (clientY edgeClick)) as Hin.
  { intros (H & _). vm_compute in H. discriminate. }
  split; [reflexivity|]. split; [reflexivity|]. split; [exact Hout|].
  split.
  - destruct (backdrop_click_closes_unless_inside 1%positive edgeClick modalPage)
      as (_ & _ & H).
    destruct (H eq_refl eq_refl) as (_ & _ & Hedge).
    destruct (Hedge modalPage_installed eq_refl) as (_ & Hcl).
    exact (proj1 (Hcl Hin Hout)).
  - destruct (backdrop_click_closes_unless_inside 1%positive backdropClick modalPage)
      as (_ & _ & H).
    destruct (H eq_refl eq_refl) as (_ & _ & Hiff).
    destruct (Hiff modalPage_installed eq_refl) as (Hiff' & _).
    apply Hiff'. intros (_ & H' & _). vm_compute in H'. discriminate.
Defined.

(** C6 on a run that opens, reconfigures, dismisses and detaches. *)
Lemma stack_mirrors_records_witness :
  stackInvariant openPage /\
  let w' := run [OpApply; OpShowModal 1%positive; OpShowModal 2%positive;
                 OpAttach 2%positive; OpSetClosedBy 1%positive (JSString "none");
                 OpKeydown escapeKey; OpDetach 1%positive; OpDetach 1%positive;
                 OpClose 2%positive] openPage in
  NoDup (activeDialogs w') /\
  forall d, (d ∈ activeDialogs w' /\ tracked w' d) \/
            ((d ∉ activeDialogs w') /\ ~ tracked w' d).
Proof.
  split; [apply page_invariant|].
  apply (stack_mirrors_records _ openPage). apply page_invariant.
Defined.

(** C7 on [modalPage]: detaching dialog 2, which was never attached. *)
Lemma detachDialog_idempotent_witness :
  ~ tracked modalPage 2%positive /\
  detachDialog 2%positive modalPage = Return tt modalPage.
Proof.
  assert (~ tracked modalPage 2%positive) as Hn.
  { intros [st Hst]. vm_compute in Hst. discriminate. }
  split; [exact Hn|].
  exact (proj2 (detachDialog_idempotent 2%positive modalPage) Hn).
Defined.

(** C9 on [legacyPage]. *)
Lemma apply_throws_without_dialog_global_witness :
  polyfilled legacyPage = false /\
  HTMLDialogElement legacyPage = None /\
  apply legacyPage
    = Throw (ReferenceError "HTMLDialogElement is not defined") legacyPage /\
  moduleInit legacyPage
    = Throw (ReferenceError "HTMLDialogElement is not defined") legacyPage.
Proof.
  split; [reflexivity|]. split; [reflexivity|].
  destruct (apply_throws_without_dialog_global legacyPage)
    as (Happly & Hinit & _); [reflexivity|reflexivity|].
  split; [exact Happly|exact Hinit].
Defined.

(** C10 at its failing input: writing a symbol to dialog 1 of [barePage],
    which is open and has no attribute, throws and leaves the dialog without
    the attribute; writing another unrecognized value, a string, stores
    "any" and leaves the dialog tracked. *)
Lemma closedBy_set_keeps_tracking_witness :
  open (elements barePage 1%positive) = true /\
  closedby (elements barePage 1%positive) = None /\
  closedBy_set 1%positive symbolValue barePage = Throw symbolError barePage /\
  closedby (elements (world_after (closedBy_set 1%positive symbolValue barePage))
              1%positive) = None /\
  exists w',
    closedBy_set 1%positive (JSString "bogus") barePage = Return tt w' /\
    closedby (elements w' 1%positive) = Some "any" /\
    tracked w' 1%positive.
Proof.
  split; [reflexivity|]. split; [reflexivity|].
  destruct (closedBy_set_keeps_tracking 1%positive symbolValue barePage)
    as (_ & Hthrow & _).
  destruct (Hthrow symbolError eq_refl) as [Hrun Hattr].
  split; [exact Hrun|]. split; [rewrite Hattr; reflexivity|].
  destruct (closedBy_set_keeps_tracking 1%positive (JSString "bogus") barePage)
    as (Hconv & _).
  destruct Hconv as (w1 & w' & _ & _ & _ & _ & _ & Hrun' & Hattr' & Ht);
    [intros e H; discriminate H|].
  exists w'. split; [exact Hrun'|]. split; [exact Hattr'|]. exact (Ht eq_refl).
Defined.

(** C8 on [decliningPage], where the native [showModal] returns without
    opening dialog 1, and on [appliedPage], where it opens it. *)
Lemma showModalPatched_guards_open_witness :
  open (elements decliningPage 1%positive) = false /\
  showModalPatched 1%positive decliningPage = Return tt decliningPage /\
  ~ tracked decliningPage 1%positive /\
  exists w', showModalPatched 1%positive appliedPage = Return tt w' /\
             tracked w' 1%positive.
Proof.
  split; [reflexivity|].
  split.
  { destruct (showModalPatched_guards_open 1%positive decliningPage) as (_ & H).
    cbv zeta in H.
    change (fst (originalShowModal decliningPage 1%positive (elements decliningPage)))
      with (@None JSError) in H.
    destruct H as (H & _). exact (H eq_refl). }
  split. { intros [st Hst]. vm_compute in Hst. discriminate. }
  destruct (showModalPatched_guards_open 1%positive appliedPage) as (_ & H).
  cbv zeta in H.
  change (fst (originalShowModal appliedPage 1%positive (elements appliedPage)))
    with (@None JSError) in H.
  destruct H as (_ & _ & H).
  destruct H as (_ & H); [reflexivity|by eexists|]. exact H.
Defined.

(** The cancel action is suppressed exactly at policy [None]: the handler
    sets [defaultPrevented] then, leaves the event as it was otherwise, and
    never changes the world. *)
Theorem cancel_suppressed_iff_none (d : Dialog) (event : CancelEvent) (w : World) :
  exists event',
    createCancelHandler d event w = Return event' w /\
    (policyOf w d = PolicyNone -> cancelDefaultPrevented event' = true) /\
    (policyOf w d <> PolicyNone -> event' = event).
Proof.
  eexists. split; [apply createCancelHandler_run|].
  destruct (policyOf w d); split; done.
Qed.

(** [reachable_tracked_installed] on the run that leads to [modalPage]. *)
Lemma reachable_tracked_installed_witness :
  reachable openPage modalPage /\ activeDialogs modalPage <> [] /\
  installed modalPage.
Proof.
  assert (reachable openPage modalPage) as Hr.
  { apply (reachable_step openPage (step openPage OpApply) (OpShowModal 1%positive));
      [|exact I].
    apply (reachable_step openPage openPage OpApply); [|exact I].
    apply reachable_start. }
  assert (activeDialogs modalPage <> []) as Hne.
  { intros H. vm_compute in H. discriminate. }
  split; [exact Hr|]. split; [exact Hne|].
  exact (reachable_tracked_installed _ _ _ _ modalPage Hr Hne).
Defined.

(** * More of the code *)

(** ** What attaching and detaching change *)

Lemma frame_refl w : frame w w.
Proof.
  split; [apply sameAttributes_refl|]. split; [apply sameGlobals_refl|].
  by repeat split.
Qed.

Lemma frame_trans w1 w2 w3 : frame w1 w2 -> frame w2 w3 -> frame w1 w3.
Proof.
  intros (Ha & Hg & Ho1 & Ho2 & Ho3) (Ha' & Hg' & Ho1' & Ho2' & Ho3').
  split; [by eapply sameAttributes_trans|]. split; [by eapply sameGlobals_trans|].
  repeat split; congruence.
Qed.

Lemma openConfigured_same w w' d :
  sameAttributes w w' -> openConfigured w' d <-> openConfigured w d.
Proof.
  intros H. unfold openConfigured. destruct (H d) as (-> & -> & _). done.
Qed.

Lemma attachDialog_effect d w :
  exists w', attachDialog d w = Return tt w' /\
    (forall d', tracked w' d' <-> d' = d \/ tracked w d') /\ frame w w'.
Proof.
  destruct (dialogStates w !! d) as [st|] eqn:E.
  - exists w. split; [apply attachDialog_tracked; by exists st|].
    split; [|apply frame_refl]. intros d'. split; [by right|].
    intros [->|?]; [by exists st|done].
  - unfold attachDialog. js_unfold.
    rewrite bool_decide_eq_false_2 by (rewrite E; by intros [? ?]).
    eexists. split; [reflexivity|]. split.
    + intros d'. unfold tracked. world_simpl.
      rewrite lookup_insert_is_Some. destruct (decide (d = d')); naive_solver.
    + split; [intros d'; element_cases|]. by repeat split.
Qed.

Lemma detachDialog_effect d w :
  exists w', detachDialog d w = Return tt w' /\
    (forall d', tracked w' d' <-> d' <> d /\ tracked w d') /\ frame w w'.
Proof.
  destruct (dialogStates w !! d) as [st|] eqn:E.
  - unfold detachDialog. js_unfold. rewrite E.
    eexists. split; [reflexivity|]. split.
    + intros d'. unfold tracked. world_simpl.
      rewrite lookup_delete_is_Some. naive_solver.
    + split; [intros d'; element_cases|]. by repeat split.
  - exists w. split; [by apply detachDialog_untracked|].
    split; [|apply frame_refl]. intros d'. split; [|by intros [_ ?]].
    intros H. split; [|done]. intros ->. destruct H as [? ?]. congruence.
Qed.

Lemma adds_nil w : adds [] w w.
Proof.
  split; [|apply frame_refl]. intros d. split; [by left|].
  intros [?|[?%elem_of_nil _]]; done.
Qed.

Lemma adds_app S1 S2 w1 w2 w3 :
  adds S1 w1 w2 -> adds S2 w2 w3 -> adds (S1 ++ S2) w1 w3.
Proof.
  intros [H1 F1] [H2 F2]. split; [|by eapply frame_trans].
  intros d. rewrite H2, H1, elem_of_app.
  rewrite (openConfigured_same w1 w2) by apply F1. tauto.
Qed.

Lemma drops_nil w : drops [] w w.
Proof.
  split; [|apply frame_refl]. intros d. split; [|by intros [_ ?]].
  intros H. split; [apply not_elem_of_nil|done].
Qed.

Lemma drops_app S1 S2 w1 w2 w3 :
  drops S1 w1 w2 -> drops S2 w2 w3 -> drops (S1 ++ S2) w1 w3.
Proof.
  intros [H1 F1] [H2 F2]. split; [|by eapply frame_trans].
  intros d. rewrite H2, H1, elem_of_app. tauto.
Qed.

Lemma forEach_adds {A} (f : A -> JS unit) (S : A -> list Dialog) :
  (forall x w, exists w', f x w = Return tt w' /\ adds (S x) w w') ->
  forall l w, exists w', forEach l f w = Return tt w' /\ adds (flat_map S l) w w'.
Proof.
  intros Hf. induction l as [|x l IH]; intros w; cbn [forEach flat_map].
  - exists w. split; [done|apply adds_nil].
  - destruct (Hf x w) as (w1 & Hr1 & Ha1). destruct (IH w1) as (w2 & Hr2 & Ha2).
    exists w2. split; [by erewrite bind_Return by exact Hr1|].
    by eapply adds_app.
Qed.

Lemma forEach_drops {A} (f : A -> JS unit) (S : A -> list Dialog) :
  (forall x w, exists w', f x w = Return tt w' /\ drops (S x) w w') ->
  forall l w, exists w', forEach l f w = Return tt w' /\ drops (flat_map S l) w w'.
Proof.
  intros Hf. induction l as [|x l IH]; intros w; cbn [forEach flat_map].
  - exists w. split; [done|apply drops_nil].
  - destruct (Hf x w) as (w1 & Hr1 & Ha1). destruct (IH w1) as (w2 & Hr2 & Ha2).
    exists w2. split; [by erewrite bind_Return by exact Hr1|].
    by eapply drops_app.
Qed.

Lemma detachDialog_drops d w :
  exists w', detachDialog d w = Return tt w' /\ drops [d] w w'.
Proof.
  destruct (detachDialog_effect d w) as (w' & Hr & Ht & Hf).
  exists w'. split; [done|]. split; [|done]. intros d'.
  rewrite Ht, not_elem_of_cons. split; [intros [? ?]|intros [[? _] ?]]; try done.
  split; [split; [done|apply not_elem_of_nil]|done].
Qed.

(** Attaching one dialog when it is open and configured, doing nothing
    otherwise. *)
Lemma attach_when_adds d (b : bool) w :
  (b = true <-> openConfigured w d) ->
  exists w', (if b then attachDialog d else ret tt) w = Return tt w' /\
             adds [d] w w'.
Proof.
  intros Hb. destruct b.
  - destruct (attachDialog_effect d w) as (w' & Hr & Ht & Hf).
    exists w'. split; [done|]. split; [|done]. intros d'.
    rewrite Ht, list_elem_of_singleton. split.
    + intros [->|?]; [right; split; [done|by apply Hb]|by left].
    + intros [?|[-> _]]; [by right|by left].
  - exists w. split; [done|]. split; [|apply frame_refl]. intros d'.
    split; [by left|]. intros [?|[->%list_elem_of_singleton Hoc]]; [done|].
    apply Hb in Hoc. done.
Qed.

(** [querySelectorAll("dialog[closedby]")] over the dialogs [l], followed by
    [attachIfOpen] on each. *)
Lemma scan_adds l w :
  exists w', (let* ds := with_closedby l in forEach ds attachIfOpen) w
               = Return tt w' /\
             adds l w w'.
Proof.
  unfold with_closedby. erewrite bind_Return by reflexivity.
  assert (forall l w1, sameAttributes w w1 ->
            exists w', forEach (filter (λ d, is_Some (closedby (elements w d))) l)
                         attachIfOpen w1 = Return tt w' /\ adds l w1 w') as Hgen.
  { clear l. induction l as [|x l IH]; intros w1 Hs.
    - exists w1. split; [done|apply adds_nil].
    - rewrite filter_cons. case_decide as Hx.
      + cbn [forEach]. unfold attachIfOpen at 1, get_open.
        destruct (attach_when_adds x (open (elements w1 x)) w1) as (w2 & Hr2 & Ha2).
        { unfold openConfigured. destruct (Hs x) as (_ & -> & _). tauto. }
        erewrite bind_Return by (erewrite bind_Return by reflexivity; exact Hr2).
        destruct (IH w2) as (w3 & Hr3 & Ha3).
        { eapply sameAttributes_trans; [exact Hs|apply Ha2]. }
        exists w3. split; [done|].
        change (x :: l) with ([x] ++ l)%list. by eapply adds_app.
      + destruct (IH w1 Hs) as (w3 & Hr3 & Ha3). exists w3. split; [done|].
        destruct Ha3 as [Ht Hf]. split; [|done]. intros d. rewrite Ht.
        rewrite elem_of_cons. split; [tauto|].
        intros [?|[[->|?] Hoc]]; [tauto| |tauto].
        exfalso. apply Hx. destruct Hoc as [_ Hc].
        destruct (Hs x) as (_ & Hcx & _). by rewrite <- Hcx. }
  apply Hgen, sameAttributes_refl.
Qed.

(** ** The tree observers *)

Lemma addedNode_adds (node : Node) w :
  exists w',
    (match node with
     | DialogNode d _ =>
         let* isOpen := get_open d in
         let* has := hasAttribute_closedby d in
         if isOpen && has then attachDialog d else ret tt
     | _ => ret tt
     end ;;
     match node with
     | TextNode => ret tt
     | _ =>
         let* ds := with_closedby (node_querySelectorAll_dialog node) in
         forEach ds attachIfOpen
     end) w = Return tt w' /\
    adds (dialogsIn node) w w'.
Proof.
  destruct node as [d cs|sr cs|].
  - destruct (attach_when_adds d
                (open (elements w d)
                 && bool_decide (is_Some (closedby (elements w d)))) w)
      as (w1 & Hr1 & Ha1).
    { unfold openConfigured. rewrite andb_true_iff, bool_decide_eq_true. done. }
    destruct (scan_adds (node_querySelectorAll_dialog (DialogNode d cs)) w1)
      as (w2 & Hr2 & Ha2).
    exists w2. split.
    + erewrite bind_Return; [exact Hr2|].
      unfold get_open, hasAttribute_closedby.
      erewrite bind_Return by reflexivity. erewrite bind_Return by reflexivity.
      exact Hr1.
    + change (dialogsIn (DialogNode d cs))
        with ([d] ++ node_querySelectorAll_dialog (DialogNode d cs))%list.
      by eapply adds_app.
  - destruct (scan_adds (node_querySelectorAll_dialog (ElementNode sr cs)) w)
      as (w2 & Hr2 & Ha2).
    exists w2. split; [|exact Ha2].
    erewrite bind_Return by reflexivity. exact Hr2.
  - exists w. split; [done|apply adds_nil].
Qed.

Lemma removedNode_drops (node : Node) w :
  exists w',
    (match node with
     | DialogNode d _ => detachDialog d
     | _ => ret tt
     end ;;
     match node with
     | TextNode => ret tt
     | _ => forEach (node_querySelectorAll_dialog node) detachDialog
     end) w = Return tt w' /\
    drops (dialogsIn node) w w'.
Proof.
  assert (forall l w1, exists w2, forEach l detachDialog w1 = Return tt w2 /\
                                  drops l w1 w2) as Hall.
  { intros l w1.
    destruct (forEach_drops detachDialog (fun d => [d]) detachDialog_drops l w1)
      as (w2 & Hr & Hd).
    exists w2. split; [done|].
    replace l with (flat_map (fun d => [d]) l) at 1; [done|].
    clear. induction l as [|x l IH]; [done|]. cbn. by rewrite IH. }
  destruct node as [d cs|sr cs|].
  - destruct (detachDialog_drops d w) as (w1 & Hr1 & Hd1).
    destruct (Hall (node_querySelectorAll_dialog (DialogNode d cs)) w1)
      as (w2 & Hr2 & Hd2).
    exists w2. split; [by erewrite bind_Return by exact Hr1|].
    change (dialogsIn (DialogNode d cs))
      with ([d] ++ node_querySelectorAll_dialog (DialogNode d cs))%list.
    by eapply drops_app.
  - destruct (Hall (node_querySelectorAll_dialog (ElementNode sr cs)) w)
      as (w2 & Hr2 & Hd2).
    exists w2. split; [|exact Hd2]. by erewrite bind_Return by reflexivity.
  - exists w. split; [done|apply drops_nil].
Qed.

(** One mutation record: the additions, then the removals. *)
Lemma mutationRecord_effect m rest w :
  exists w1,
    rootObserverCallback (m :: rest) w = rootObserverCallback rest w1 /\
    (forall d, tracked w1 d <-> afterRecord w m (tracked w) d) /\
    frame w w1.
Proof.
  destruct (forEach_adds _ dialogsIn addedNode_adds (addedNodes m) w)
    as (wa & Hra & [Hta Hfa]).
  destruct (forEach_drops _ dialogsIn removedNode_drops (removedNodes m) wa)
    as (wr & Hrr & [Htr Hfr]).
  exists wr. split; [|split; [|by eapply frame_trans]].
  - unfold rootObserverCallback. cbn [forEach].
    erewrite bind_Return; [reflexivity|].
    erewrite bind_Return by exact Hra. exact Hrr.
  - intros d. rewrite Htr, Hta. done.
Qed.

Lemma afterBatch_iff w ms (T T' : Dialog -> Prop) :
  (forall d, T d <-> T' d) ->
  forall d, afterBatch w ms T d <-> afterBatch w ms T' d.
Proof.
  revert T T'. induction ms as [|m ms IH]; intros T T' H d; [apply H|].
  cbn [afterBatch fold_left]. apply IH. intros d'. unfold afterRecord.
  by rewrite H.
Qed.

Lemma afterRecord_same w w' m T d :
  sameAttributes w w' -> afterRecord w' m T d <-> afterRecord w m T d.
Proof.
  intros H. unfold afterRecord. by rewrite (openConfigured_same w w').
Qed.

Lemma rootObserverCallback_batch w0 ms :
  forall w, frame w0 w ->
    exists w', rootObserverCallback ms w = Return tt w' /\
      (forall d, tracked w' d <-> afterBatch w0 ms (tracked w) d) /\
      frame w w'.
Proof.
  induction ms as [|m ms IH]; intros w Hf.
  - exists w. split; [done|]. split; [done|apply frame_refl].
  - destruct (mutationRecord_effect m ms w) as (w1 & Hr1 & Ht1 & Hf1).
    destruct (IH w1 (frame_trans _ _ _ Hf Hf1)) as (w2 & Hr2 & Ht2 & Hf2).
    exists w2. split; [congruence|]. split; [|by eapply frame_trans].
    intros d. rewrite Ht2. cbn [afterBatch fold_left].
    apply afterBatch_iff. intros d'. rewrite Ht1.
    apply (afterRecord_same w0 w), Hf.
Qed.

(** The callback of a root observer never throws and changes no attribute;
    after a batch with the single record [m] a dialog is tracked iff it is
    in no removed subtree and either was tracked or is an open, configured
    dialog of an added subtree: removal wins over insertion in one record,
    and both reach every dialog inside the subtree, not only its root. *)
Theorem rootObserverCallback_record (m : MutationRecord) (w : World) :
  exists w',
    rootObserverCallback [m] w = Return tt w' /\
    sameAttributes w w' /\
    forall d,
      tracked w' d <->
      (d ∉ removedDialogs m) /\
      (tracked w d \/ (d ∈ addedDialogs m /\ openConfigured w d)).
Proof.
  destruct (rootObserverCallback_batch w [m] w (frame_refl w))
    as (w' & Hr & Ht & Hf & _).
  exists w'. split; [done|]. split; [done|]. exact Ht.
Qed.

Lemma afterBatch_untracked w ms (T : Dialog -> Prop) d :
  ~ T d -> (forall m, m ∈ ms -> d ∉ addedDialogs m) -> ~ afterBatch w ms T d.
Proof.
  revert T. induction ms as [|m ms IH]; intros T Hn Hadd; [done|].
  cbn [afterBatch fold_left]. apply IH.
  - intros (_ & [?|[Hin _]]); [done|].
    by apply (Hadd m); [apply elem_of_cons; left|].
  - intros m' Hm'. apply Hadd. apply elem_of_cons. by right.
Qed.

(** Detach on removal: a dialog inside a subtree that some record of the
    batch removed, and inside no subtree that a later record added, has no
    record when the callback returns. *)
Theorem removed_dialogs_are_detached
    (before after : list MutationRecord) (m : MutationRecord)
    (d : Dialog) (w : World) :
  d ∈ removedDialogs m ->
  (forall m', m' ∈ after -> d ∉ addedDialogs m') ->
  exists w',
    rootObserverCallback (before ++ m :: after) w = Return tt w' /\
    ~ tracked w' d.
Proof.
  intros Hrem Hadd.
  destruct (rootObserverCallback_batch w (before ++ m :: after) w (frame_refl w))
    as (w' & Hr & Ht & _).
  exists w'. split; [done|]. rewrite Ht.
  unfold afterBatch. rewrite fold_left_app. cbn [fold_left].
  apply afterBatch_untracked; [|done]. by intros [? _].
Qed.

(** On [modalPage], where dialog 1 is tracked: the record of its removal
    leaves it untracked. *)
Lemma removed_dialogs_are_detached_witness :
  1%positive ∈ removedDialogs removalRecord /\
  exists w',
    rootObserverCallback ([] ++ removalRecord :: []) modalPage = Return tt w' /\
    ~ tracked w' 1%positive.
Proof.
  assert (1%positive ∈ removedDialogs removalRecord) as Hin by (vm_compute; left).
  split; [exact Hin|].
  apply (removed_dialogs_are_detached [] [] removalRecord 1%positive modalPage Hin).
  intros m' Hm'. inversion Hm'.
Defined.

Lemma observeRoot_run (root : Root) (w : World) :
  exists w1,
    adds (rootDialogs w root) w w1 /\
    observeRoot root w
    = match root, documentBody w with
      | DocumentRoot, None =>
          Throw (TypeError "MutationObserver.observe: parameter 1 is not of type 'Node'")
                w1
      | _, _ => Return tt (set_rootObservers (rootObservers w1 ++ [root]) w1)
      end.
Proof.
  unfold observeRoot, root_querySelectorAll_dialog.
  erewrite bind_Return by reflexivity. fold (rootDialogs w root).
  destruct (scan_adds (rootDialogs w root) w) as (w1 & Hr1 & Hadds).
  exists w1. split; [exact Hadds|].
  destruct Hadds as [_ (_ & Hg1 & _)].
  unfold bind at 1. unfold bind at 1 in Hr1.
  unfold with_closedby, gets in *.
  change (forEach (filter (λ d, is_Some (closedby (elements w d)))
                     (rootDialogs w root)) attachIfOpen w = Return tt w1) in Hr1.
  erewrite bind_Return by exact Hr1.
  erewrite bind_Return by reflexivity.
  assert (documentBody w1 = documentBody w) as -> by apply Hg1.
  by destruct root, (documentBody w).
Qed.

Lemma observeRoot_effect (root : Root) (w : World) :
  (root = DocumentRoot -> is_Some (documentBody w)) ->
  exists w',
    observeRoot root w = Return tt w' /\
    (forall d, tracked w' d <->
               tracked w d \/ (d ∈ rootDialogs w root /\ openConfigured w d)) /\
    sameAttributes w w' /\ sameGlobals w w' /\
    rootObservers w' = (rootObservers w ++ [root])%list /\
    attachShadowIsPatched w' = attachShadowIsPatched w /\
    console w' = console w.
Proof.
  intros Hbody.
  destruct (observeRoot_run root w) as (w1 & [Ht1 (Ha1 & Hg1 & Ho1 & Ho2 & Ho3)] & Hrun).
  eexists. split.
  - rewrite Hrun. destruct root; [|reflexivity].
    destruct (Hbody eq_refl) as [b ->]. reflexivity.
  - split; [exact Ht1|]. split; [exact Ha1|]. split; [exact Hg1|].
    world_simpl. by rewrite Ho1.
Qed.

(** [observeRoot] on a root that can be watched (any shadow root, or the
    document when it has a body) returns, puts the root under watch and
    attaches exactly the dialogs of the root that are open and carry the
    attribute, for the document those of the whole document, under the body
    or not; it changes no attribute and drops no record. *)
Theorem observeRoot_scans (root : Root) (w : World) :
  (root = DocumentRoot -> is_Some (documentBody w)) ->
  exists w',
    observeRoot root w = Return tt w' /\
    (forall d, tracked w' d <->
               tracked w d \/ (d ∈ rootDialogs w root /\ openConfigured w d)) /\
    sameAttributes w w' /\
    rootObservers w' = (rootObservers w ++ [root])%list.
Proof.
  intros Hbody.
  destruct (observeRoot_effect root w Hbody) as (w' & Hr & Ht & Ha & _ & Ho & _).
  by exists w'.
Qed.

(** The document of [treePage]: dialog 1, under the body, and dialog 3,
    after the body, become tracked; dialog 2, in a shadow tree, does not. *)
Lemma observeRoot_scans_witness :
  is_Some (documentBody treePage) /\
  rootDialogs treePage DocumentRoot = [1%positive; 3%positive] /\
  exists w',
    observeRoot DocumentRoot treePage = Return tt w' /\
    tracked w' 1%positive /\ tracked w' 3%positive /\ ~ tracked w' 2%positive /\
    rootObservers w' = [DocumentRoot].
Proof.
  assert (is_Some (documentBody treePage)) as Hb by (eexists; reflexivity).
  split; [exact Hb|]. split; [reflexivity|].
  destruct (observeRoot_scans DocumentRoot treePage (fun _ => Hb))
    as (w' & Hrun & Ht & _ & Ho).
  assert (forall d, openConfigured treePage d) as Hoc
    by (intros d; split; [reflexivity|eexists; reflexivity]).
  assert (forall d, ~ tracked treePage d) as Hnone
    by (intros d [st Hst]; vm_compute in Hst; discriminate).
  exists w'. split; [exact Hrun|].
  split. { apply Ht. right. split; [|apply Hoc]. vm_compute. left. }
  split. { apply Ht. right. split; [|apply Hoc]. vm_compute. right. left. }
  split; [|exact Ho].
  intros H. apply Ht in H as [H|[H _]]; [by apply (Hnone 2%positive)|].
  vm_compute in H. inversion H as [|? ? ? H']; subst. inversion H' as [|? ? ? H'']; subst.
  inversion H''.
Defined.

(** ** Initialization, continued *)

Lemma rootDialogs_same w w' root :
  sameGlobals w w' -> rootDialogs w' root = rootDialogs w root.
Proof.
  intros (_ & _ & Hb & Hp & Hf & Hs & _). unfold rootDialogs, documentDialogs.
  by rewrite Hb, Hp, Hf, Hs.
Qed.

Lemma observeShadowRoots_effect l w :
  exists w',
    forEach l (fun s => observeRoot (ShadowRoot s)) w = Return tt w' /\
    (forall d, tracked w' d <->
       tracked w d \/
       (d ∈ flat_map (fun s => rootDialogs w (ShadowRoot s)) l /\
        openConfigured w d)) /\
    sameAttributes w w' /\ sameGlobals w w' /\
    rootObservers w' = (rootObservers w ++ map ShadowRoot l)%list /\
    attachShadowIsPatched w' = attachShadowIsPatched w /\
    console w' = console w.
Proof.
  revert w. induction l as [|s l IH]; intros w.
  - exists w. split; [done|].
    split. { intros d. cbn. rewrite elem_of_nil. tauto. }
    split; [apply sameAttributes_refl|]. split; [apply sameGlobals_refl|].
    by rewrite app_nil_r.
  - destruct (observeRoot_effect (ShadowRoot s) w)
      as (w1 & Hr1 & Ht1 & Ha1 & Hg1 & Ho1 & Hp1 & Hc1); [done|].
    destruct (IH w1) as (w2 & Hr2 & Ht2 & Ha2 & Hg2 & Ho2 & Hp2 & Hc2).
    exists w2. split; [cbn [forEach]; by erewrite bind_Return by exact Hr1|].
    split.
    { intros d. rewrite Ht2, Ht1. cbn [flat_map]. rewrite elem_of_app.
      rewrite (openConfigured_same w w1) by done.
      assert (flat_map (fun s => rootDialogs w1 (ShadowRoot s)) l
              = flat_map (fun s => rootDialogs w (ShadowRoot s)) l) as ->.
      { clear -Hg1. induction l as [|x l IHl]; [done|]. cbn [flat_map].
        by rewrite IHl, (rootDialogs_same w w1). }
      tauto. }
    split; [by eapply sameAttributes_trans|].
    split; [by eapply sameGlobals_trans|].
    split. { rewrite Ho2, Ho1. cbn [map]. by rewrite <- app_assoc. }
    split; congruence.
Qed.

Lemma setupObservers_effect w body :
  documentBody w = Some body ->
  exists w',
    setupObservers w = Return tt w' /\
    (forall d, tracked w' d <->
       tracked w d \/ (d ∈ observedDialogs w body /\ openConfigured w d)) /\
    sameAttributes w w' /\ sameGlobals w w' /\
    rootObservers w'
      = (rootObservers w ++ DocumentRoot :: map ShadowRoot (findShadowRoots body))%list /\
    attachShadowIsPatched w' = true.
Proof.
  intros Hb. unfold setupObservers.
  destruct (observeRoot_effect DocumentRoot w)
    as (w1 & Hr1 & Ht1 & Ha1 & Hg1 & Ho1 & _); [by rewrite Hb|].
  erewrite bind_Return by exact Hr1.
  erewrite bind_Return by reflexivity.
  assert (documentBody w1 = Some body) as ->
    by (destruct Hg1 as (_ & _ & -> & _); done).
  destruct (observeShadowRoots_effect (findShadowRoots body) w1)
    as (w2 & Hr2 & Ht2 & Ha2 & Hg2 & Ho2 & _).
  erewrite bind_Return by exact Hr2.
  eexists. split; [reflexivity|].
  split.
  { intros d. unfold tracked. world_simpl. fold (tracked w2 d).
    rewrite Ht2, Ht1. unfold observedDialogs. rewrite elem_of_app.
    rewrite (openConfigured_same w w1) by done.
    assert (flat_map (fun s => rootDialogs w1 (ShadowRoot s)) (findShadowRoots body)
            = flat_map (fun s => rootDialogs w (ShadowRoot s)) (findShadowRoots body))
      as ->.
    { generalize (findShadowRoots body). clear -Hg1.
      induction l as [|x l IHl]; [done|]. cbn [flat_map].
      by rewrite IHl, (rootDialogs_same w w1). }
    tauto. }
  split. { intros d. world_simpl. apply (sameAttributes_trans w w1 w2); done. }
  split. { apply (sameGlobals_trans w w1); [done|]. exact Hg2. }
  world_simpl. split; [|done]. rewrite Ho2, Ho1. by rewrite <- app_assoc.
Qed.

(** On a host with the native dialog, without native [closedBy], whose
    document has a body, [apply] installs the polyfill: it returns, the
    prototype is patched, [isPolyfilled] answers true, the document and every
    shadow root found below the body are under watch, and exactly the dialogs
    of the document (under the body or not) and of those shadow roots that
    are already open and carry the attribute are attached. Calling [apply]
    again changes nothing. *)
Theorem apply_installs_and_scans (w : World) (i : DialogInterface) (body : Node) :
  polyfilled w = false -> HTMLDialogElement w = Some i ->
  prototypeKind i <> ProtoPrimitive -> hasClosedBy i = false ->
  hasShowModal i = true -> documentBody w = Some body ->
  exists w',
    apply w = Return tt w' /\
    isPolyfilled w' = Return true w' /\
    HTMLDialogElement w' = Some (patchPrototype i) /\
    (forall d, tracked w' d <->
       tracked w d \/ (d ∈ observedDialogs w body /\ openConfigured w d)) /\
    sameAttributes w w' /\
    rootObservers w'
      = (rootObservers w ++ DocumentRoot :: map ShadowRoot (findShadowRoots body))%list /\
    attachShadowIsPatched w' = true /\
    apply w' = Return tt w'.
Proof.
  intros Hp Hi Hk Hc Hs Hb.
  set (w1 := set_HTMLDialogElement (patchPrototype <$> HTMLDialogElement w) w).
  destruct (setupObservers_effect w1 body Hb)
    as (w2 & Hr2 & Ht2 & Ha2 & Hg2 & Ho2 & Hp2).
  assert (apply w = Return tt (set_polyfilled true w2)) as Happly.
  { rewrite apply_run. cbn zeta. rewrite Hp, Hi, Hc, Hs.
    assert ((modify (fun w => set_HTMLDialogElement
                                (patchPrototype <$> HTMLDialogElement w) w) ;;
             setupObservers ;; modify (set_polyfilled true)) w
            = Return tt (set_polyfilled true w2)) as Hrun.
    { erewrite bind_Return by reflexivity. fold w1.
      by erewrite bind_Return by exact Hr2. }
    destruct (prototypeKind i); done. }
  exists (set_polyfilled true w2).
  split; [done|]. split; [done|].
  split. { world_simpl. destruct Hg2 as (-> & _). unfold w1. world_simpl.
           by rewrite Hi. }
  split. { intros d. exact (Ht2 d). }
  split. { intros d. exact (Ha2 d). }
  split; [exact Ho2|]. split; [exact Hp2|].
  by apply apply_when_polyfilled.
Qed.

(** [apply] on [treePage]: the prototype is patched, the document and the
    shadow root are watched, and the three dialogs are tracked. *)
Lemma apply_installs_and_scans_witness :
  polyfilled treePage = false /\ HTMLDialogElement treePage = Some nativeInterface /\
  exists w',
    apply treePage = Return tt w' /\
    isPolyfilled w' = Return true w' /\
    tracked w' 1%positive /\ tracked w' 2%positive /\ tracked w' 3%positive /\
    ~ tracked w' 4%positive /\
    rootObservers w' = [DocumentRoot; ShadowRoot 0] /\
    apply w' = Return tt w'.
Proof.
  split; [reflexivity|]. split; [reflexivity|].
  assert (prototypeKind nativeInterface <> ProtoPrimitive) as Hk
    by (intros H; discriminate H).
  destruct (apply_installs_and_scans treePage nativeInterface
              (ElementNode None [DialogNode 1%positive []; ElementNode (Some 0) []])
              eq_refl eq_refl Hk eq_refl eq_refl eq_refl)
    as (w' & Hrun & Hpoly & _ & Ht & _ & Ho & _ & Hagain).
  assert (forall d, openConfigured treePage d) as Hoc
    by (intros d; split; [reflexivity|eexists; reflexivity]).
  assert (forall d, ~ tracked treePage d) as Hnone
    by (intros d [st Hst]; vm_compute in Hst; discriminate).
  exists w'. split; [exact Hrun|]. split; [exact Hpoly|].
  split. { apply Ht. right. split; [|apply Hoc]. vm_compute. left. }
  split. { apply Ht. right. split; [|apply Hoc]. vm_compute. right. right. left. }
  split. { apply Ht. right. split; [|apply Hoc]. vm_compute. right. left. }
  split; [|split; [exact Ho|exact Hagain]].
  intros H. apply Ht in H as [H|[H _]]; [by apply (Hnone 4%positive)|].
  vm_compute in H.
  inversion H as [|? ? ? H1]; subst. inversion H1 as [|? ? ? H2]; subst.
  inversion H2 as [|? ? ? H3]; subst. inversion H3.
Defined.

(** When the document has no body yet, [apply] on the same kind of host
    throws the TypeError of [rootObserver.observe(null, ...)] after it has
    patched the prototype and scanned the document: [showModal], [close] and
    [closedBy] are replaced and exactly the dialogs of the document that are
    open and carry the attribute have been attached, but no root is under
    watch, [attachShadow] is not patched and [isPolyfilled] still answers
    false. With an ordinary prototype object a later call of [apply] then
    returns at once, since [isSupported] now finds [closedBy], so the
    observers are never set up. *)
Theorem apply_without_body_throws (w : World) (i : DialogInterface) :
  polyfilled w = false -> HTMLDialogElement w = Some i ->
  prototypeKind i <> ProtoPrimitive -> hasClosedBy i = false ->
  hasShowModal i = true -> documentBody w = None ->
  exists w',
    apply w
      = Throw (TypeError "MutationObserver.observe: parameter 1 is not of type 'Node'")
              w' /\
    HTMLDialogElement w' = Some (patchPrototype i) /\
    isPolyfilled w' = Return false w' /\
    rootObservers w' = rootObservers w /\
    attachShadowIsPatched w' = attachShadowIsPatched w /\
    (forall d, tracked w' d <->
       tracked w d \/ (d ∈ rootDialogs w DocumentRoot /\ openConfigured w d)) /\
    sameAttributes w w' /\
    (prototypeKind i = ProtoObject -> apply w' = Return tt w').
Proof.
  intros Hp Hi Hk Hc Hs Hb.
  set (w1 := set_HTMLDialogElement (patchPrototype <$> HTMLDialogElement w) w).
  destruct (observeRoot_run DocumentRoot w1)
    as (w2 & [Ht2 (Ha2 & Hg2 & Ho1 & Ho2 & Ho3)] & Hobs).
  change (documentBody w1) with (documentBody w) in Hobs. rewrite Hb in Hobs.
  exists w2. split.
  { rewrite apply_run. cbn zeta. rewrite Hp, Hi, Hc, Hs.
    assert ((modify (fun w => set_HTMLDialogElement
                                (patchPrototype <$> HTMLDialogElement w) w) ;;
             setupObservers ;; modify (set_polyfilled true)) w
            = Throw (TypeError
                       "MutationObserver.observe: parameter 1 is not of type 'Node'")
                    w2) as Hrun.
    { erewrite bind_Return by reflexivity. fold w1.
      erewrite bind_Throw; [reflexivity|].
      unfold setupObservers. by erewrite bind_Throw by exact Hobs. }
    destruct (prototypeKind i); done. }
  destruct Hg2 as (Hi2 & _ & _ & _ & _ & _ & Hp2).
  assert (HTMLDialogElement w2 = Some (patchPrototype i)) as Hi2'
    by (rewrite Hi2; unfold w1; world_simpl; by rewrite Hi).
  split; [exact Hi2'|].
  split. { unfold isPolyfilled, gets. rewrite Hp2. unfold w1. world_simpl.
           by rewrite Hp. }
  split; [exact Ho1|]. split; [exact Ho2|].
  split. { intros d. exact (Ht2 d). }
  split. { intros d. exact (Ha2 d). }
  intros Hobj. by apply (apply_when_supported w2 (patchPrototype i)).
Qed.

(** [apply] on [bodylessPage]: dialog 1 is attached before the throw. *)
Lemma apply_without_body_throws_witness :
  documentBody bodylessPage = None /\
  exists w',
    apply bodylessPage
      = Throw (TypeError "MutationObserver.observe: parameter 1 is not of type 'Node'")
              w' /\
    isPolyfilled w' = Return false w' /\
    tracked w' 1%positive /\
    rootObservers w' = [] /\
    apply w' = Return tt w'.
Proof.
  split; [reflexivity|].
  assert (prototypeKind nativeInterface <> ProtoPrimitive) as Hk
    by (intros H; discriminate H).
  destruct (apply_without_body_throws bodylessPage nativeInterface
              eq_refl eq_refl Hk eq_refl eq_refl eq_refl)
    as (w' & Hrun & _ & Hpoly & Ho & _ & Ht & _ & Hagain).
  exists w'. split; [exact Hrun|]. split; [exact Hpoly|].
  split. { apply Ht. right. split; [vm_compute; left|].
           split; [reflexivity|eexists; reflexivity]. }
  split; [exact Ho|]. exact (Hagain eq_refl).
Defined.

(** ** Attach and detach, there and back *)

Lemma remove_add_listener h l : h ∉ l -> remove_listener h (add_listener h l) = l.
Proof.
  intros H. unfold add_listener, remove_listener.
  rewrite bool_decide_eq_false_2 by done. rewrite filter_app.
  rewrite filter_cons_False by (intros ?; done). rewrite filter_nil, app_nil_r.
  clear -H. induction l as [|x l IH]; [done|].
  apply not_elem_of_cons in H as [Hx Hl].
  rewrite filter_cons_True by congruence. by rewrite IH.
Qed.

(** Detaching a dialog right after attaching it restores the page: the
    records, the stack, and every element with its listeners and observers,
    so no handler is left behind; only three object identities are used up. *)
Theorem attach_detach_roundtrip (d : Dialog) (w : World) :
  stackInvariant w -> idsBelow w -> ~ tracked w d ->
  exists w',
    (attachDialog d ;; detachDialog d) w = Return tt w' /\
    dialogStates w' = dialogStates w /\
    activeDialogs w' = activeDialogs w /\
    (forall d', elements w' d' = elements w d') /\
    nextObject w' = 3 + nextObject w.
Proof.
  intros Hinv Hids Hn. pose proof Hn as E. apply not_tracked_lookup in E.
  assert (d ∉ activeDialogs w) as Hout by (intros Hin; by apply Hn, Hinv).
  unfold attachDialog, detachDialog. js_unfold.
  rewrite bool_decide_eq_false_2 by done. world_simpl.
  rewrite lookup_insert_eq. cbn [handleClick handleCancel attrObserver].
  eexists. split; [reflexivity|]. world_simpl.
  split. { rewrite delete_insert_eq. by apply delete_id. }
  split. { unfold Set_add. rewrite bool_decide_eq_false_2 by done.
           by apply Set_delete_snoc. }
  split; [|done].
  intros d'. destruct (decide (d' = d)) as [->|Hne]; [|done].
  assert (nextObject w ∉ clickListeners (elements w d)) as H1.
  { intros Hin. assert (nextObject w < nextObject w); [|lia]. apply (Hids d). auto. }
  assert (S (nextObject w) ∉ cancelListeners (elements w d)) as H2.
  { intros Hin. assert (S (nextObject w) < nextObject w); [|lia].
    apply (Hids d). auto. }
  assert (S (S (nextObject w)) ∉ attrObservers (elements w d)) as H3.
  { intros Hin. assert (S (S (nextObject w)) < nextObject w); [|lia].
    apply (Hids d). auto. }
  destruct (elements w d) as [o c r cl ca ao].
  cbn -[remove_listener add_listener] in *.
  by rewrite !remove_add_listener.
Qed.

(** Dialog 1 on [appliedPage], which tracks nothing. *)
Lemma attach_detach_roundtrip_witness :
  ~ tracked appliedPage 1%positive /\
  exists w',
    (attachDialog 1%positive ;; detachDialog 1%positive) appliedPage = Return tt w' /\
    dialogStates w' = dialogStates appliedPage /\
    activeDialogs w' = activeDialogs appliedPage /\
    (forall d', elements w' d' = elements appliedPage d') /\
    nextObject w' = 3 + nextObject appliedPage.
Proof.
  assert (~ tracked appliedPage 1%positive) as Hn.
  { intros [st Hst]. vm_compute in Hst. discriminate. }
  assert (idsBelow appliedPage) as Hids.
  { intros d h H. vm_compute in H.
    destruct H as [H|[H|H]]; inversion H. }
  split; [exact Hn|].
  exact (attach_detach_roundtrip 1%positive appliedPage appliedPage_invariant Hids Hn).
Defined.

(** ** The lifecycle, composed *)

(** A write to [closedBy] of a value that can be converted to a string, on
    a tracked dialog, takes effect at once and without re-attaching: records
    and stack are as before, the dialog now resolves to the policy written
    ("closerequest" gives [RequestOnly], "none" gives [None], everything else
    [Any]), every other dialog to its old one, and an Escape keypress with
    that dialog on top of the stack is decided by the new policy: after a
    write of "none" the handler returns the event with its default action
    prevented and closes nothing; after any other write it calls [close()]
    on the dialog, which with the polyfill installed closes and untracks the
    dialog, and returns the event with its default action prevented. *)
Theorem policy_change_takes_effect
    (d : Dialog) (value : JSValue) (event : KeyboardEvent) (w : World) :
  tracked w d -> last (activeDialogs w) = Some d -> key event = "Escape" ->
  convertible value ->
  exists w1,
    closedBy_set d value w = Return tt w1 /\
    dialogStates w1 = dialogStates w /\
    activeDialogs w1 = activeDialogs w /\
    policyOf w1 d = policyWritten value /\
    (forall d', d' <> d -> policyOf w1 d' = policyOf w d') /\
    (value = JSString "none" ->
       exists event',
         documentEscapeHandler event w1 = Return event' w1 /\
         keyDefaultPrevented event' = true /\ key event' = key event) /\
    (value <> JSString "none" ->
       documentEscapeHandler event w1
         = (call_close d ;; ret (key_preventDefault event)) w1 /\
       (installed w ->
          exists event' w2,
            documentEscapeHandler event w1 = Return event' w2 /\
            keyDefaultPrevented event' = true /\ key event' = key event /\
            open (elements w2 d) = false /\ ~ tracked w2 d)).
Proof.
  intros Ht [l Hact]%last_Some Hkey [text Hv]%convertible_text.
  destruct (afterWrite_tracking d value text w) as (Hs & Ha & Hi).
  assert (closedBy_set d value w = Return tt (afterWrite d value text w)) as Hrun.
  { rewrite (closedBy_set_run d value text w Hv).
    destruct (open (elements w d)); [|done].
    apply attachDialog_tracked. unfold tracked. by rewrite Hs. }
  assert (policyOf (afterWrite d value text w) d = policyWritten value) as Hp.
  { unfold policyOf. rewrite afterWrite_elements, decide_True by done.
    apply resolvePolicy_stored. }
  exists (afterWrite d value text w).
  split; [done|]. split; [done|]. split; [done|]. split; [done|].
  split. { intros d' Hne. unfold policyOf.
           by rewrite afterWrite_elements, decide_False by done. }
  pose proof (documentEscapeHandler_run event (afterWrite d value text w) l d Hkey)
    as Hesc. rewrite Ha in Hesc. specialize (Hesc Hact). rewrite Hp in Hesc.
  split.
  - intros ->. exists (key_preventDefault event). split; [exact Hesc|]. by split.
  - intros Hne.
    assert (documentEscapeHandler event (afterWrite d value text w)
            = (call_close d ;; ret (key_preventDefault event))
                (afterWrite d value text w)) as Hclose.
    { rewrite Hesc. unfold policyWritten. repeat case_decide; done. }
    split; [exact Hclose|]. intros (i & Hinst & Hpat).
    assert (installed (afterWrite d value text w)) as Hinst1
      by (exists i; by rewrite Hi).
    destruct (closePatched_run d (afterWrite d value text w))
      as (w2 & Hc & Hopen & _ & _ & Hst & _).
    exists (key_preventDefault event), w2. split.
    { rewrite Hclose.
      by erewrite bind_Return by (rewrite call_close_installed by done; exact Hc). }
    split; [done|]. split; [done|]. split; [done|].
    apply not_tracked_lookup. rewrite Hst. apply lookup_delete_eq.
Qed.

(** Writing "none" to dialog 1 of [modalPage], then Escape; and writing a
    number, which is stored as "any", then Escape. *)
Lemma policy_change_takes_effect_witness :
  tracked modalPage 1%positive /\
  last (activeDialogs modalPage) = Some 1%positive /\
  (exists w1 event',
     closedBy_set 1%positive (JSString "none") modalPage = Return tt w1 /\
     policyOf w1 1%positive = PolicyNone /\
     documentEscapeHandler escapeKey w1 = Return event' w1 /\
     keyDefaultPrevented event' = true) /\
  (exists w1 event' w2,
     closedBy_set 1%positive (JSOther "42") modalPage = Return tt w1 /\
     policyOf w1 1%positive = PolicyAny /\
     documentEscapeHandler escapeKey w1 = Return event' w2 /\
     keyDefaultPrevented event' = true /\
     open (elements w2 1%positive) = false).
Proof.
  assert (tracked modalPage 1%positive) as Ht by (eexists; vm_compute; reflexivity).
  assert (last (activeDialogs modalPage) = Some 1%positive) as Hl by reflexivity.
  split; [exact Ht|]. split; [exact Hl|]. split.
  - assert (convertible (JSString "none")) as Hc by (intros e H; discriminate H).
    destruct (policy_change_takes_effect 1%positive (JSString "none") escapeKey
                modalPage Ht Hl eq_refl Hc)
      as (w1 & Hset & _ & _ & Hpol & _ & Hnone & _).
    destruct (Hnone eq_refl) as (event' & Hesc & Hprev & _).
    exists w1, event'. split; [exact Hset|]. split; [exact Hpol|].
    split; [exact Hesc|exact Hprev].
  - assert (convertible (JSOther "42")) as Hc by (intros e H; discriminate H).
    destruct (policy_change_takes_effect 1%positive (JSOther "42") escapeKey
                modalPage Ht Hl eq_refl Hc)
      as (w1 & Hset & _ & _ & Hpol & _ & _ & Hother).
    destruct Hother as (_ & Hinst); [intros H; discriminate H|].
    destruct (Hinst modalPage_installed) as (event' & w2 & Hesc & Hprev & _ & Hopen & _).
    exists w1, event', w2. split; [exact Hset|]. split; [exact Hpol|].
    split; [exact Hesc|]. split; [exact Hprev|exact Hopen].
Defined.

(** [close()] as patched never throws, whether or not the dialog was
    tracked: the dialog ends not open, without a record and off the stack;
    no other element and no other record is touched, and the stack
    invariant is kept. *)
Theorem close_detaches_then_closes (d : Dialog) (w : World) :
  stackInvariant w ->
  exists w',
    closePatched d w = Return tt w' /\
    open (elements w' d) = false /\
    ~ tracked w' d /\ (d ∉ activeDialogs w') /\
    (forall d', d' <> d ->
       elements w' d' = elements w d' /\ (tracked w' d' <-> tracked w d')) /\
    stackInvariant w'.
Proof.
  intros Hinv.
  destruct (closePatched_run d w)
    as (w' & Hrun & Hopen & Hbut & _ & Hst & _).
  assert (stackInvariant w') as Hinv'.
  { pose proof (closePatched_preserves stackInvariant stackInvariant_reads
                  detachDialog_preserves d w Hinv) as H.
    by rewrite Hrun in H. }
  assert (~ tracked w' d) as Hn.
  { apply not_tracked_lookup. rewrite Hst. apply lookup_delete_eq. }
  exists w'. split; [done|]. split; [done|]. split; [done|].
  split. { intros Hin. by apply Hn, Hinv'. }
  split; [|done]. intros d' Hne. split; [by apply Hbut|].
  unfold tracked. rewrite Hst. by rewrite lookup_delete_ne.
Qed.

(** [close()] on dialog 1 of [modalPage]. *)
Lemma close_detaches_then_closes_witness :
  stackInvariant modalPage /\
  exists w',
    closePatched 1%positive modalPage = Return tt w' /\
    open (elements w' 1%positive) = false /\
    ~ tracked w' 1%positive.
Proof.
  assert (stackInvariant modalPage) as Hinv
    by (apply run_invariant, appliedPage_invariant).
  split; [exact Hinv|].
  destruct (close_detaches_then_closes 1%positive modalPage Hinv)
    as (w' & Hrun & Hopen & Hn & _).
  exists w'. split; [exact Hrun|]. split; [exact Hopen|exact Hn].
Defined.

(** Opening and closing, there and back: with the polyfill installed, when
    the native [showModal] opens an untracked dialog that carries the
    attribute, [showModal()] puts the dialog on top of the Escape stack, and
    [close()] right after takes it off again, leaving records and stack as
    they were before the dialog was opened, and the dialog not open. *)
Theorem showModal_then_close (d : Dialog) (w : World) :
  stackInvariant w -> installed w -> ~ tracked w d ->
  fst (originalShowModal w d (elements w)) = None ->
  openConfigured (set_elements (snd (originalShowModal w d (elements w))) w) d ->
  exists w1 w2,
    call_showModal d w = Return tt w1 /\
    activeDialogs w1 = (activeDialogs w ++ [d])%list /\
    tracked w1 d /\
    call_close d w1 = Return tt w2 /\
    dialogStates w2 = dialogStates w /\
    activeDialogs w2 = activeDialogs w /\
    open (elements w2 d) = false.
Proof.
  intros Hinv Hinst Hn Hnative [Hopen Hattr].
  set (w0 := set_elements (snd (originalShowModal w d (elements w))) w) in *.
  pose proof Hn as E. apply not_tracked_lookup in E.
  destruct (attachDialog_untracked d w0 E)
    as (w1 & st & Hr1 & Hs1 & Ha1 & _ & _ & Hg1 & _).
  assert (d ∉ activeDialogs w) as Hout by (intros Hin; by apply Hn, Hinv).
  assert (call_showModal d w = Return tt w1) as Hshow.
  { destruct Hinst as (i & Hi & Hp). unfold call_showModal.
    erewrite bind_Return by reflexivity. rewrite Hi, Hp.
    unfold showModalPatched.
    assert (call_originalShowModal d w = Return tt w0) as Hnat
      by (unfold call_originalShowModal; by rewrite Hnative).
    erewrite bind_Return by exact Hnat.
    unfold get_open, hasAttribute_closedby.
    erewrite bind_Return by reflexivity. rewrite Hopen. cbn [negb].
    erewrite bind_Return by reflexivity.
    by rewrite bool_decide_eq_true_2 by done. }
  assert (installed w1) as Hinst1.
  { apply (installed_sameGlobals w0); [done|]. exact Hinst. }
  destruct (closePatched_run d w1)
    as (w2 & Hr2 & Hopen2 & _ & _ & Hs2 & Ha2 & _).
  assert (tracked w1 d) as Ht1.
  { unfold tracked. rewrite Hs1, lookup_insert_eq. by eexists. }
  exists w1, w2. split; [done|].
  split. { rewrite Ha1. unfold Set_add. by rewrite bool_decide_eq_false_2. }
  split; [done|].
  split. { by rewrite call_close_installed. }
  split. { rewrite Hs2, Hs1, delete_insert_eq. by apply delete_id. }
  split; [|done].
  rewrite (Ha2 Ht1), Ha1. unfold Set_add. rewrite bool_decide_eq_false_2 by done.
  by apply Set_delete_snoc.
Qed.

(** [showModal()] then [close()] on dialog 1 of [appliedPage]. *)
Lemma showModal_then_close_witness :
  ~ tracked appliedPage 1%positive /\
  exists w1 w2,
    call_showModal 1%positive appliedPage = Return tt w1 /\
    activeDialogs w1 = (activeDialogs appliedPage ++ [1%positive])%list /\
    tracked w1 1%positive /\
    call_close 1%positive w1 = Return tt w2 /\
    dialogStates w2 = dialogStates appliedPage /\
    activeDialogs w2 = activeDialogs appliedPage /\
    open (elements w2 1%positive) = false.
Proof.
  assert (~ tracked appliedPage 1%positive) as Hn.
  { intros [st Hst]. vm_compute in Hst. discriminate. }
  split; [exact Hn|].
  apply (showModal_then_close 1%positive appliedPage appliedPage_invariant
           appliedPage_installed Hn); [reflexivity|].
  split; [reflexivity|]. eexists. reflexivity.
Defined.

(** [apply] gates itself: once [polyfilled] is set, or on a host whose
    prototype object already has [closedBy], it returns without changing
    anything; on a host whose prototype lacks [showModal] it writes one
    warning to the console and patches nothing, so that [isPolyfilled] still
    answers false, and doing so again only repeats the warning. *)
Theorem apply_gates_itself (w : World) :
  (polyfilled w = true -> apply w = Return tt w) /\
  (isSupported w = Return true w -> apply w = Return tt w) /\
  (forall i,
     polyfilled w = false -> HTMLDialogElement w = Some i ->
     prototypeKind i <> ProtoPrimitive -> hasClosedBy i = false ->
     hasShowModal i = false ->
     exists w',
       apply w = Return tt w' /\
       console w' = (console w
         ++ ["[closedBy polyfill] <dialog> API not found – polyfill skipped."])%list /\
       HTMLDialogElement w' = HTMLDialogElement w /\
       isPolyfilled w' = Return false w' /\
       dialogStates w' = dialogStates w /\ rootObservers w' = rootObservers w /\
       exists w'', apply w' = Return tt w'' /\
                   HTMLDialogElement w'' = HTMLDialogElement w /\
                   polyfilled w'' = false).
Proof.
  split; [apply apply_when_polyfilled|]. split.
  - intros H. rewrite apply_run. cbn zeta.
    destruct (polyfilled w); [done|].
    unfold isSupported, gets in H.
    destruct (HTMLDialogElement w) as [i|]; [|by inversion H].
    destruct (prototypeKind i); try by inversion H.
    destruct (hasClosedBy i); [done|by inversion H].
  - intros i Hp Hi Hk Hc Hs.
    eexists. split; [by apply (apply_without_showModal w i)|].
    world_simpl. split; [done|]. split; [done|].
    split. { unfold isPolyfilled, gets. world_simpl. by rewrite Hp. }
    split; [done|]. split; [done|].
    eexists. split; [by apply (apply_without_showModal _ i)|]. done.
Qed.

(** ** The single-file build *)

Lemma Qleb_le x y : Closedby.Qleb x y = true <-> (x <= y)%Q.
Proof. unfold Closedby.Qleb. apply Qle_bool_iff. Qed.

Lemma clickedInside_strictlyOutside r x y :
  Closedby.Qleb (rect_top r) y && Closedby.Qleb y (rect_bottom r)
  && Closedby.Qleb (rect_left r) x && Closedby.Qleb x (rect_right r) = false
  <-> strictlyOutside r x y.
Proof.
  unfold strictlyOutside. rewrite !andb_false_iff.
  assert (forall a b, Closedby.Qleb a b = false <-> (b < a)%Q) as Hlt.
  { intros a b. split.
    - intros H. apply Qnot_le_lt. intros Hle. apply Qleb_le in Hle. congruence.
    - intros H. destruct (Closedby.Qleb a b) eqn:E; [|done].
      apply Qleb_le in E. by apply Qlt_not_le in H. }
  rewrite !Hlt. tauto.
Qed.

Lemma Closedby_getClosedByValue d p :
  Closedby.getClosedByValue d p
  = literal (resolvePolicy (closedby (Closedby.pageElements p d))).
Proof. apply normalize_literal. Qed.

Lemma Closedby_elements_remove d d' p :
  open (Closedby.pageElements (Closedby.removeEventListeners d p) d')
    = open (Closedby.pageElements p d') /\
  closedby (Closedby.pageElements (Closedby.removeEventListeners d p) d')
    = closedby (Closedby.pageElements p d') /\
  boundingRect (Closedby.pageElements (Closedby.removeEventListeners d p) d')
    = boundingRect (Closedby.pageElements p d').
Proof.
  unfold Closedby.removeEventListeners.
  destruct (Closedby.records p !! d); [|done].
  cbn. repeat case_decide; done.
Qed.

Lemma Closedby_records_remove d p :
  Closedby.records (Closedby.removeEventListeners d p) = delete d (Closedby.records p).
Proof.
  unfold Closedby.removeEventListeners.
  destruct (Closedby.records p !! d) eqn:E; [done|]. symmetry. by apply delete_id.
Qed.

Lemma Closedby_elements_setup d d' p :
  open (Closedby.pageElements (Closedby.setupEventListeners d p) d')
    = open (Closedby.pageElements p d') /\
  closedby (Closedby.pageElements (Closedby.setupEventListeners d p) d')
    = closedby (Closedby.pageElements p d') /\
  boundingRect (Closedby.pageElements (Closedby.setupEventListeners d p) d')
    = boundingRect (Closedby.pageElements p d').
Proof.
  destruct (Closedby_elements_remove d d' p) as (Ho & Hc & Hb).
  unfold Closedby.setupEventListeners. cbn. repeat case_decide; cbn; done.
Qed.

Lemma Closedby_records_setup d p :
  exists st,
    Closedby.records (Closedby.setupEventListeners d p)
    = <[d := st]> (delete d (Closedby.records p)).
Proof.
  eexists. unfold Closedby.setupEventListeners. cbn.
  by rewrite Closedby_records_remove.
Qed.

Lemma Closedby_close_effect d p :
  open (Closedby.pageElements (Closedby.close d p) d) = false /\
  Closedby.records (Closedby.close d p) !! d = None.
Proof.
  assert (Closedby.records (Closedby.removeEventListeners d p) !! d = None)
    as Hr by (rewrite Closedby_records_remove; apply lookup_delete_eq).
  unfold Closedby.close, Closedby.originalClose.
  destruct (open (Closedby.pageElements (Closedby.removeEventListeners d p) d))
    eqn:Ho; cbn [negb]; [|done].
  split; [|done]. cbn. by rewrite decide_True.
Qed.

(** In the single-file build a click on the dialog itself, at policy
    [Any], closes the dialog iff it lies strictly outside the box the dialog
    has at that time: a click on an edge counts as inside. Closing goes
    through the patched [close], so the dialog also loses its record. A
    click on anything else, or at another policy, changes nothing. *)
Theorem Closedby_click_closes_iff_outside
    (d : Dialog) (event : MouseEvent) (p : Closedby.Page) :
  let r := boundingRect (Closedby.pageElements p d) in
  let policy := resolvePolicy (closedby (Closedby.pageElements p d)) in
  (target event <> TargetDialog d \/ policy <> PolicyAny ->
     Closedby.createClickHandler d event p = p) /\
  (target event = TargetDialog d -> policy = PolicyAny ->
     (strictlyOutside r (clientX event) (clientY event) ->
        Closedby.createClickHandler d event p = Closedby.close d p /\
        open (Closedby.pageElements (Closedby.createClickHandler d event p) d)
          = false /\
        Closedby.records (Closedby.createClickHandler d event p) !! d = None) /\
     (~ strictlyOutside r (clientX event) (clientY event) ->
        Closedby.createClickHandler d event p = p)).
Proof.
  intros r policy. unfold Closedby.createClickHandler.
  rewrite Closedby_getClosedByValue. fold policy.
  split.
  - intros [H|H]; [by rewrite bool_decide_eq_false_2|].
    case_bool_decide; [|done]. cbn [negb]. by destruct policy.
  - intros Ht Hp. rewrite bool_decide_eq_true_2, Hp by done.
    cbn [negb literal String.eqb Ascii.eqb Bool.eqb]. cbn zeta. fold r.
    pose proof (clickedInside_strictlyOutside r (clientX event) (clientY event))
      as Hout.
    destruct (_ && _) eqn:E in Hout |- *; cbn [negb].
    + split; [|done]. intros H. apply Hout in H. done.
    + split; [|intros H; exfalso; by apply H, Hout].
      intros _. split; [done|]. apply Closedby_close_effect.
Qed.

Lemma NoDup_fst_filter {A B} (P : A * B -> Prop) `{!forall x, Decision (P x)}
    (l : list (A * B)) :
  NoDup l.*1 -> NoDup (filter P l).*1.
Proof.
  induction l as [|[a b] l IH]; [done|]. cbn [fmap list_fmap].
  rewrite NoDup_cons. intros [Ha Hl]. rewrite filter_cons.
  case_decide; [|by apply IH]. cbn [fmap list_fmap]. apply NoDup_cons.
  split; [|by apply IH]. intros Hin. apply Ha.
  apply list_elem_of_fmap in Hin as ([a' b'] & -> & Hin').
  apply list_elem_of_filter in Hin' as [_ Hin'].
  apply list_elem_of_fmap. by exists (a', b').
Qed.

Lemma NoDup_fst_same {A B} (l : list (A * B)) a b1 b2 :
  NoDup l.*1 -> (a, b1) ∈ l -> (a, b2) ∈ l -> b1 = b2.
Proof.
  induction l as [|[a' b'] l IH]; [by intros _ ?%elem_of_nil|].
  cbn [fmap list_fmap]. rewrite NoDup_cons. intros [Ha Hl].
  rewrite !elem_of_cons. intros [E1|H1] [E2|H2]; simplify_eq; try done.
  - exfalso. apply Ha. apply list_elem_of_fmap. by exists (a', b2).
  - exfalso. apply Ha. apply list_elem_of_fmap. by exists (a', b1).
  - by apply IH.
Qed.

Lemma Closedby_remove_synced d p :
  Closedby.synced p -> Closedby.synced (Closedby.removeEventListeners d p).
Proof.
  intros (Hnd & Hmir & Hlt). unfold Closedby.removeEventListeners.
  destruct (Closedby.records p !! d) as [st|] eqn:E; [|done].
  split; [|split]; cbn.
  - by apply NoDup_fst_filter.
  - intros h d'. rewrite list_elem_of_filter, Hmir. cbn. split.
    + intros (Hne & st' & Hst' & Hh). exists st'. split; [|done].
      rewrite lookup_delete_ne; [done|]. intros <-. congruence.
    + intros (st' & Hst' & Hh).
      apply lookup_delete_Some in Hst' as [Hne Hst'].
      split; [|by exists st']. intros Heq.
      apply Hne. apply (NoDup_fst_same (Closedby.keydownListeners p) h); [done| |].
      * apply Hmir. exists st. split; [done|congruence].
      * apply Hmir. by exists st'.
  - intros h d' [_ Hin]%list_elem_of_filter. by apply (Hlt h d').
Qed.

Lemma Closedby_setup_synced d p :
  Closedby.synced p -> Closedby.synced (Closedby.setupEventListeners d p).
Proof.
  intros Hs. apply (Closedby_remove_synced d) in Hs.
  pose proof (Closedby_records_remove d p) as Hrec.
  unfold Closedby.setupEventListeners.
  set (p0 := Closedby.removeEventListeners d p) in *.
  destruct Hs as (Hnd & Hmir & Hlt).
  assert (Closedby.records p0 !! d = None) as Hnone
    by (rewrite Hrec; apply lookup_delete_eq).
  split; [|split]; cbn.
  - rewrite fmap_app. apply NoDup_app. split; [done|]. split; [|apply NoDup_singleton].
    intros h Hin ->%list_elem_of_singleton.
    apply list_elem_of_fmap in Hin as ([h' d'] & Heq & Hin). cbn in Heq. subst h'.
    specialize (Hlt _ _ Hin). lia.
  - intros h d'. rewrite elem_of_app, list_elem_of_singleton, Hmir. split.
    + intros [(st' & Hst' & Hh)|[= -> ->]].
      * exists st'. split; [|done]. rewrite lookup_insert_ne; [done|].
        intros <-. congruence.
      * eexists. split; [apply lookup_insert_eq|done].
    + intros (st' & Hst' & Hh).
      apply lookup_insert_Some in Hst' as [[<- <-]|[Hne Hst']].
      * right. by rewrite <- Hh.
      * left. by exists st'.
  - intros h d'. rewrite elem_of_app, list_elem_of_singleton.
    intros [Hin|[= -> ->]]; [specialize (Hlt _ _ Hin)|]; lia.
Qed.

Lemma Closedby_step_synced p op :
  Closedby.synced p -> Closedby.synced (Closedby.step p op).
Proof.
  intros Hs. destruct op; cbn [Closedby.step].
  - unfold Closedby.showModal.
    destruct (fst _); [exact Hs|]. cbn zeta.
    destruct (negb _); [exact Hs|]. case_bool_decide; [|exact Hs].
    by apply Closedby_setup_synced.
  - unfold Closedby.close, Closedby.originalClose.
    apply (Closedby_remove_synced d) in Hs. by destruct (negb _).
  - unfold Closedby.closedBy_set.
    destruct value as [s|t|e]; [destruct (isRecognized _)|..];
      (destruct (open _); [by apply Closedby_setup_synced
                          |by apply Closedby_remove_synced]).
  - unfold Closedby.attrObserverCallback. revert p Hs.
    induction ds as [|d ds IH]; intros p Hs; [done|]. cbn [fold_left].
    apply IH. destruct (_ && _);
      [by apply Closedby_setup_synced|by apply Closedby_remove_synced].
  - unfold Closedby.createClickHandler.
    destruct (negb (bool_decide _)); [done|]. destruct (negb (String.eqb _ _)); [done|].
    cbn zeta. destruct (negb _); [|done].
    unfold Closedby.close, Closedby.originalClose.
    apply (Closedby_remove_synced d) in Hs. by destruct (negb _).
  - revert p Hs. induction ds as [|d ds IH]; intros p Hs; [done|].
    cbn [fold_left]. by apply IH, Closedby_remove_synced.
  - exact Hs.
Qed.

Lemma Closedby_run_synced els native ops :
  Closedby.synced (Closedby.run ops (Closedby.start els native)).
Proof.
  assert (Closedby.synced (Closedby.start els native)) as H0.
  { split; [constructor|]. split; [|by intros ? ? ?%elem_of_nil].
    intros h d. cbn. rewrite lookup_empty. split; [by intros ?%elem_of_nil|].
    by intros (? & [=] & _). }
  unfold Closedby.run. revert H0. generalize (Closedby.start els native).
  induction ops as [|op ops IH]; intros p0 H0; [done|].
  cbn [fold_left]. by apply IH, Closedby_step_synced.
Qed.

(** In the single-file build the Escape handlers on the document mirror the
    records whatever happens on the page: after any run of [showModal],
    [close], property writes, attribute changes, clicks, removals and page
    changes, no handler is registered twice, a handler is registered for a
    dialog exactly when it is the one in the dialog's record, and so a
    dialog with a record has one Escape handler and a dialog without has
    none: setting listeners up again and again leaks nothing. *)
Theorem Closedby_no_leaked_escape_handlers
    (els : Dialog -> Element) (native : NativeShowModal) (ops : list Closedby.Op) :
  let p := Closedby.run ops (Closedby.start els native) in
  NoDup (Closedby.keydownListeners p).*1 /\
  (forall h d, (h, d) ∈ Closedby.keydownListeners p <->
               exists st, Closedby.records p !! d = Some st /\
                          Closedby.handleEscape st = h) /\
  (forall d, length (filter (λ l, l.2 = d) (Closedby.keydownListeners p))
             = match Closedby.records p !! d with Some _ => 1 | None => 0 end).
Proof.
  intros p. destruct (Closedby_run_synced els native ops) as (Hnd & Hmir & _).
  fold p in Hnd, Hmir. split; [done|]. split; [done|]. intros d.
  destruct (Closedby.records p !! d) as [st|] eqn:E.
  - change 1 with (length [(Closedby.handleEscape st, d)]).
    apply Permutation_length, NoDup_Permutation.
    + apply NoDup_filter. by apply NoDup_fmap_1 in Hnd.
    + apply NoDup_singleton.
    + intros [h d']. rewrite list_elem_of_filter, list_elem_of_singleton, Hmir. cbn.
      split.
      * intros (-> & st' & Hst' & <-). congruence.
      * intros [= -> ->]. split; [done|]. by exists st.
  - assert (filter (λ l, l.2 = d) (Closedby.keydownListeners p) = []) as ->; [|done].
    apply elem_of_nil_inv. intros [h d'] [Hd Hin]%list_elem_of_filter.
    cbn in Hd. subst d'. apply Hmir in Hin as (st & Hst & _). congruence.
Qed.

Lemma Closedby_escape_handler d event p :
  key (Closedby.createEscapeHandler d event p) = key event /\
  (keyDefaultPrevented (Closedby.createEscapeHandler d event p) = true <->
   keyDefaultPrevented event = true \/
   (key event = "Escape" /\
    resolvePolicy (closedby (Closedby.pageElements p d)) = PolicyNone)).
Proof.
  unfold Closedby.createEscapeHandler. rewrite Closedby_getClosedByValue.
  destruct (String.eqb_spec (key event) "Escape") as [Hk|Hk]; cbn [negb].
  - destruct (resolvePolicy _); cbn; (split; [done|]); naive_solver.
  - split; [done|]. naive_solver.
Qed.

Lemma Closedby_dispatch_fold (l : list (ObjectId * Dialog)) event p :
  let event' := fold_left (fun ev x => Closedby.createEscapeHandler x.2 ev p) l event in
  key event' = key event /\
  (keyDefaultPrevented event' = true <->
   keyDefaultPrevented event = true \/
   (key event = "Escape" /\
    exists x, x ∈ l /\
              resolvePolicy (closedby (Closedby.pageElements p x.2)) = PolicyNone)).
Proof.
  revert event. induction l as [|x l IH]; intros event; cbn [fold_left].
  - split; [done|]. split; [by left|]. by intros [H|(_ & x & []%elem_of_nil & _)].
  - destruct (Closedby_escape_handler x.2 event p) as [Hk Hp].
    destruct (IH (Closedby.createEscapeHandler x.2 event p)) as [IHk IHp].
    cbn zeta in *. split; [congruence|]. rewrite IHp, Hp, Hk.
    split.
    + intros [[H|[Hkey Hpol]]|(Hkey & y & Hy & Hpol)].
      * by left.
      * right. split; [done|]. exists x. split; [left|done].
      * right. split; [done|]. exists y. split; [by right|done].
    + intros [H|(Hkey & y & Hy & Hpol)]; [by left; left|].
      apply elem_of_cons in Hy as [->|Hy].
      * left. by right.
      * right. split; [done|]. by exists y.
Qed.

(** In the single-file build every dialog with a record has its own Escape
    handler on the document, and each handler looks at its own dialog only:
    after any run of the page's operations a keydown event leaves the
    document prevented exactly when it arrived prevented, or it is the
    Escape key and some dialog with a record (top-most or not) is
    configured "none". The key itself is never changed. *)
Theorem Closedby_escape_prevented_by_any_none
    (els : Dialog -> Element) (native : NativeShowModal) (ops : list Closedby.Op)
    (event : KeyboardEvent) :
  let p := Closedby.run ops (Closedby.start els native) in
  key (Closedby.dispatchKeydown event p) = key event /\
  (keyDefaultPrevented (Closedby.dispatchKeydown event p) = true <->
   keyDefaultPrevented event = true \/
   (key event = "Escape" /\
    exists d, is_Some (Closedby.records p !! d) /\
              resolvePolicy (closedby (Closedby.pageElements p d)) = PolicyNone)).
Proof.
  intros p. destruct (Closedby_run_synced els native ops) as (_ & Hmir & _).
  fold p in Hmir.
  destruct (Closedby_dispatch_fold (Closedby.keydownListeners p) event p) as [Hk Hp].
  cbn zeta in *. unfold Closedby.dispatchKeydown. split; [done|]. rewrite Hp.
  split; (intros [H|(Hkey & H)]; [by left|right; split; [done|]]).
  - destruct H as ([h d] & Hin & Hpol). exists d. split; [|done].
    apply Hmir in Hin as (st & -> & _). by eexists.
  - destruct H as (d & [st Hst] & Hpol). exists (Closedby.handleEscape st, d).
    split; [|done]. apply Hmir. by exists st.
Qed.

Lemma Closedby_sync_record d p :
  let p' := if open (Closedby.pageElements p d)
            then Closedby.setupEventListeners d p
            else Closedby.removeEventListeners d p in
  (forall d', open (Closedby.pageElements p' d') = open (Closedby.pageElements p d') /\
              closedby (Closedby.pageElements p' d')
              = closedby (Closedby.pageElements p d')) /\
  (is_Some (Closedby.records p' !! d) <-> open (Closedby.pageElements p d) = true) /\
  (forall d', d' <> d -> Closedby.records p' !! d' = Closedby.records p !! d').
Proof.
  destruct (open (Closedby.pageElements p d)) eqn:Ho; cbn zeta.
  - destruct (Closedby_records_setup d p) as [st Hst]. rewrite Hst.
    split; [|split].
    + intros d'. by destruct (Closedby_elements_setup d d' p) as (-> & -> & _).
    + by rewrite lookup_insert_eq.
    + intros d' Hne. by rewrite lookup_insert_ne, lookup_delete_ne.
  - rewrite Closedby_records_remove. split; [|split].
    + intros d'. by destruct (Closedby_elements_remove d d' p) as (-> & -> & _).
    + rewrite lookup_delete_eq. split; [by intros [? [=]]|done].
    + intros d' Hne. by rewrite lookup_delete_ne.
Qed.

Lemma kept_literal value : recognizedLiteral value -> kept value = Some (stored value).
Proof. unfold kept, stored. intros [->|[->| ->]]; repeat case_decide; done. Qed.

Lemma kept_fallback value : ~ recognizedLiteral value -> kept value = None.
Proof. unfold kept, recognizedLiteral. intros H. repeat case_decide; tauto. Qed.

Lemma kept_is_Some value : is_Some (kept value) <-> recognizedLiteral value.
Proof.
  unfold kept, recognizedLiteral.
  repeat case_decide; split; try tauto; try (intros _; by eexists).
  by intros [? [=]].
Qed.

Lemma Closedby_written d value p :
  let p1 := match value with
            | JSString s =>
                if isRecognized value
                then Closedby.update_pageElement d (set_closedby (Some s)) p
                else Closedby.update_pageElement d (set_closedby None) p
            | _ => Closedby.update_pageElement d (set_closedby None) p
            end in
  closedby (Closedby.pageElements p1 d) = kept value /\
  (forall d', open (Closedby.pageElements p1 d') = open (Closedby.pageElements p d')) /\
  (forall d', d' <> d -> closedby (Closedby.pageElements p1 d')
                         = closedby (Closedby.pageElements p d')) /\
  Closedby.records p1 = Closedby.records p.
Proof.
  pose proof (isRecognized_literal value) as Hrec.
  assert (closedby (Closedby.pageElements
            match value with
            | JSString s =>
                if isRecognized value
                then Closedby.update_pageElement d (set_closedby (Some s)) p
                else Closedby.update_pageElement d (set_closedby None) p
            | _ => Closedby.update_pageElement d (set_closedby None) p
            end d) = kept value) as Hk.
  { destruct (isRecognized value) eqn:E.
    - assert (recognizedLiteral value) as Hlit by by apply Hrec.
      rewrite (kept_literal value Hlit).
      pose proof (stored_literal value Hlit) as Hs. destruct value as [s|t|e]; try done.
      injection Hs as Hs. cbn. rewrite decide_True by done. cbn. congruence.
    - assert (~ recognizedLiteral value) as Hlit by (rewrite <- Hrec; congruence).
      rewrite (kept_fallback value Hlit).
      destruct value as [s|t|e]; cbn; by rewrite decide_True by done. }
  cbn zeta. split; [exact Hk|].
  destruct value as [s|t|e]; [destruct (isRecognized _)|..]; cbn;
    (split; [|split; [|done]]); intros d'; try intros Hne; case_decide; done.
Qed.

Lemma Closedby_closedBy_set_effect (d : Dialog) (value : JSValue) (p : Closedby.Page) :
  let p' := Closedby.closedBy_set d value p in
  closedby (Closedby.pageElements p' d) = kept value /\
  open (Closedby.pageElements p' d) = open (Closedby.pageElements p d) /\
  (is_Some (Closedby.records p' !! d) <-> open (Closedby.pageElements p d) = true) /\
  (forall d', d' <> d ->
     Closedby.records p' !! d' = Closedby.records p !! d' /\
     closedby (Closedby.pageElements p' d') = closedby (Closedby.pageElements p d')).
Proof.
  intros p'. unfold Closedby.closedBy_set in p'.
  destruct (Closedby_written d value p) as (Hattr & Hopen & Hothers & Hrec).
  cbn zeta in *.
  set (p1 := match value with
             | JSString s =>
                 if isRecognized value
                 then Closedby.update_pageElement d (set_closedby (Some s)) p
                 else Closedby.update_pageElement d (set_closedby None) p
             | _ => Closedby.update_pageElement d (set_closedby None) p
             end) in *.
  destruct (Closedby_sync_record d p1) as (Hel & Hsome & Hkeep). cbn zeta in *.
  fold p' in Hel, Hsome, Hkeep.
  split; [|split; [|split]].
  - by destruct (Hel d) as [_ ->].
  - destruct (Hel d) as [-> _]. apply Hopen.
  - by rewrite Hsome, Hopen.
  - intros d' Hne. rewrite Hkeep, Hrec by done. split; [done|].
    destruct (Hel d') as [_ ->]. by apply Hothers.
Qed.

Lemma Closedby_read_back (value : JSValue) (d : Dialog) (p : Closedby.Page) :
  closedby (Closedby.pageElements p d) = kept value ->
  Closedby.getClosedByValue d p = stored value.
Proof.
  intros Hc. unfold Closedby.getClosedByValue. rewrite Hc.
  unfold kept, stored. repeat case_decide; subst; done.
Qed.

(** Writing the property [closedBy] in the single-file build and reading it
    back: "any", "closerequest" and "none" are stored in the attribute as
    they are, every other value removes the attribute; what is then read
    back is "closerequest" or "none" when that literal was written and "any"
    otherwise. The write never opens or closes the dialog, leaves it with a
    record exactly when it is open, and leaves the attributes and the
    records of every other dialog as they were. *)
Theorem Closedby_setter_roundtrip (d : Dialog) (value : JSValue) (p : Closedby.Page) :
  let p' := Closedby.closedBy_set d value p in
  closedby (Closedby.pageElements p' d) = kept value /\
  Closedby.getClosedByValue d p' = stored value /\
  open (Closedby.pageElements p' d) = open (Closedby.pageElements p d) /\
  (is_Some (Closedby.records p' !! d) <-> open (Closedby.pageElements p d) = true) /\
  (forall d', d' <> d ->
     Closedby.records p' !! d' = Closedby.records p !! d' /\
     closedby (Closedby.pageElements p' d') = closedby (Closedby.pageElements p d')).
Proof.
  intros p'.
  destruct (Closedby_closedBy_set_effect d value p) as (Hattr & Hopen & Hsome & Hothers).
  fold p' in Hattr, Hopen, Hsome, Hothers.
  split; [exact Hattr|]. split; [|split; [exact Hopen|split; [exact Hsome|]]].
  - by apply Closedby_read_back.
  - intros d' Hne. by apply Hothers.
Qed.

(** The write and the attribute observer together, in the single-file
    build: when the observer then reports the change of [closedby] on the
    dialog, the dialog is left with a record exactly when it is open and
    the written value is one of the literals "any", "closerequest" and
    "none". An open dialog that is written any other value ends without
    the attribute and without a record, although its [closedBy] reads
    "any". *)
Theorem Closedby_write_then_observe (d : Dialog) (value : JSValue) (p : Closedby.Page) :
  let p' := Closedby.attrObserverCallback [d] (Closedby.closedBy_set d value p) in
  (is_Some (Closedby.records p' !! d)
   <-> open (Closedby.pageElements p d) = true /\ recognizedLiteral value) /\
  closedby (Closedby.pageElements p' d) = kept value /\
  Closedby.getClosedByValue d p' = stored value.
Proof.
  intros p'.
  destruct (Closedby_closedBy_set_effect d value p) as (Hattr & Hopen & Hsome & _).
  cbn zeta in *. set (p1 := Closedby.closedBy_set d value p) in *.
  unfold Closedby.attrObserverCallback in p'. cbn [fold_left] in p'.
  assert (closedby (Closedby.pageElements p' d) = closedby (Closedby.pageElements p1 d))
    as Hc.
  { unfold p'. destruct (_ && _).
    - by destruct (Closedby_elements_setup d d p1) as (_ & -> & _).
    - by destruct (Closedby_elements_remove d d p1) as (_ & -> & _). }
  pose proof (kept_is_Some value) as Hkept.
  split; [|split; [by rewrite Hc|apply Closedby_read_back; by rewrite Hc]].
  unfold p'. rewrite Hattr, Hopen.
  destruct (open (Closedby.pageElements p d)); cbn [andb].
  - case_bool_decide as Hk.
    + destruct (Closedby_records_setup d p1) as [st ->]. rewrite lookup_insert_eq.
      split; [intros _; split; [done|by apply Hkept]|by eexists].
    + rewrite Closedby_records_remove, lookup_delete_eq.
      split; [by intros [? [=]]|]. intros [_ Hlit]. exfalso. by apply Hk, Hkept.
  - rewrite Closedby_records_remove, lookup_delete_eq. split; [by intros [? [=]]|].
    by intros [[=] _].
Qed.

(** ** The listeners with light dismiss *)

Lemma LightDismiss_aligned_elements p p' :
  LightDismiss.documentClickListeners p' = LightDismiss.documentClickListeners p ->
  LightDismiss.dialogStates p' = LightDismiss.dialogStates p ->
  LightDismiss.activeDialogs p' = LightDismiss.activeDialogs p ->
  LightDismiss.nextId p' = LightDismiss.nextId p ->
  LightDismiss.aligned p -> LightDismiss.aligned p'.
Proof. unfold LightDismiss.aligned. by intros -> -> -> ->. Qed.

Lemma filter_fst_snd (l : list (ObjectId * Dialog)) h d :
  (forall h' d', (h', d') ∈ l -> h' = h <-> d' = d) ->
  filter (λ x, x.1 ≠ h) l = filter (λ x, x.2 ≠ d) l.
Proof.
  induction l as [|[h' d'] l IH]; intros Hall; [done|].
  rewrite !filter_cons. cbn [fst snd].
  assert (h' = h <-> d' = d) as Hiff by (apply Hall; left).
  rewrite IH by (intros ? ? ?; apply Hall; by right).
  repeat case_decide; naive_solver.
Qed.

Lemma filter_snd_fmap (l : list (ObjectId * Dialog)) d :
  (filter (λ x, x.2 ≠ d) l).*2 = filter (λ d', d' ≠ d) l.*2.
Proof.
  induction l as [|[h' d'] l IH]; [done|].
  cbn [fmap list_fmap]. rewrite !filter_cons. cbn [snd].
  case_decide; cbn [fmap list_fmap]; by rewrite IH.
Qed.

Lemma LightDismiss_registered p d st :
  LightDismiss.aligned p ->
  LightDismiss.dialogStates p !! d = Some st ->
  (LightDismiss.handleDocClick st, d) ∈ LightDismiss.documentClickListeners p.
Proof.
  intros (Hal & Hnd & Hndh & Hrec & Hact & Hlt) Hst.
  assert (d ∈ LightDismiss.activeDialogs p) as Hin by (apply Hact; eauto).
  rewrite <- Hal in Hin. apply list_elem_of_fmap in Hin as ([h d'] & -> & Hin).
  cbn in *. destruct (Hrec _ _ Hin) as (st' & Hst' & <-). by simplify_eq.
Qed.

Lemma LightDismiss_detach_aligned d p :
  LightDismiss.aligned p -> LightDismiss.aligned (LightDismiss.detachDialog d p).
Proof.
  intros Ha. pose proof Ha as (Hal & Hnd & Hndh & Hrec & Hact & Hlt).
  unfold LightDismiss.detachDialog.
  destruct (LightDismiss.dialogStates p !! d) as [st|] eqn:E; [|done].
  pose proof (LightDismiss_registered p d st Ha E) as Hreg.
  assert (filter (λ x, x.1 ≠ LightDismiss.handleDocClick st)
                 (LightDismiss.documentClickListeners p)
          = filter (λ x, x.2 ≠ d) (LightDismiss.documentClickListeners p)) as Hf.
  { apply filter_fst_snd. intros h' d' Hin. split.
    - intros ->.
      by apply (NoDup_fst_same (LightDismiss.documentClickListeners p)
                  (LightDismiss.handleDocClick st)).
    - intros ->. destruct (Hrec _ _ Hin) as (st' & Hst' & <-). congruence. }
  unfold LightDismiss.aligned. cbn. rewrite Hf.
  split; [|split; [|split; [|split; [|split]]]].
  - rewrite filter_snd_fmap. by rewrite Hal.
  - by apply NoDup_filter.
  - by apply NoDup_fst_filter.
  - intros h d' [Hne Hin]%list_elem_of_filter. cbn in Hne.
    destruct (Hrec _ _ Hin) as (st' & Hst' & Hh). exists st'.
    by rewrite lookup_delete_ne.
  - intros d' [st' [Hne Hst']%lookup_delete_Some]. unfold Set_delete.
    apply list_elem_of_filter. split; [done|]. apply Hact. eauto.
  - intros h d' [_ Hin]%list_elem_of_filter. by apply (Hlt h d').
Qed.

Lemma LightDismiss_attach_aligned d p :
  LightDismiss.aligned p -> LightDismiss.aligned (LightDismiss.attachDialog d p).
Proof.
  intros Ha. pose proof Ha as (Hal & Hnd & Hndh & Hrec & Hact & Hlt).
  unfold LightDismiss.attachDialog. case_bool_decide as Hhas; [done|].
  assert (d ∉ LightDismiss.activeDialogs p) as Hnot.
  { intros Hin. rewrite <- Hal in Hin.
    apply list_elem_of_fmap in Hin as ([h d'] & -> & Hin).
    destruct (Hrec _ _ Hin) as (st' & Hst' & _). apply Hhas. eauto. }
  assert (S (LightDismiss.nextId p) ∉ (LightDismiss.documentClickListeners p).*1)
    as Hfresh.
  { intros Hin. apply list_elem_of_fmap in Hin as ([h d'] & Heq & Hin).
    cbn in Heq. subst h. specialize (Hlt _ _ Hin). lia. }
  unfold LightDismiss.aligned. cbn.
  unfold LightDismiss.add_documentClickListener, Set_add.
  rewrite !bool_decide_eq_false_2 by done.
  split; [|split; [|split; [|split; [|split]]]].
  - by rewrite fmap_app, Hal.
  - apply NoDup_app. split; [done|]. split; [|apply NoDup_singleton].
    by intros d' Hin ->%list_elem_of_singleton.
  - rewrite fmap_app. apply NoDup_app. split; [done|]. split; [|apply NoDup_singleton].
    by intros h Hin ->%list_elem_of_singleton.
  - intros h d'. rewrite elem_of_app, list_elem_of_singleton.
    intros [Hin|[= -> ->]].
    + destruct (Hrec _ _ Hin) as (st' & Hst' & Hh). exists st'. split; [|done].
      rewrite lookup_insert_ne; [done|]. intros <-. apply Hhas. eauto.
    + eexists. split; [apply lookup_insert_eq|done].
  - intros d' [st' Hst']. rewrite elem_of_app, list_elem_of_singleton.
    apply lookup_insert_Some in Hst' as [[<- _]|[Hne Hst']]; [by right|].
    left. apply Hact. eauto.
  - intros h d'. rewrite elem_of_app, list_elem_of_singleton.
    intros [Hin|[= -> ->]]; [specialize (Hlt _ _ Hin)|]; lia.
Qed.

Lemma LightDismiss_close_aligned d p :
  LightDismiss.aligned p -> LightDismiss.aligned (LightDismiss.close d p).
Proof.
  intros Ha. apply (LightDismiss_detach_aligned d) in Ha.
  unfold LightDismiss.close, LightDismiss.originalClose. by destruct (negb _).
Qed.

Lemma LightDismiss_handler_aligned d event p :
  LightDismiss.aligned p ->
  LightDismiss.aligned (LightDismiss.createLightDismissHandler d event p).
Proof.
  intros Ha. unfold LightDismiss.createLightDismissHandler.
  destruct (_ || _); [done|]. cbn zeta. destruct (negb _); [|done].
  by apply LightDismiss_close_aligned.
Qed.

Lemma LightDismiss_step_aligned p op :
  LightDismiss.aligned p -> LightDismiss.aligned (LightDismiss.step p op).
Proof.
  intros Ha. destruct op; cbn [LightDismiss.step].
  - by apply LightDismiss_attach_aligned.
  - by apply LightDismiss_detach_aligned.
  - by apply LightDismiss_close_aligned.
  - unfold LightDismiss.dispatchDocumentClick.
    generalize (LightDismiss.documentClickListeners p). intros l.
    revert p Ha. induction l as [|x l IH]; intros p Ha; [done|].
    cbn [fold_left]. apply IH. case_bool_decide; [|done].
    by apply LightDismiss_handler_aligned.
  - unfold LightDismiss.createClickHandler.
    destruct (negb (bool_decide _)); [done|]. destruct (negb (String.eqb _ _)); [done|].
    cbn zeta. destruct (negb _); [|done]. by apply LightDismiss_close_aligned.
  - done.
Qed.

Lemma LightDismiss_run_aligned els ops :
  LightDismiss.aligned (LightDismiss.run ops (LightDismiss.start els)).
Proof.
  assert (LightDismiss.aligned (LightDismiss.start els)) as H0.
  { unfold LightDismiss.aligned. cbn. split; [done|]. split; [constructor|].
    split; [constructor|]. split; [by intros ? ? ?%elem_of_nil|].
    split; [|by intros ? ? ?%elem_of_nil].
    intros d [st Hst]. by rewrite lookup_empty in Hst. }
  unfold LightDismiss.run. revert H0. generalize (LightDismiss.start els).
  induction ops as [|op ops IH]; intros p0 H0; [done|].
  cbn [fold_left]. by apply IH, LightDismiss_step_aligned.
Qed.

Lemma LightDismiss_getClosedByValue d p :
  LightDismiss.getClosedByValue d p
  = literal (resolvePolicy (closedby (LightDismiss.pageElements p d))).
Proof. apply normalize_literal. Qed.

Lemma LightDismiss_handler_run d event p :
  let r := boundingRect (LightDismiss.pageElements p d) in
  (last (LightDismiss.activeDialogs p) = Some d ->
   resolvePolicy (closedby (LightDismiss.pageElements p d)) = PolicyAny ->
   open (LightDismiss.pageElements p d) = true ->
   strictlyOutside r (clientX event) (clientY event) ->
   LightDismiss.createLightDismissHandler d event p = LightDismiss.close d p) /\
  (last (LightDismiss.activeDialogs p) <> Some d \/
   resolvePolicy (closedby (LightDismiss.pageElements p d)) <> PolicyAny \/
   open (LightDismiss.pageElements p d) = false \/
   ~ strictlyOutside r (clientX event) (clientY event) ->
   LightDismiss.createLightDismissHandler d event p = p).
Proof.
  intros r. unfold LightDismiss.createLightDismissHandler, LightDismiss.isTopMost.
  rewrite LightDismiss_getClosedByValue. fold r.
  pose proof (clickedInside_strictlyOutside r (clientX event) (clientY event)) as Hout.
  split.
  - intros Htop Hpol Hopen Hs. rewrite bool_decide_eq_true_2, Hpol, Hopen by done.
    cbn [negb orb literal String.eqb Ascii.eqb Bool.eqb]. cbn zeta.
    apply Hout in Hs. by rewrite Hs.
  - intros H. case_bool_decide as Htop; cbn [negb orb]; [|done].
    destruct (resolvePolicy _) eqn:Hpol; cbn [literal String.eqb Ascii.eqb Bool.eqb
      negb orb]; try done.
    destruct (open _) eqn:Hopen; cbn [negb]; [|done]. cbn zeta.
    destruct (_ && _) eqn:E in Hout |- *; cbn [negb]; [done|].
    exfalso. destruct H as [H|[H|[H|H]]]; try done. by apply H, Hout.
Qed.

Lemma LightDismiss_lower_ignored (l : list (ObjectId * Dialog)) event p top :
  last (LightDismiss.activeDialogs p) = Some top ->
  (forall x, x ∈ l -> x.2 <> top) ->
  fold_left
    (fun p x => if bool_decide (x ∈ LightDismiss.documentClickListeners p)
                then LightDismiss.createLightDismissHandler x.2 event p
                else p) l p = p.
Proof.
  intros Htop. induction l as [|x l IH]; intros Hall; [done|].
  cbn [fold_left].
  assert (LightDismiss.createLightDismissHandler x.2 event p = p) as ->.
  { apply LightDismiss_handler_run. left. rewrite Htop. intros [= Heq].
    apply (Hall x); [left|done]. }
  assert ((if bool_decide (x ∈ LightDismiss.documentClickListeners p) then p else p)
          = p) as -> by (by destruct (bool_decide _)).
  apply IH. intros y Hy. apply Hall. by right.
Qed.

Lemma LightDismiss_dispatch_top event p :
  LightDismiss.aligned p ->
  LightDismiss.dispatchDocumentClick event p
  = match last (LightDismiss.activeDialogs p) with
    | Some top => LightDismiss.createLightDismissHandler top event p
    | None => p
    end.
Proof.
  intros (Hal & Hnd & Hndh & Hrec & Hact & Hlt).
  unfold LightDismiss.dispatchDocumentClick.
  destruct (last (LightDismiss.activeDialogs p)) as [top|] eqn:Htop.
  - pose proof Htop as [a Ha]%last_Some. rewrite Ha in Hal, Hnd.
    apply fmap_app_inv in Hal as (l & k & Hl & Hk & Hlk).
    destruct k as [|[h d] [|? ?]]; try done. cbn in Hk. simplify_eq.
    rewrite Hlk at 1. rewrite fold_left_app. cbn [fold_left].
    rewrite (LightDismiss_lower_ignored l event p d); [| done |].
    + rewrite bool_decide_eq_true_2; [done|]. rewrite Hlk. apply elem_of_app.
      right. by left.
    + intros x Hx Heq. apply NoDup_app in Hnd as (_ & Hdis & _).
      apply (Hdis d); [|by left]. apply list_elem_of_fmap. by exists x.
  - apply last_None in Htop. rewrite Htop in Hal.
    apply fmap_nil_inv in Hal. by rewrite Hal.
Qed.

Lemma LightDismiss_close_effect d p :
  LightDismiss.aligned p ->
  d ∈ LightDismiss.activeDialogs p ->
  let p' := LightDismiss.close d p in
  open (LightDismiss.pageElements p' d) = false /\
  LightDismiss.activeDialogs p' = filter (λ d', d' ≠ d) (LightDismiss.activeDialogs p) /\
  LightDismiss.dialogStates p' = delete d (LightDismiss.dialogStates p) /\
  (forall d', d' <> d ->
     open (LightDismiss.pageElements p' d') = open (LightDismiss.pageElements p d')).
Proof.
  intros (Hal & Hnd & Hndh & Hrec & Hact & Hlt) Hin.
  assert (exists st, LightDismiss.dialogStates p !! d = Some st) as [st Hst].
  { rewrite <- Hal in Hin. apply list_elem_of_fmap in Hin as ([h d'] & -> & Hin).
    destruct (Hrec _ _ Hin) as (st & Hst & _). eauto. }
  unfold LightDismiss.close, LightDismiss.originalClose, LightDismiss.detachDialog.
  rewrite Hst. cbn. rewrite !decide_True by done. cbn.
  destruct (open (LightDismiss.pageElements p d)) eqn:Ho; cbn.
  - rewrite !decide_True by done. cbn. repeat split; try done.
    intros d' Hne. by rewrite !decide_False by done.
  - rewrite !decide_True by done. cbn. repeat split; try done.
    intros d' Hne. by rewrite !decide_False by done.
Qed.

(** What the document's capture listeners do with a click. On a page
    reached by any run of attaching, detaching, closing, clicks and page
    changes, when a click arrives at the document (whatever its target) the
    [handleDocumentClick] listeners together do the following: if the stack
    is empty, nothing; otherwise only the dialog on top of the stack is
    looked at, and it is closed and taken off the stack exactly when its
    policy is [Any], it is open and the click lies strictly outside its box
    (a click on an edge counts as inside). These listeners leave every other
    dialog as open and as tracked as it was. The click then goes on to its
    target, where the [handleClick] of a dialog may run; that step is
    [createClickHandler] and is not part of this statement. *)
Theorem LightDismiss_capture_closes_top_only
    (els : Dialog -> Element) (ops : list LightDismiss.Op) (event : MouseEvent) :
  let p := LightDismiss.run ops (LightDismiss.start els) in
  let p' := LightDismiss.dispatchDocumentClick event p in
  (LightDismiss.activeDialogs p = [] -> p' = p) /\
  (forall top, last (LightDismiss.activeDialogs p) = Some top ->
     let r := boundingRect (LightDismiss.pageElements p top) in
     (resolvePolicy (closedby (LightDismiss.pageElements p top)) = PolicyAny ->
      open (LightDismiss.pageElements p top) = true ->
      strictlyOutside r (clientX event) (clientY event) ->
      p' = LightDismiss.close top p /\
      open (LightDismiss.pageElements p' top) = false /\
      (top ∉ LightDismiss.activeDialogs p') /\
      LightDismiss.dialogStates p' !! top = None /\
      (forall d, d <> top ->
         open (LightDismiss.pageElements p' d) = open (LightDismiss.pageElements p d) /\
         LightDismiss.dialogStates p' !! d = LightDismiss.dialogStates p !! d /\
         (d ∈ LightDismiss.activeDialogs p' <-> d ∈ LightDismiss.activeDialogs p))) /\
     (resolvePolicy (closedby (LightDismiss.pageElements p top)) <> PolicyAny \/
      open (LightDismiss.pageElements p top) = false \/
      ~ strictlyOutside r (clientX event) (clientY event) ->
      p' = p)).
Proof.
  intros p p'. pose proof (LightDismiss_run_aligned els ops) as Ha. fold p in Ha.
  pose proof (LightDismiss_dispatch_top event p Ha) as Hd. fold p' in Hd.
  split.
  - intros Hnil. by rewrite Hnil in Hd.
  - intros top Htop r. rewrite Htop in Hd.
    destruct (LightDismiss_handler_run top event p) as [Hclose Hkeep]. fold r in Hclose, Hkeep.
    split.
    + intros Hpol Hopen Hout. rewrite Hclose in Hd by done.
      assert (top ∈ LightDismiss.activeDialogs p) as Hin.
      { apply last_Some in Htop as [a ->]. apply elem_of_app. right. by left. }
      destruct (LightDismiss_close_effect top p Ha Hin) as (Ho & Hact & Hst & Hothers).
      cbn zeta in *. rewrite <- Hd in Ho, Hact, Hst, Hothers.
      split; [done|]. split; [done|]. split; [|split].
      * rewrite Hact. by intros [? _]%list_elem_of_filter.
      * rewrite Hst. apply lookup_delete_eq.
      * intros d Hne. split; [by apply Hothers|]. split.
        -- rewrite Hst. by apply lookup_delete_ne.
        -- rewrite Hact, list_elem_of_filter. naive_solver.
    + intros H. rewrite Hd. apply Hkeep. by right.
Qed.

(** The capture listeners on the document mirror the stack: on a page
    reached by any run, the dialogs of the listeners, in the order of
    registration, are the stack; no dialog is on the stack twice; and a
    listener is registered for a dialog exactly when it is the
    [handleDocClick] of the dialog's record, so detaching leaves no listener
    behind on the document. *)
Theorem LightDismiss_listeners_mirror_stack
    (els : Dialog -> Element) (ops : list LightDismiss.Op) :
  let p := LightDismiss.run ops (LightDismiss.start els) in
  (LightDismiss.documentClickListeners p).*2 = LightDismiss.activeDialogs p /\
  NoDup (LightDismiss.activeDialogs p) /\
  (forall d, d ∈ LightDismiss.activeDialogs p <->
             is_Some (LightDismiss.dialogStates p !! d)) /\
  (forall h d, (h, d) ∈ LightDismiss.documentClickListeners p <->
               exists st, LightDismiss.dialogStates p !! d = Some st /\
                          LightDismiss.handleDocClick st = h).
Proof.
  intros p. pose proof (LightDismiss_run_aligned els ops) as Ha. fold p in Ha.
  pose proof Ha as (Hal & Hnd & Hndh & Hrec & Hact & Hlt).
  split; [done|]. split; [done|]. split.
  - intros d. split; [|apply Hact]. intros Hin. rewrite <- Hal in Hin.
    apply list_elem_of_fmap in Hin as ([h d'] & -> & Hin).
    destruct (Hrec _ _ Hin) as (st & Hst & _). eauto.
  - intros h d. split; [apply Hrec|]. intros (st & Hst & <-).
    by apply LightDismiss_registered.
Qed.
